(** * Stock ledger and inventory-submission workflow of the chemical-inventory
    application: a shallow embedding of [services/dataService.ts], of
    [services/chatService.ts] and of the depot dashboard's submit handler.

    The hosted store (the [supabase] client) is an external collaborator.  It
    is modelled as tables held in a [World], served one request at a time.
    Quantities are JavaScript numbers in the source, that is IEEE doubles.
    The model keeps the integers among them ([Z]); the sums and differences
    the source computes are rounded to the nearest double ([Double.add],
    [Double.sub]).  Timestamps are epoch milliseconds. *)

From Stdlib Require Import ZArith NArith Ascii Lia Permutation.
From stdpp Require Import prelude strings pretty list infinite gmap.

Local Open Scope Z_scope.

(** ** Numbers

    A JavaScript number is a double: a 53-bit significand and a binary
    exponent.  Every integer of magnitude up to [2^53] is a double; beyond,
    the doubles are the multiples of the unit in the last place.  [+] and
    [-] return the double nearest to the exact result, a tie going to the
    even significand.  Results of magnitude [2^1024] or more ([Infinity] in
    the source) are beyond the stocks the model follows. *)

Module Double.

(** The double nearest to a non-negative integer. *)
Definition round_abs (a : Z) : Z :=
  if a <? 2 ^ 53 then a
  else
    let ulp := 2 ^ (Z.log2 a - 52) in
    let significand := a / ulp in
    let rest := a mod ulp in
    if 2 * rest <? ulp then significand * ulp
    else if ulp <? 2 * rest then (significand + 1) * ulp
    else if Z.even significand then significand * ulp
    else (significand + 1) * ulp.

Definition round (z : Z) : Z := Z.sgn z * round_abs (Z.abs z).

(** [x + y] and [x - y] of the source. *)
Definition add (x y : Z) : Z := round (x + y).
Definition sub (x y : Z) : Z := round (x - y).

(** Of magnitude at most [2^52]: the sum and the difference of two such
    integers are at most [2^53], so they are computed exactly. *)
Definition moderate (z : Z) : Prop := Z.abs z <= 2 ^ 52.

End Double.

Arguments Double.round : simpl never.
Arguments Double.add : simpl never.
Arguments Double.sub : simpl never.

(** ** Data model ([types.ts]) *)

Inductive ChangeType :=
| initial | update | correction | import | submission
| consumption | admin_entry | admin_exit | inventory_count.

Inductive SubmissionStatus := pending | approved | rejected.

Inductive Role := Admin | Depot.
Inductive UserStatus := Active | Pending | Inactive | Rejected.

Module User.
Record t := {
  id : string; firstName : string; lastName : string; email : string;
  service : string; phone : string; role : Role; status : UserStatus }.
End User.

Module Product.
Record t := {
  id : string; name : string; code : string; cas : string; formula : string;
  location : string; stock : Z; unit : string; alertThreshold : Z;
  imageUrl : option string; safetySheetUrl : option string;
  ghsPictograms : list string;
  created_at : N; updated_at : N; expiryDate : string }.

Definition with_updated_at (now : N) (p : t) : t :=
  {| id := id p; name := name p; code := code p; cas := cas p;
     formula := formula p; location := location p; stock := stock p;
     unit := unit p; alertThreshold := alertThreshold p;
     imageUrl := imageUrl p; safetySheetUrl := safetySheetUrl p;
     ghsPictograms := ghsPictograms p;
     created_at := created_at p; updated_at := now;
     expiryDate := expiryDate p |}.

Definition with_stock (s : Z) (p : t) : t :=
  {| id := id p; name := name p; code := code p; cas := cas p;
     formula := formula p; location := location p; stock := s;
     unit := unit p; alertThreshold := alertThreshold p;
     imageUrl := imageUrl p; safetySheetUrl := safetySheetUrl p;
     ghsPictograms := ghsPictograms p;
     created_at := created_at p; updated_at := updated_at p;
     expiryDate := expiryDate p |}.

(** The row the store keeps for an inserted object: the store assigns
    [id], [created_at] and [updated_at]. *)
Definition stored (uuid : string) (now : N) (p : t) : t :=
  {| id := uuid; name := name p; code := code p; cas := cas p;
     formula := formula p; location := location p; stock := stock p;
     unit := unit p; alertThreshold := alertThreshold p;
     imageUrl := imageUrl p; safetySheetUrl := safetySheetUrl p;
     ghsPictograms := ghsPictograms p;
     created_at := now; updated_at := now;
     expiryDate := expiryDate p |}.

(** [update({ name, ..., updated_at })]: every column but [id] and
    [created_at] is overwritten. *)
Definition overwritten (new old : t) : t :=
  {| id := id old; name := name new; code := code new; cas := cas new;
     formula := formula new; location := location new; stock := stock new;
     unit := unit new; alertThreshold := alertThreshold new;
     imageUrl := imageUrl new; safetySheetUrl := safetySheetUrl new;
     ghsPictograms := ghsPictograms new;
     created_at := created_at old; updated_at := updated_at new;
     expiryDate := expiryDate new |}.
End Product.

Module StockMovement.
Record t := {
  id : string;
  product_id : string; product_name : string;
  user_id : string; user_name : string;
  change_type : ChangeType;
  quantity_change : Z; old_stock_level : Z; new_stock_level : Z;
  created_at : N;
  transaction_ref : string }.

Definition stored (uuid : string) (now : N) (m : t) : t :=
  {| id := uuid;
     product_id := product_id m; product_name := product_name m;
     user_id := user_id m; user_name := user_name m;
     change_type := change_type m;
     quantity_change := quantity_change m;
     old_stock_level := old_stock_level m;
     new_stock_level := new_stock_level m;
     created_at := now;
     transaction_ref := transaction_ref m |}.
End StockMovement.

Module InventoryItem.
Record t := { productId : string; name : string; quantity : Z }.
End InventoryItem.

Module InventorySubmission.
Record t := {
  id : string; depotId : string; depotName : string;
  items : list InventoryItem.t; status : SubmissionStatus;
  created_at : N }.

Definition with_status (s : SubmissionStatus) (x : t) : t :=
  {| id := id x; depotId := depotId x; depotName := depotName x;
     items := items x; status := s; created_at := created_at x |}.

Definition stored (uuid : string) (now : N) (x : t) : t :=
  {| id := uuid; depotId := depotId x; depotName := depotName x;
     items := items x; status := status x; created_at := now |}.
End InventorySubmission.

Module ChatMessage.
Record t := {
  id : string; created_at : N;
  sender_id : string; sender_name : string;
  conversation_id : string; content : string }.

Definition stored (uuid : string) (now : N) (m : t) : t :=
  {| id := uuid; created_at := now;
     sender_id := sender_id m; sender_name := sender_name m;
     conversation_id := conversation_id m; content := content m |}.
End ChatMessage.

(** ** Errors

    An error value is either a plain object handed back by the store
    ([is_Error = false]: its [message] is an enumerable property) or an
    instance made by [new Error(..)] ([is_Error = true]: [message] is an own
    property that object spread does not copy). *)

Module JsError.
Record t := { message : string; code : option string; is_Error : bool }.

(** [new Error(msg)] *)
Definition new (msg : string) : t :=
  {| message := msg; code := None; is_Error := true |}.

(** [{ message: msg, ...error }] *)
Definition spread_over (msg : string) (error : t) : t :=
  {| message := if is_Error error then msg else message error;
     code := code error;
     is_Error := false |}.
End JsError.

(** Reading a property of [null]. *)
Definition TypeError : JsError.t :=
  JsError.new "Cannot read properties of null".

(** ** The store *)

(** The queries the source builds, one constructor per shape. *)
Inductive Request :=
| ProductsInsertSelectSingle (p : Product.t)
    (* from('products').insert({..}).select().single() *)
| ProductsSelectStockById (id : string)
    (* from('products').select('stock').eq('id', id).single() *)
| ProductsSelectById (id : string)
    (* from('products').select('*').eq('id', id).single() *)
| ProductsSelectByCodeLocation (code location : string)
    (* from('products').select('*').eq('code', ..).eq('location', ..).single() *)
| ProductsUpdateSelectSingle (id : string) (p : Product.t)
    (* from('products').update({..}).eq('id', id).select().single() *)
| ProductsUpdateStock (id : string) (stock : Z)
    (* from('products').update({ stock }).eq('id', id) *)
| StockMovementsInsert (m : StockMovement.t)
    (* from('stock_movements').insert(movement) *)
| SubmissionsInsert (s : InventorySubmission.t)
    (* from('inventory_submissions').insert({..}) *)
| SubmissionsUpdateStatus (id : string) (status : SubmissionStatus)
    (* from('inventory_submissions').update({ status }).eq('id', id) *)
| ChatMessagesInsert (m : ChatMessage.t).
    (* from('chat_messages').insert({..}) *)

(** What a query resolves to: [{ data, error }].  Only the product queries
    that ask for a row carry [data]. *)
Module Response.
Record t := { data : option Product.t; error : option JsError.t }.
Definition ok : t := {| data := None; error := None |}.
Definition row (p : Product.t) : t := {| data := Some p; error := None |}.
Definition failed (e : JsError.t) : t := {| data := None; error := Some e |}.
End Response.

(** The error of [.single()] when the filter keeps no row or several. *)
Definition PGRST116 : JsError.t :=
  {| JsError.message := "JSON object requested, multiple (or no) rows returned";
     JsError.code := Some "PGRST116";
     JsError.is_Error := false |}.

Definition single (rows : list Product.t) : Response.t :=
  match rows with
  | [r] => Response.row r
  | _ => Response.failed PGRST116
  end.

(** One entry of the environment's script, consumed by each round trip: which
    pending request the store serves next ([pick]), whether the round trip
    fails and with what ([fault]) and how long it took ([elapsed], in ms). *)
Module Net.
Record t := { pick : nat; fault : option JsError.t; elapsed : N }.
Definition quiet : t := {| pick := 0; fault := None; elapsed := 0 |}.
End Net.

Inductive Thread := MainThread | PromiseAt (i : nat).

Inductive Toast := toast_error | toast_success | toast_info.

Inductive ClientEffect :=
| ConsoleError (label : string)
    (* console.error(label, error) *)
| CsvDownload (items : list InventoryItem.t)
    (* generateAndDownloadCsv(items): the browser download of the staged list *)
| AddNotification (text : string) (type : Toast)
| SetStagedItems (items : list InventoryItem.t).

Inductive Event :=
| Served (who : Thread) (q : Request) (r : Response.t)
| Did (e : ClientEffect).

Record World := {
  products : list Product.t;
  stock_movements : list StockMovement.t;
  inventory_submissions : list InventorySubmission.t;
  chat_messages : list ChatMessage.t;
  clock : N;
  network : list Net.t;
  journal : list Event }.

Definition id_is (i : string) (p : Product.t) : bool :=
  String.eqb (Product.id p) i.

Definition at_depot (c l : string) (p : Product.t) : bool :=
  String.eqb (Product.code p) c && String.eqb (Product.location p) l.

Definition set_products (ps : list Product.t) (w : World) : World :=
  {| products := ps; stock_movements := stock_movements w;
     inventory_submissions := inventory_submissions w;
     chat_messages := chat_messages w; clock := clock w;
     network := network w; journal := journal w |}.

Definition set_stock_movements (ms : list StockMovement.t) (w : World) : World :=
  {| products := products w; stock_movements := ms;
     inventory_submissions := inventory_submissions w;
     chat_messages := chat_messages w; clock := clock w;
     network := network w; journal := journal w |}.

Definition set_inventory_submissions
    (ss : list InventorySubmission.t) (w : World) : World :=
  {| products := products w; stock_movements := stock_movements w;
     inventory_submissions := ss;
     chat_messages := chat_messages w; clock := clock w;
     network := network w; journal := journal w |}.

Definition set_chat_messages (cs : list ChatMessage.t) (w : World) : World :=
  {| products := products w; stock_movements := stock_movements w;
     inventory_submissions := inventory_submissions w;
     chat_messages := cs; clock := clock w;
     network := network w; journal := journal w |}.

Definition log (e : Event) (w : World) : World :=
  {| products := products w; stock_movements := stock_movements w;
     inventory_submissions := inventory_submissions w;
     chat_messages := chat_messages w; clock := clock w;
     network := network w; journal := journal w ++ [e] |}.

(** The head of the script is consumed and the clock moves on. *)
Definition next_net (w : World) : Net.t :=
  match network w with n :: _ => n | [] => Net.quiet end.

Definition tick (w : World) : World :=
  {| products := products w; stock_movements := stock_movements w;
     inventory_submissions := inventory_submissions w;
     chat_messages := chat_messages w;
     clock := (clock w + Net.elapsed (next_net w))%N;
     network := tail (network w); journal := journal w |}.

(** The effect of a request the store accepts.  An inserted row gets a
    primary key no row of its table has. *)
Definition perform (q : Request) (w : World) : Response.t * World :=
  match q with
  | ProductsInsertSelectSingle p =>
      let r := Product.stored (fresh (map Product.id (products w)))
                 (clock w) p in
      (single [r], set_products (products w ++ [r]) w)
  | ProductsSelectStockById i => (single (filter (id_is i) (products w)), w)
  | ProductsSelectById i => (single (filter (id_is i) (products w)), w)
  | ProductsSelectByCodeLocation c l =>
      (single (filter (at_depot c l) (products w)), w)
  | ProductsUpdateSelectSingle i p =>
      let ps := map (fun r => if id_is i r then Product.overwritten p r else r)
                    (products w) in
      (single (filter (id_is i) ps), set_products ps w)
  | ProductsUpdateStock i s =>
      (Response.ok,
       set_products
         (map (fun r => if id_is i r then Product.with_stock s r else r)
              (products w)) w)
  | StockMovementsInsert m =>
      (Response.ok,
       set_stock_movements
         (stock_movements w
          ++ [StockMovement.stored
                (fresh (map StockMovement.id (stock_movements w)))
                (clock w) m]) w)
  | SubmissionsInsert s =>
      (Response.ok,
       set_inventory_submissions
         (inventory_submissions w
          ++ [InventorySubmission.stored
                (fresh (map InventorySubmission.id (inventory_submissions w)))
                (clock w) s]) w)
  | SubmissionsUpdateStatus i st =>
      (Response.ok,
       set_inventory_submissions
         (map (fun r => if String.eqb (InventorySubmission.id r) i
                        then InventorySubmission.with_status st r else r)
              (inventory_submissions w)) w)
  | ChatMessagesInsert m =>
      (Response.ok,
       set_chat_messages
         (chat_messages w
          ++ [ChatMessage.stored (fresh (map ChatMessage.id (chat_messages w)))
                (clock w) m]) w)
  end.

(** One round trip.  A failed round trip changes no table: the query
    resolves to [{ data: null, error }]. *)
Definition serve (who : Thread) (q : Request) (w : World)
  : Response.t * World :=
  let n := next_net w in
  let w1 := tick w in
  match Net.fault n with
  | Some e => (Response.failed e, log (Served who q (Response.failed e)) w1)
  | None =>
      let '(r, w2) := perform q w1 in
      (r, log (Served who q r) w2)
  end.

(** ** Asynchronous programs

    A promise chain started with [.then] is a [Chain]: it is settled, or it
    waits for the store to answer its pending request.  An [async] function is
    an [Async]: besides awaiting a request it reads the clock, keeps the
    chains it starts in an array, awaits [Promise.all] of that array, and
    performs client-side effects. *)

Inductive Chain :=
| Fulfilled
| Broken (e : JsError.t)
| Then (q : Request) (k : Response.t -> Chain).

Inductive Async (R : Type) :=
| Return (r : R)
| Throw (e : JsError.t)
| Await (q : Request) (k : Response.t -> Async R)
| DateNow (k : N -> Async R)
| Push (c : Chain) (k : Async R)
| AwaitAll (k : option JsError.t -> Async R)
| Client (e : ClientEffect) (k : Async R).

Arguments Return {R} r.
Arguments Throw {R} e.
Arguments Await {R} q k.
Arguments DateNow {R} k.
Arguments Push {R} c k.
Arguments AwaitAll {R} k.
Arguments Client {R} e k.

Fixpoint bind {A B} (m : Async A) (f : A -> Async B) : Async B :=
  match m with
  | Return a => f a
  | Throw e => Throw e
  | Await q k => Await q (fun r => bind (k r) f)
  | DateNow k => DateNow (fun t => bind (k t) f)
  | Push c k => Push c (bind k f)
  | AwaitAll k => AwaitAll (fun o => bind (k o) f)
  | Client e k => Client e (bind k f)
  end.

(** [try { body } catch (error) { handler }] *)
Fixpoint try_catch {A} (body : Async A) (handler : JsError.t -> Async A)
  : Async A :=
  match body with
  | Return a => Return a
  | Throw e => handler e
  | Await q k => Await q (fun r => try_catch (k r) handler)
  | DateNow k => DateNow (fun t => try_catch (k t) handler)
  | Push c k => Push c (try_catch k handler)
  | AwaitAll k => AwaitAll (fun o => try_catch (k o) handler)
  | Client e k => Client e (try_catch k handler)
  end.

Declare Scope async_scope.
Delimit Scope async_scope with async.
Bind Scope async_scope with Async.
Notation "'let*' x ':=' m 'in' k" := (bind m (fun x => k))
  (at level 10, x pattern, m at level 100, k at level 200) : async_scope.

(** [await q] *)
Definition await (q : Request) : Async Response.t := Await q Return.
(** [Date.now()] *)
Definition Date_now : Async N := DateNow Return.
(** [array.push(chain)] *)
Definition push (c : Chain) : Async unit := Push c (Return tt).
(** [await Promise.all(array)] *)
Definition await_Promise_all : Async unit :=
  AwaitAll (fun o => match o with None => Return tt | Some e => Throw e end).
Definition client (e : ClientEffect) : Async unit := Client e (Return tt).

(** How [Promise.all] of the array stands: rejected with the error of the
    first rejected chain, fulfilled when every chain is, pending otherwise. *)
Fixpoint first_broken (ps : list Chain) : option JsError.t :=
  match ps with
  | [] => None
  | Broken e :: _ => Some e
  | _ :: ps => first_broken ps
  end.

Definition is_fulfilled (c : Chain) : bool :=
  match c with Fulfilled => true | _ => false end.

Definition Promise_all (ps : list Chain) : option (option JsError.t) :=
  match first_broken ps with
  | Some e => Some (Some e)
  | None => if forallb is_fulfilled ps then Some None else None
  end.

Record State (R : Type) := {
  main : Async R;
  promises : list Chain;
  world : World }.
Arguments main {R} s.
Arguments promises {R} s.
Arguments world {R} s.
Arguments Build_State {R} main promises world.

(** The synchronous run of the main function up to its next suspension. *)
Fixpoint settle {R} (m : Async R) (ps : list Chain) (w : World) : State R :=
  match m with
  | DateNow k => settle (k (clock w)) ps w
  | Push c k => settle k (ps ++ [c]) w
  | Client e k => settle k ps (log (Did e) w)
  | AwaitAll k =>
      match Promise_all ps with
      | Some o => settle (k o) ps w
      | None => Build_State m ps w
      end
  | _ => Build_State m ps w
  end.

(** The threads with a request in flight: the chains in array order, then
    the main function. *)
Definition chain_waits (c : Chain) : bool :=
  match c with Then _ _ => true | _ => false end.

Definition main_waits {R} (m : Async R) : bool :=
  match m with Await _ _ => true | _ => false end.

Fixpoint waiting_chains (i : nat) (ps : list Chain) : list Thread :=
  match ps with
  | [] => []
  | c :: ps =>
      (if chain_waits c then [PromiseAt i] else []) ++ waiting_chains (S i) ps
  end.

Definition in_flight {R} (s : State R) : list Thread :=
  waiting_chains 0 (promises s)
  ++ (if main_waits (main s) then [MainThread] else []).

Definition choose {R} (s : State R) : option Thread :=
  let ts := in_flight s in
  ts !! (Net.pick (next_net (world s)) `mod` length ts)%nat.

(** The store serves one request in flight; the continuation of the thread
    that issued it runs, and the main function resumes if [Promise.all] has
    settled. *)
Definition step {R} (s : State R) : State R :=
  match choose s with
  | Some MainThread =>
      match main s with
      | Await q k =>
          let '(r, w) := serve MainThread q (world s) in
          settle (k r) (promises s) w
      | _ => s
      end
  | Some (PromiseAt i) =>
      match promises s !! i with
      | Some (Then q k) =>
          let '(r, w) := serve (PromiseAt i) q (world s) in
          settle (main s) (<[i := k r]> (promises s)) w
      | _ => s
      end
  | None => s
  end.

Fixpoint run {R} (fuel : nat) (s : State R) : State R :=
  match fuel with
  | O => s
  | S fuel => run fuel (step s)
  end.

Definition start {R} (m : Async R) (w : World) : State R := settle m [] w.

(** What the caller's [await] of the function yields. *)
Inductive Outcome (R : Type) :=
| Returned (r : R)
| Thrown (e : JsError.t)
| Running.
Arguments Returned {R} r.
Arguments Thrown {R} e.
Arguments Running {R}.

Definition outcome {R} (s : State R) : Outcome R :=
  match main s with
  | Return r => Returned r
  | Throw e => Thrown e
  | _ => Running
  end.

Definition quiescent {R} (s : State R) : Prop := in_flight s = [].

(** ** [services/dataService.ts] *)

Local Open Scope async_scope.

Definition upper_ascii (c : ascii) : ascii :=
  let n := N_of_ascii c in
  if ((97 <=? n) && (n <=? 122))%N then ascii_of_N (n - 32) else c.

(** [String.prototype.toUpperCase], on ASCII text. *)
Fixpoint toUpperCase (s : string) : string :=
  match s with
  | EmptyString => EmptyString
  | String c s => String (upper_ascii c) (toUpperCase s)
  end.

(** The text of [`${prefix.toUpperCase()}-${now}`]. *)
Definition transaction_ref_at (prefix : string) (now : N) : string :=
  toUpperCase prefix +:+ "-" +:+ pretty now.

Definition generateTransactionRef (prefix : string) : Async string :=
  let* now := Date_now in
  Return (transaction_ref_at prefix now).

(** [`${user.firstName} ${user.lastName}`] *)
Definition full_name (user : User.t) : string :=
  User.firstName user +:+ " " +:+ User.lastName user.

Definition addStockMovement (movement : StockMovement.t) : Async Response.t :=
  await (StockMovementsInsert movement).

(** The movement object literal of the source; [id] and [created_at] are the
    store's to fill. *)
Definition movement (product_id product_name user_id user_name : string)
    (change_type : ChangeType)
    (quantity_change old_stock_level new_stock_level : Z)
    (transaction_ref : string) : StockMovement.t :=
  {| StockMovement.id := ""; StockMovement.created_at := 0%N;
     StockMovement.product_id := product_id;
     StockMovement.product_name := product_name;
     StockMovement.user_id := user_id;
     StockMovement.user_name := user_name;
     StockMovement.change_type := change_type;
     StockMovement.quantity_change := quantity_change;
     StockMovement.old_stock_level := old_stock_level;
     StockMovement.new_stock_level := new_stock_level;
     StockMovement.transaction_ref := transaction_ref |}.

Definition addProduct (product : Product.t) (user : User.t)
  : Async Response.t :=
  let* res := await (ProductsInsertSelectSingle product) in
  let* _ :=
    match Response.data res, Response.error res with
    | Some data, None =>
        let* ref := generateTransactionRef "CRE" in
        let* _ := addStockMovement
          (movement (Product.id data) (Product.name data)
             (User.id user) (full_name user)
             initial (Product.stock data) 0 (Product.stock data) ref) in
        Return tt
    | _, _ => Return tt
    end in
  Return res.

Definition updateProduct (product : Product.t) (user : User.t)
  : Async Response.t :=
  let* fetched := await (ProductsSelectStockById (Product.id product)) in
  match Response.error fetched with
  | Some fetchError => Return (Response.failed fetchError)
  | None =>
      match Response.data fetched with
      | None => Throw TypeError
      | Some originalProduct =>
          let oldStock := Product.stock originalProduct in
          let quantityChange :=
            Double.sub (Product.stock product) oldStock in
          let* now := Date_now in
          let* res := await (ProductsUpdateSelectSingle (Product.id product)
                               (Product.with_updated_at now product)) in
          let* _ :=
            match Response.data res, Response.error res with
            | Some data, None =>
                if quantityChange =? 0 then Return tt
                else
                  let* ref := generateTransactionRef "MAJ" in
                  let* _ := addStockMovement
                    (movement (Product.id data) (Product.name data)
                       (User.id user) (full_name user)
                       update quantityChange oldStock (Product.stock data)
                       ref) in
                  Return tt
            | _, _ => Return tt
            end in
          Return res
      end
  end.

Definition updateSubmissionStatus (submissionId : string)
    (status : SubmissionStatus) : Async Response.t :=
  await (SubmissionsUpdateStatus submissionId status).

Definition addSubmission (s : InventorySubmission.t) : Async Response.t :=
  await (SubmissionsInsert s).

(** The chain [approveSubmission] starts for one item: read the stock,
    write the count, log the movement.  The three stages are named so that a
    chain in flight can be told by its stage. *)
Definition approve_item_log (transaction_ref : string) (adminUser : User.t)
    (item : InventoryItem.t) (oldStock : Z) : Chain :=
  let newStock := InventoryItem.quantity item in
  let quantityChange := Double.sub newStock oldStock in
  Then (StockMovementsInsert
          (movement (InventoryItem.productId item) (InventoryItem.name item)
             (User.id adminUser) (full_name adminUser +:+ " (Approbation)")
             submission quantityChange oldStock newStock transaction_ref))
       (fun _ => Fulfilled).

Definition approve_item_write (transaction_ref : string) (adminUser : User.t)
    (item : InventoryItem.t) (oldStock : Z) : Chain :=
  let newStock := InventoryItem.quantity item in
  Then (ProductsUpdateStock (InventoryItem.productId item) newStock)
    (fun updateRes =>
       match Response.error updateRes with
       | Some e => Broken e
       | None => approve_item_log transaction_ref adminUser item oldStock
       end).

Definition approve_item (transaction_ref : string) (adminUser : User.t)
    (item : InventoryItem.t) : Chain :=
  Then (ProductsSelectStockById (InventoryItem.productId item)) (fun res =>
    match Response.error res with
    | Some e => Broken e
    | None =>
        match Response.data res with
        | None => Broken TypeError
        | Some data =>
            approve_item_write transaction_ref adminUser item
              (Product.stock data)
        end
    end).

(** [items.map(item => chain)]: the chains are started in item order. *)
Fixpoint push_all (cs : list Chain) : Async unit :=
  match cs with
  | [] => Return tt
  | c :: cs => let* _ := push c in push_all cs
  end.

Definition approval_failed : string :=
  "Une erreur est survenue lors de la mise à jour des stocks. La soumission a été remise en attente.".

Definition approveSubmission (s : InventorySubmission.t) (adminUser : User.t)
  : Async (option JsError.t) :=
  let* res := updateSubmissionStatus (InventorySubmission.id s) approved in
  match Response.error res with
  | Some statusError => Return (Some statusError)
  | None =>
      let* transaction_ref := generateTransactionRef "INV" in
      let* _ := push_all (map (approve_item transaction_ref adminUser)
                              (InventorySubmission.items s)) in
      try_catch
        (let* _ := await_Promise_all in Return None)
        (fun error =>
           let* _ := client (ConsoleError
             "Error during transaction for submission approval:") in
           let* _ := updateSubmissionStatus (InventorySubmission.id s) pending in
           Return (Some (JsError.spread_over approval_failed error)))
  end.

Definition depotRecordConsumption (product : Product.t) (quantity : Z)
    (user : User.t) : Async (option JsError.t) :=
  try_catch
    (let oldStock := Product.stock product in
     let newStock := Double.sub oldStock quantity in
     if newStock <? 0 then
       Throw (JsError.new
         "La quantité consommée ne peut pas dépasser le stock disponible.")
     else
       let* res := await (ProductsUpdateStock (Product.id product) newStock) in
       match Response.error res with
       | Some updateError => Throw updateError
       | None =>
           let* ref := generateTransactionRef "CON" in
           let* _ := addStockMovement
             (movement (Product.id product) (Product.name product)
                (User.id user) (full_name user)
                consumption (- quantity) oldStock newStock ref) in
           Return None
       end)
    (fun error =>
       let* _ := client (ConsoleError "Error recording consumption:") in
       Return (Some error)).

(** ['admin_entry' | 'admin_exit'] *)
Inductive MovementType := movement_admin_entry | movement_admin_exit.

Definition change_type_of (t : MovementType) : ChangeType :=
  match t with
  | movement_admin_entry => admin_entry
  | movement_admin_exit => admin_exit
  end.

Definition adminCreateMovement (productId : string) (quantity : Z)
    (movementType : MovementType) (adminUser : User.t)
  : Async (option JsError.t) :=
  try_catch
    (let* fetched := await (ProductsSelectById productId) in
     match Response.error fetched, Response.data fetched with
     | None, Some product =>
         let oldStock := Product.stock product in
         let quantityChange :=
           match movementType with
           | movement_admin_entry => quantity
           | movement_admin_exit => - quantity
           end in
         let newStock := Double.add oldStock quantityChange in
         if newStock <? 0 then
           Throw (JsError.new "Le stock ne peut pas être négatif.")
         else
           let* res := await (ProductsUpdateStock productId newStock) in
           match Response.error res with
           | Some updateError => Throw updateError
           | None =>
               let refPrefix :=
                 match movementType with
                 | movement_admin_entry => "ENT"
                 | movement_admin_exit => "SOR"
                 end in
               let* ref := generateTransactionRef refPrefix in
               let* _ := addStockMovement
                 (movement (Product.id product) (Product.name product)
                    (User.id adminUser) (full_name adminUser)
                    (change_type_of movementType)
                    quantityChange oldStock newStock ref) in
               Return None
           end
     | _, _ => Throw (JsError.new "Produit introuvable.")
     end)
    (fun error =>
       let* _ := client (ConsoleError "Error creating admin movement:") in
       Return (Some error)).

(** [for (const item of inventory) { body }]; [continue] is the body's
    early [Return]. *)
Fixpoint for_of {A} (l : list A) (body : A -> Async unit) : Async unit :=
  match l with
  | [] => Return tt
  | x :: l => let* _ := body x in for_of l body
  end.

Definition is_PGRST116 (e : JsError.t) : bool :=
  match JsError.code e with
  | Some c => String.eqb c "PGRST116"
  | None => false
  end.

(** The object inserted for a product the depot does not hold yet: the
    master product's attributes, with the depot as location.  The image and
    safety-sheet columns are not part of the insert. *)
Definition depot_copy (product : Product.t) (depotName : string)
    (newStock : Z) : Product.t :=
  {| Product.id := ""; Product.created_at := 0%N; Product.updated_at := 0%N;
     Product.name := Product.name product;
     Product.code := Product.code product;
     Product.cas := Product.cas product;
     Product.formula := Product.formula product;
     Product.location := depotName;
     Product.stock := newStock;
     Product.unit := Product.unit product;
     Product.alertThreshold := Product.alertThreshold product;
     Product.imageUrl := None; Product.safetySheetUrl := None;
     Product.ghsPictograms := Product.ghsPictograms product;
     Product.expiryDate := Product.expiryDate product |}.

(** The chain started for a product found at the depot. *)
Definition recount_existing (transaction_ref : string) (adminUser : User.t)
    (existingProduct : Product.t) (newStock : Z) : Chain :=
  let oldStock := Product.stock existingProduct in
  Then (ProductsUpdateStock (Product.id existingProduct) newStock) (fun _ =>
    Then (StockMovementsInsert
            (movement (Product.id existingProduct)
               (Product.name existingProduct)
               (User.id adminUser) (full_name adminUser)
               inventory_count (Double.sub newStock oldStock) oldStock
               newStock transaction_ref))
         (fun _ => Fulfilled)).

(** The chain started for a product the depot does not hold. *)
Definition create_at_depot (transaction_ref : string) (adminUser : User.t)
    (product : Product.t) (depotName : string) (newStock : Z) : Chain :=
  Then (ProductsInsertSelectSingle (depot_copy product depotName newStock))
    (fun res =>
       match Response.error res, Response.data res with
       | Some error, _ => Broken error
       | None, None => Broken (JsError.new "Failed to create product")
       | None, Some data =>
           Then (StockMovementsInsert
                   (movement (Product.id data) (Product.name data)
                      (User.id adminUser) (full_name adminUser)
                      initial newStock 0 newStock transaction_ref))
                (fun _ => Fulfilled)
       end).

Definition setDepotInventory (depotName : string)
    (inventory : list (Product.t * Z)) (adminUser : User.t)
  : Async (option JsError.t) :=
  let* transaction_ref := generateTransactionRef "INV" in
  let* _ := for_of inventory (fun item =>
    let '(product, newStock) := item in
    let* found := await (ProductsSelectByCodeLocation
                           (Product.code product) depotName) in
    if match Response.error found with
       | Some findError => negb (is_PGRST116 findError)
       | None => false
       end
    then
      client (ConsoleError "Error finding existing product for inventory set:")
    else
      match Response.data found with
      | Some existingProduct =>
          if Product.stock existingProduct =? newStock then Return tt
          else push (recount_existing transaction_ref adminUser
                       existingProduct newStock)
      | None =>
          if 0 <? newStock then
            push (create_at_depot transaction_ref adminUser
                    product depotName newStock)
          else Return tt
      end) in
  try_catch
    (let* _ := await_Promise_all in Return None)
    (fun error =>
       let* _ := client (ConsoleError
         "Error during batch inventory update:") in
       Return (Some error)).

(** ** [services/chatService.ts] *)

Definition sendMessage (sender_id sender_name conversation_id content : string)
  : Async (option JsError.t) :=
  let* res := await (ChatMessagesInsert
    {| ChatMessage.id := ""; ChatMessage.created_at := 0%N;
       ChatMessage.sender_id := sender_id;
       ChatMessage.sender_name := sender_name;
       ChatMessage.conversation_id := conversation_id;
       ChatMessage.content := content |}) in
  Return (Response.error res).

(** ** The depot dashboard's submit handler *)

(** [email.split('@')[0]] *)
Fixpoint before_at (s : string) : string :=
  match s with
  | EmptyString => EmptyString
  | String c s => if Ascii.eqb c "@" then EmptyString else String c (before_at s)
  end.

Definition handleSubmitInventory (currentUser : User.t)
    (stagedItems : list InventoryItem.t) : Async unit :=
  let depotId := before_at (User.email currentUser) in
  if (length stagedItems =? 0)%nat then
    client (AddNotification "Veuillez ajouter au moins un article." toast_error)
  else
    let* _ := client (CsvDownload stagedItems) in
    let* res := addSubmission
      {| InventorySubmission.id := ""; InventorySubmission.created_at := 0%N;
         InventorySubmission.depotId := depotId;
         InventorySubmission.depotName := User.service currentUser;
         InventorySubmission.items := stagedItems;
         InventorySubmission.status := pending |} in
    match Response.error res with
    | Some _ =>
        client (AddNotification
          "La soumission de l'inventaire a échoué. Le fichier CSV a quand même été téléchargé."
          toast_error)
    | None =>
        let conversationId := "depot_" +:+ depotId in
        let* _ := sendMessage (User.email currentUser)
          (User.firstName currentUser) conversationId
          ("Nouvelle soumission d'inventaire avec "
           +:+ pretty (length stagedItems)
           +:+ " article(s) prête pour validation.") in
        let* _ := client (AddNotification
          "Inventaire soumis avec succès pour validation. Votre fichier CSV a été téléchargé."
          toast_success) in
        client (SetStagedItems [])
    end.

(** * The pages that call the service *)

(** ** The depot dashboard: staging an inventory ([InventoryTab]) *)

Module InventoryTab.

(** The state the tab works on: [quantities], its own, and [stagedItems],
    its parent's. *)
Record t := {
  quantities : gmap string Z;
  stagedItems : list InventoryItem.t }.

Definition initial : t := {| quantities := ∅; stagedItems := [] |}.

Section Handlers.
(** [parseInt(value, 10)]; [None] is [NaN]. *)
Variable parseInt : string -> option Z.

Definition handleQuantityChange (productId value : string) (s : t) : t :=
  let num := parseInt value in
  {| quantities :=
       <[productId := match num with
                      | None => 0
                      | Some num => if num <? 0 then 0 else num
                      end]> (quantities s);
     stagedItems := stagedItems s |}.

Definition handleStageItem (product : Product.t) (s : t) : t :=
  let quantity := default 0 (quantities s !! Product.id product) in
  if (0 <? quantity)
     && negb (existsb (fun item => String.eqb (InventoryItem.productId item)
                                     (Product.id product))
                (stagedItems s))
  then
    {| stagedItems :=
         stagedItems s
         ++ [{| InventoryItem.productId := Product.id product;
                InventoryItem.name := Product.name product;
                InventoryItem.quantity := quantity |}];
       quantities := <[Product.id product := 0]> (quantities s) |}
  else s.

Definition handleUnstageItem (productId : string) (s : t) : t :=
  {| quantities := quantities s;
     stagedItems :=
       filter (fun item => negb (String.eqb (InventoryItem.productId item)
                                   productId))
         (stagedItems s) |}.

(** What the user does on the tab; [Submitted] is the [setStagedItems([])]
    of a submission that went through. *)
Inductive Action :=
| QuantityChange (productId value : string)
| StageItem (product : Product.t)
| UnstageItem (productId : string)
| Submitted.

Definition handle (s : t) (a : Action) : t :=
  match a with
  | QuantityChange productId value => handleQuantityChange productId value s
  | StageItem product => handleStageItem product s
  | UnstageItem productId => handleUnstageItem productId s
  | Submitted => {| quantities := quantities s; stagedItems := [] |}
  end.
End Handlers.

End InventoryTab.

(** ** The depot dashboard: recording a consumption ([StockExitTab]) *)

Module StockExitTab.

(** [handleConsumption]; [confirmed] is the user's answer to
    [window.confirm], and the result is the tab's [quantities] after the
    call. *)
Definition handleConsumption (confirmed : bool) (currentUser : User.t)
    (quantities : gmap string Z) (product : Product.t)
  : Async (gmap string Z) :=
  let invalid :=
    let* _ := client (AddNotification
      "Veuillez entrer une quantité valide." toast_error) in
    Return quantities in
  match quantities !! Product.id product with
  | None => invalid
  | Some quantity =>
      if (quantity =? 0) || (quantity <=? 0) then invalid
      else if Product.stock product <? quantity then
        let* _ := client (AddNotification
          "La quantité de sortie dépasse le stock disponible."
          toast_error) in
        Return quantities
      else if confirmed then
        let* error := depotRecordConsumption product quantity currentUser in
        match error with
        | Some error =>
            let* _ := client (AddNotification
              ("Erreur: " +:+ JsError.message error) toast_error) in
            Return quantities
        | None =>
            let* _ := client (AddNotification
              "Sortie de stock enregistrée avec succès." toast_success) in
            Return (<[Product.id product := 0]> quantities)
        end
      else Return quantities
  end.

End StockExitTab.

(** ** The movement history page ([MovementHistory]): pages of 25 rows *)

Module MovementHistory.

Definition ITEMS_PER_PAGE : Z := 25.

(** [Array.prototype.slice(start, end)]: a negative index counts from the
    end, and both are clamped to the array. *)
Definition slice {A} (start finish : Z) (l : list A) : list A :=
  let len := Z.of_nat (length l) in
  let k := if start <? 0 then Z.max (len + start) 0 else Z.min start len in
  let final :=
    if finish <? 0 then Z.max (len + finish) 0 else Z.min finish len in
  take (Z.to_nat (Z.max (final - k) 0)) (drop (Z.to_nat k) l).

(** [Math.ceil(filteredMovements.length / ITEMS_PER_PAGE)] *)
Definition totalPages {A} (filteredMovements : list A) : Z :=
  - ((- Z.of_nat (length filteredMovements)) / ITEMS_PER_PAGE).

Definition paginatedMovements {A} (filteredMovements : list A)
    (currentPage : Z) : list A :=
  slice ((currentPage - 1) * ITEMS_PER_PAGE) (currentPage * ITEMS_PER_PAGE)
    filteredMovements.

(** The two page buttons; a disabled button does nothing. *)
Inductive Click := Previous | Next.

Definition click {A} (filteredMovements : list A) (currentPage : Z)
    (c : Click) : Z :=
  match c with
  | Previous =>
      if currentPage =? 1 then currentPage
      else Z.max 1 (currentPage - 1)
  | Next =>
      if (currentPage =? totalPages filteredMovements)
         || (totalPages filteredMovements =? 0)
      then currentPage
      else Z.min (totalPages filteredMovements) (currentPage + 1)
  end.

End MovementHistory.

(** ** The dashboard: rejecting a submission ([Dashboard]) *)

Module Dashboard.

(** [handleReject]; [confirmed] is the user's answer to [window.confirm],
    [submissions] the list the page holds, and the result is that list
    after the call. *)
Definition handleReject (confirmed : bool)
    (submissions : list InventorySubmission.t)
    (submission : InventorySubmission.t)
  : Async (list InventorySubmission.t) :=
  if confirmed then
    let* res := updateSubmissionStatus (InventorySubmission.id submission)
                  rejected in
    match Response.error res with
    | Some error =>
        let* _ := client (AddNotification
          ("Erreur lors du rejet : " +:+ JsError.message error)
          toast_error) in
        Return submissions
    | None =>
        let* _ := client (AddNotification
          ("La soumission de " +:+ InventorySubmission.depotName submission
           +:+ " a été rejetée.") toast_info) in
        Return (map (fun s =>
                       if String.eqb (InventorySubmission.id s)
                            (InventorySubmission.id submission)
                       then InventorySubmission.with_status rejected s
                       else s)
                  submissions)
    end
  else Return submissions.

End Dashboard.

(** ** The admin's depot stock page ([DepotStockManager]) *)

Module Depot.
Record t := { id : string; name : string; color : string; active : bool }.
End Depot.

Module DepotStockManager.

Record InventoryRow := {
  product : Product.t;
  currentStock : Z;
  newStock : string }.

(** [new Map(entries)], as the list of its entries in insertion order:
    setting a key the map has keeps the key's place and replaces its
    value. *)
Definition Map_set {V} (m : list (string * V)) (entry : string * V)
  : list (string * V) :=
  if existsb (fun kv => String.eqb kv.1 entry.1) m
  then map (fun kv => if String.eqb kv.1 entry.1 then entry else kv) m
  else m ++ [entry].

Definition Map_new {V} (entries : list (string * V)) : list (string * V) :=
  foldl Map_set [] entries.

Definition Map_values {V} (m : list (string * V)) : list V := map snd m.

Section Page.
(** [Array.prototype.sort] with [a.name.localeCompare(b.name)]: an ordering
    of the array that depends on the locale. *)
Variable sort_by_name : list Product.t -> list Product.t.
(** [Number(text)]; [None] is [NaN]. *)
Variable Number : string -> option Z.

(** The rows the effect computes for the selected depot. *)
Definition rows_of (selectedDepot : Depot.t) (allProducts : list Product.t)
  : list InventoryRow :=
  let uniqueProducts :=
    sort_by_name
      (Map_values (Map_new (map (fun p => (Product.code p, p)) allProducts)))
  in
  map (fun masterProduct =>
         let productInDepot :=
           find (fun p => String.eqb (Product.code p)
                            (Product.code masterProduct)
                          && String.eqb (Product.location p)
                               (Depot.name selectedDepot))
             allProducts in
         let currentStock :=
           match productInDepot with
           | Some p => Product.stock p
           | None => 0
           end in
         {| product := masterProduct; currentStock := currentStock;
            newStock := pretty currentStock |})
    uniqueProducts.

(** The effect on [selectedDepotId], [allProducts] and [depots]. *)
Definition inventoryRows_effect (selectedDepotId : string)
    (depots : list Depot.t) (allProducts : list Product.t)
    (inventoryRows : list InventoryRow) : list InventoryRow :=
  if String.eqb selectedDepotId EmptyString then []
  else
    match find (fun d => String.eqb (Depot.id d) selectedDepotId) depots with
    | None => inventoryRows
    | Some selectedDepot => rows_of selectedDepot allProducts
    end.

Definition handleStockChange (inventoryRows : list InventoryRow)
    (change : string * string) : list InventoryRow :=
  let '(productCode, value) := change in
  map (fun row =>
         if String.eqb (Product.code (product row)) productCode
         then {| product := product row; currentStock := currentStock row;
                 newStock := value |}
         else row)
    inventoryRows.

(** [itemsToUpdate] of [handleSubmit]: the rows whose text is not the
    current stock, read as numbers, less those that are no number or are
    negative. *)
Definition itemsToUpdate (inventoryRows : list InventoryRow)
  : list (Product.t * Z) :=
  omap (fun item : Product.t * option Z =>
          match item.2 with
          | Some newStock =>
              if 0 <=? newStock then Some (item.1, newStock) else None
          | None => None
          end)
    (map (fun row => (product row, Number (newStock row)))
       (filter (fun row => Number (newStock row) <> Some (currentStock row))
          inventoryRows)).

Definition handleSubmit (selectedDepotId : string) (depots : list Depot.t)
    (inventoryRows : list InventoryRow) (currentUser : User.t)
  : Async unit :=
  match find (fun d => String.eqb (Depot.id d) selectedDepotId) depots with
  | None =>
      client (AddNotification "Veuillez sélectionner un dépôt valide."
                toast_error)
  | Some selectedDepot =>
      let items := itemsToUpdate inventoryRows in
      if (length items =? 0)%nat then
        client (AddNotification "Aucun changement de stock n'a été détecté."
                  toast_info)
      else
        let* error := setDepotInventory (Depot.name selectedDepot) items
                        currentUser in
        match error with
        | Some error =>
            client (AddNotification
              ("Erreur lors de la mise à jour de l'inventaire: "
               +:+ JsError.message error) toast_error)
        | None =>
            client (AddNotification
              ("L'inventaire pour " +:+ Depot.name selectedDepot
               +:+ " a été mis à jour avec succès pour "
               +:+ pretty (length items) +:+ " produit(s).") toast_success)
        end
  end.
End Page.

End DepotStockManager.

(** * Vocabulary of the properties *)

(** ** Steps, bounds and requests *)

(** What one step does: nothing when no request is in flight, else it serves
    the request of the main function or of one chain. *)
Inductive step_of {R} (s : State R) : State R -> Prop :=
| step_idle :
    in_flight s = [] -> step_of s s
| step_main q k :
    main s = Await q k ->
    step_of s (let '(r, w) := serve MainThread q (world s) in
               settle (k r) (promises s) w)
| step_chain i q k :
    promises s !! i = Some (Then q k) ->
    step_of s (let '(r, w) := serve (PromiseAt i) q (world s) in
               settle (main s) (<[i := k r]> (promises s)) w).

Inductive chain_within : nat -> Chain -> Prop :=
| within_fulfilled n : chain_within n Fulfilled
| within_broken n e : chain_within n (Broken e)
| within_then n q k :
    (forall r, chain_within n (k r)) -> chain_within (S n) (Then q k).

Inductive async_within {R} : nat -> Async R -> Prop :=
| within_return n r : async_within n (Return r)
| within_throw n e : async_within n (Throw e)
| within_await n q k :
    (forall r, async_within n (k r)) -> async_within (S n) (Await q k)
| within_now n k :
    (forall t, async_within n (k t)) -> async_within n (DateNow k)
| within_push a b c k :
    chain_within a c -> async_within b k -> async_within (a + b) (Push c k)
| within_all n k :
    (forall o, async_within n (k o)) -> async_within n (AwaitAll k)
| within_client n e k :
    async_within n k -> async_within n (Client e k).

Definition state_within {R} (n : nat) (s : State R) : Prop :=
  exists a bs,
    async_within a (main s) /\ Forall2 chain_within bs (promises s)
    /\ (a + sum_list bs <= n)%nat.

(** The main function is at a suspension point. *)
Definition suspended {R} (s : State R) : Prop :=
  match main s with
  | Return _ | Throw _ | Await _ _ => True
  | AwaitAll _ => Promise_all (promises s) = None
  | _ => False
  end.

(** The responses the store can give to a request. *)
Definition answers (q : Request) (r : Response.t) : Prop :=
  (exists e, r = Response.failed e) \/ (exists w, r = (perform q w).1).

Inductive chain_asks (P : Request -> Prop) : Chain -> Prop :=
| asks_fulfilled : chain_asks P Fulfilled
| asks_broken e : chain_asks P (Broken e)
| asks_then q k :
    P q -> (forall r, answers q r -> chain_asks P (k r)) ->
    chain_asks P (Then q k).

Inductive async_asks {R} (P : Request -> Prop) : Async R -> Prop :=
| asks_return r : async_asks P (Return r)
| asks_throw e : async_asks P (Throw e)
| asks_await q k :
    P q -> (forall r, answers q r -> async_asks P (k r)) ->
    async_asks P (Await q k)
| asks_now k : (forall t, async_asks P (k t)) -> async_asks P (DateNow k)
| asks_push c k :
    chain_asks P c -> async_asks P k -> async_asks P (Push c k)
| asks_all k : (forall o, async_asks P (k o)) -> async_asks P (AwaitAll k)
| asks_client e k : async_asks P k -> async_asks P (Client e k).

Definition state_asks {R} (P : Request -> Prop) (s : State R) : Prop :=
  async_asks P (main s) /\ Forall (chain_asks P) (promises s).

(** ** The stock-mutating operations *)

Inductive Operation :=
| ProductCreate (product : Product.t) (user : User.t)
| ProductEdit (product : Product.t) (user : User.t)
| DepotConsumption (product : Product.t) (quantity : Z) (user : User.t)
| AdminMovement (productId : string) (quantity : Z)
    (movementType : MovementType) (adminUser : User.t)
| SubmissionApproval (s : InventorySubmission.t) (adminUser : User.t)
| BulkInventorySet (depotName : string) (inventory : list (Product.t * Z))
    (adminUser : User.t).

(** The call of an operation, keeping the [error] of what it returns. *)
Definition invoke (op : Operation) : Async (option JsError.t) :=
  match op with
  | ProductCreate product user =>
      let* r := addProduct product user in Return (Response.error r)
  | ProductEdit product user =>
      let* r := updateProduct product user in Return (Response.error r)
  | DepotConsumption product quantity user =>
      depotRecordConsumption product quantity user
  | AdminMovement productId quantity movementType adminUser =>
      adminCreateMovement productId quantity movementType adminUser
  | SubmissionApproval s adminUser => approveSubmission s adminUser
  | BulkInventorySet depotName inventory adminUser =>
      setDepotInventory depotName inventory adminUser
  end.

(** Round trips an operation can make. *)
Definition fuel_of (op : Operation) : nat :=
  match op with
  | ProductCreate _ _ => 2
  | ProductEdit _ _ => 3
  | DepotConsumption _ _ _ => 2
  | AdminMovement _ _ _ _ => 3
  | SubmissionApproval s _ => 2 + 3 * length (InventorySubmission.items s)
  | BulkInventorySet _ inventory _ => 3 * length inventory
  end.

Definition balanced (m : StockMovement.t) : Prop :=
  StockMovement.new_stock_level m
  = StockMovement.old_stock_level m + StockMovement.quantity_change m.

(** What the source computes of a row: the new level as the sum of the old
    level and the change, or the change as the difference of the levels, or
    a first level from 0. *)
Definition computed (m : StockMovement.t) : Prop :=
  StockMovement.new_stock_level m
  = Double.add (StockMovement.old_stock_level m)
      (StockMovement.quantity_change m)
  \/ StockMovement.quantity_change m
     = Double.sub (StockMovement.new_stock_level m)
         (StockMovement.old_stock_level m)
  \/ (StockMovement.old_stock_level m = 0
      /\ StockMovement.quantity_change m = StockMovement.new_stock_level m).

(** A row is balanced when its levels are moderate. *)
Definition balanced_if_moderate (m : StockMovement.t) : Prop :=
  Double.moderate (StockMovement.old_stock_level m) ->
  Double.moderate (StockMovement.new_stock_level m) ->
  balanced m.

(** The rows a program appends all satisfy what its ledger inserts do. *)
Definition inserts (Q : StockMovement.t -> Prop) (q : Request) : Prop :=
  forall m, q = StockMovementsInsert m -> Q m.

(** The ledger entries an operation can write. *)
Inductive ledger_entry : Operation -> StockMovement.t -> Prop :=
| entry_create product user data t :
    ledger_entry (ProductCreate product user)
      (movement (Product.id data) (Product.name data)
         (User.id user) (full_name user)
         initial (Product.stock data) 0 (Product.stock data)
         (transaction_ref_at "CRE" t))
| entry_edit product user data oldStock t :
    Product.stock data = Product.stock product ->
    Double.sub (Product.stock product) oldStock <> 0 ->
    ledger_entry (ProductEdit product user)
      (movement (Product.id data) (Product.name data)
         (User.id user) (full_name user)
         update (Double.sub (Product.stock product) oldStock) oldStock
         (Product.stock data) (transaction_ref_at "MAJ" t))
| entry_consumption product quantity user t :
    0 <= Double.sub (Product.stock product) quantity ->
    ledger_entry (DepotConsumption product quantity user)
      (movement (Product.id product) (Product.name product)
         (User.id user) (full_name user)
         consumption (- quantity) (Product.stock product)
         (Double.sub (Product.stock product) quantity)
         (transaction_ref_at "CON" t))
| entry_admin_entry productId quantity adminUser product t :
    0 <= Double.add (Product.stock product) quantity ->
    ledger_entry
      (AdminMovement productId quantity movement_admin_entry adminUser)
      (movement (Product.id product) (Product.name product)
         (User.id adminUser) (full_name adminUser)
         admin_entry quantity (Product.stock product)
         (Double.add (Product.stock product) quantity)
         (transaction_ref_at "ENT" t))
| entry_admin_exit productId quantity adminUser product t :
    0 <= Double.add (Product.stock product) (- quantity) ->
    ledger_entry
      (AdminMovement productId quantity movement_admin_exit adminUser)
      (movement (Product.id product) (Product.name product)
         (User.id adminUser) (full_name adminUser)
         admin_exit (- quantity) (Product.stock product)
         (Double.add (Product.stock product) (- quantity))
         (transaction_ref_at "SOR" t))
| entry_approval s adminUser item oldStock t :
    item ∈ InventorySubmission.items s ->
    ledger_entry (SubmissionApproval s adminUser)
      (movement (InventoryItem.productId item) (InventoryItem.name item)
         (User.id adminUser) (full_name adminUser +:+ " (Approbation)")
         submission (Double.sub (InventoryItem.quantity item) oldStock)
         oldStock (InventoryItem.quantity item) (transaction_ref_at "INV" t))
| entry_recount depotName inventory adminUser product newStock existing t :
    (product, newStock) ∈ inventory ->
    Product.stock existing <> newStock ->
    ledger_entry (BulkInventorySet depotName inventory adminUser)
      (movement (Product.id existing) (Product.name existing)
         (User.id adminUser) (full_name adminUser)
         inventory_count (Double.sub newStock (Product.stock existing))
         (Product.stock existing) newStock (transaction_ref_at "INV" t))
| entry_depot_create depotName inventory adminUser product newStock data t :
    (product, newStock) ∈ inventory ->
    0 < newStock ->
    Product.location data = depotName ->
    Product.stock data = newStock ->
    ledger_entry (BulkInventorySet depotName inventory adminUser)
      (movement (Product.id data) (Product.name data)
         (User.id adminUser) (full_name adminUser)
         initial newStock 0 newStock (transaction_ref_at "INV" t)).

(** The columns of a ledger row that the caller supplies. *)
Definition supplied (m : StockMovement.t) : StockMovement.t :=
  movement (StockMovement.product_id m) (StockMovement.product_name m)
    (StockMovement.user_id m) (StockMovement.user_name m)
    (StockMovement.change_type m) (StockMovement.quantity_change m)
    (StockMovement.old_stock_level m) (StockMovement.new_stock_level m)
    (StockMovement.transaction_ref m).

(** Such a function runs request after request; [Promise.all] of the empty
    array is fulfilled. *)
Fixpoint exec {R} (m : Async R) (w : World) : State R :=
  match m with
  | Await q k => let '(r, w') := serve MainThread q w in exec (k r) w'
  | DateNow k => exec (k (clock w)) w
  | Client e k => exec k (log (Did e) w)
  | AwaitAll k => exec (k None) w
  | _ => Build_State m [] w
  end.

Inductive sequential {R} : nat -> Async R -> Prop :=
| seq_return n r : sequential n (Return r)
| seq_throw n e : sequential n (Throw e)
| seq_await n q k :
    (forall r, answers q r -> sequential n (k r)) -> sequential (S n) (Await q k)
| seq_now n k : (forall t, sequential n (k t)) -> sequential n (DateNow k)
| seq_all n k : (forall o, sequential n (k o)) -> sequential n (AwaitAll k)
| seq_client n e k : sequential n k -> sequential n (Client e k).

(** [update({ stock }).eq('id', id)] on the table. *)
Definition stock_set (i : string) (s : Z) (ps : list Product.t)
  : list Product.t :=
  map (fun r => if id_is i r then Product.with_stock s r else r) ps.

(** The signed change of an admin movement. *)
Definition signed (movementType : MovementType) (quantity : Z) : Z :=
  match movementType with
  | movement_admin_entry => quantity
  | movement_admin_exit => - quantity
  end.

(** The [try { await Promise.all(updates) } catch { .. }] of
    [approveSubmission]. *)
Definition approval_join (s : InventorySubmission.t)
  : Async (option JsError.t) :=
  try_catch
    (let* _ := await_Promise_all in Return None)
    (fun error =>
       let* _ := client (ConsoleError
         "Error during transaction for submission approval:") in
       let* _ := updateSubmissionStatus (InventorySubmission.id s) pending in
       Return (Some (JsError.spread_over approval_failed error))).

(** What [approveSubmission] does once the status update has answered. *)
Definition approval_after_status (s : InventorySubmission.t)
    (adminUser : User.t) (res : Response.t) : Async (option JsError.t) :=
  match Response.error res with
  | Some statusError => Return (Some statusError)
  | None =>
      let* transaction_ref := generateTransactionRef "INV" in
      let* _ := push_all (map (approve_item transaction_ref adminUser)
                              (InventorySubmission.items s)) in
      approval_join s
  end.

(** The state in which the item chains run: the main function awaits
    [Promise.all], unless there is no item at all. *)
Definition approval_running (s : InventorySubmission.t) (adminUser : User.t)
    (w : World) : State (option JsError.t) :=
  settle (approval_join s)
    (map (approve_item (transaction_ref_at "INV" (clock w)) adminUser)
         (InventorySubmission.items s)) w.

(** The main function once [Promise.all] has rejected with [e]: the status
    is being set back. *)
Definition approval_compensation (s : InventorySubmission.t) (e : JsError.t)
  : Async (option JsError.t) :=
  Await (SubmissionsUpdateStatus (InventorySubmission.id s) pending)
        (fun _ => Return (Some (JsError.spread_over approval_failed e))).

(** The requests of the main function that the store has served. *)
Fixpoint main_requests (j : list Event) : list (Request * Response.t) :=
  match j with
  | [] => []
  | Served MainThread q r :: j => (q, r) :: main_requests j
  | _ :: j => main_requests j
  end.

(** What a request does to the products table. *)
Definition products_after (q : Request) (r : Response.t)
    (ps : list Product.t) : list Product.t :=
  match Response.error r, q with
  | None, ProductsUpdateStock i z => stock_set i z ps
  | None, ProductsUpdateSelectSingle i p =>
      map (fun x => if id_is i x then Product.overwritten p x else x) ps
  | None, ProductsInsertSelectSingle p =>
      match Response.data r with
      | Some d => ps ++ [d]
      | None => ps
      end
  | _, _ => ps
  end.

(** How far the chain of an item has got. *)
Inductive item_stage (ref : string) (adminUser : User.t)
    (item : InventoryItem.t) : Chain -> Prop :=
| stage_read : item_stage ref adminUser item (approve_item ref adminUser item)
| stage_write oldStock :
    item_stage ref adminUser item
      (approve_item_write ref adminUser item oldStock)
| stage_log oldStock :
    item_stage ref adminUser item (approve_item_log ref adminUser item oldStock)
| stage_done : item_stage ref adminUser item Fulfilled
| stage_broken e : item_stage ref adminUser item (Broken e).

(** The stock of the one row with the given id. *)
Definition stored_stock (ps : list Product.t) (i : string) : Z :=
  match filter (id_is i) ps with
  | [p] => Product.stock p
  | _ => 0
  end.

(** Every row with the given id holds the given stock. *)
Definition holds (i : string) (z : Z) (ps : list Product.t) : Prop :=
  forall p, p ∈ ps -> Product.id p = i -> Product.stock p = z.

(** The ledger row of an approved item whose product held [oldStock]. *)
Definition approval_row (transaction_ref : string) (adminUser : User.t)
    (item : InventoryItem.t) (oldStock : Z) : StockMovement.t :=
  movement (InventoryItem.productId item) (InventoryItem.name item)
    (User.id adminUser) (full_name adminUser +:+ " (Approbation)")
    submission (Double.sub (InventoryItem.quantity item) oldStock) oldStock
    (InventoryItem.quantity item) transaction_ref.

Definition served (n : Net.t) : Prop := Net.fault n = None.

Definition is_upper (c : ascii) : bool :=
  let n := N_of_ascii c in ((65 <=? n) && (n <=? 90))%N.

Definition is_digit (c : ascii) : bool :=
  let n := N_of_ascii c in ((48 <=? n) && (n <=? 57))%N.

Fixpoint all_digits (s : string) : bool :=
  match s with
  | EmptyString => true
  | String c s => is_digit c && all_digits s
  end.

(** Three upper-case letters, a dash, and a decimal number. *)
Definition well_formed_ref (s : string) : bool :=
  match s with
  | String a (String b (String c (String d rest))) =>
      is_upper a && is_upper b && is_upper c && Ascii.eqb d "-"
      && negb (String.eqb rest "") && all_digits rest
  | _ => false
  end.

(** The prefix each operation uses. *)
Definition ref_prefix (op : Operation) : string :=
  match op with
  | ProductCreate _ _ => "CRE"
  | ProductEdit _ _ => "MAJ"
  | DepotConsumption _ _ _ => "CON"
  | AdminMovement _ _ movement_admin_entry _ => "ENT"
  | AdminMovement _ _ movement_admin_exit _ => "SOR"
  | SubmissionApproval _ _ => "INV"
  | BulkInventorySet _ _ _ => "INV"
  end.

(** The clock after [k] round trips. *)
Fixpoint elapsed_total (ns : list Net.t) (k : nat) {struct k} : N :=
  match k, ns with
  | S k, n :: ns => (Net.elapsed n + elapsed_total ns k)%N
  | _, _ => 0%N
  end.

Definition clock_after (k : nat) (w : World) : N :=
  (clock w + elapsed_total (network w) k)%N.

(** Round trips an operation makes before it draws its reference. *)
Definition trips_before_ref (op : Operation) : nat :=
  match op with
  | ProductCreate _ _ => 1
  | ProductEdit _ _ => 2
  | DepotConsumption _ _ _ => 1
  | AdminMovement _ _ _ _ => 2
  | SubmissionApproval _ _ => 1
  | BulkInventorySet _ _ _ => 0
  end.

Definition has_ref (prefix : string) (t : N) (m : StockMovement.t) : Prop :=
  StockMovement.transaction_ref m = prefix +:+ "-" +:+ pretty t
  /\ well_formed_ref (StockMovement.transaction_ref m) = true.

(** [setDepotInventory] once it has drawn its reference. *)
Definition bulk_set_with (transaction_ref depotName : string)
    (inventory : list (Product.t * Z)) (adminUser : User.t)
  : Async (option JsError.t) :=
  let* _ := for_of inventory (fun item =>
    let '(product, newStock) := item in
    let* found := await (ProductsSelectByCodeLocation
                           (Product.code product) depotName) in
    if match Response.error found with
       | Some findError => negb (is_PGRST116 findError)
       | None => false
       end
    then
      client (ConsoleError "Error finding existing product for inventory set:")
    else
      match Response.data found with
      | Some existingProduct =>
          if Product.stock existingProduct =? newStock then Return tt
          else push (recount_existing transaction_ref adminUser
                       existingProduct newStock)
      | None =>
          if 0 <? newStock then
            push (create_at_depot transaction_ref adminUser
                    product depotName newStock)
          else Return tt
      end) in
  try_catch
    (let* _ := await_Promise_all in Return None)
    (fun error =>
       let* _ := client (ConsoleError
         "Error during batch inventory update:") in
       Return (Some error)).

(** The one ledger row of an edit. *)
Definition edit_row (product : Product.t) (oldStock : Z)
    (row : StockMovement.t) : Prop :=
  StockMovement.change_type row = update
  /\ StockMovement.old_stock_level row = oldStock
  /\ StockMovement.new_stock_level row = Product.stock product
  /\ StockMovement.quantity_change row
     = Double.sub (Product.stock product) oldStock
  /\ StockMovement.quantity_change row <> 0
  /\ exists t : N,
       StockMovement.transaction_ref row = "MAJ" +:+ "-" +:+ pretty t.

Definition nonneg_stock (w : World) : Prop :=
  Forall (fun p => 0 <= Product.stock p) (products w).

(** The requests that write a stock write a non-negative one. *)
Definition writes_nonneg (q : Request) : Prop :=
  match q with
  | ProductsInsertSelectSingle p => 0 <= Product.stock p
  | ProductsUpdateSelectSingle _ p => 0 <= Product.stock p
  | ProductsUpdateStock _ z => 0 <= z
  | _ => True
  end.

(** The stock values handed to an operation that writes them unchecked. *)
Definition supplied_nonneg (op : Operation) : Prop :=
  match op with
  | ProductCreate product _ => 0 <= Product.stock product
  | ProductEdit product _ => 0 <= Product.stock product
  | DepotConsumption _ _ _ => True
  | AdminMovement _ _ _ _ => True
  | SubmissionApproval s _ =>
      Forall (fun item => 0 <= InventoryItem.quantity item)
             (InventorySubmission.items s)
  | BulkInventorySet _ inventory _ =>
      Forall (fun item : Product.t * Z => 0 <= item.2) inventory
  end.

(** The claim as the specification has it fails on a product edit: the
    edit of a product to stock [-5] is accepted and persisted. *)
Definition every_accepted_call_keeps_stock_nonneg : Prop :=
  forall op w,
    nonneg_stock w ->
    let st := run (fuel_of op) (start (invoke op) w) in
    outcome st = Returned None -> nonneg_stock (world st).

(** The claim as the specification has it: every row an operation appends
    is balanced. *)
Definition every_ledger_row_balances : Prop :=
  forall op w n,
    exists rows,
      stock_movements (world (run n (start (invoke op) w)))
      = stock_movements w ++ rows
      /\ Forall balanced rows.

(** The stock reads and stock writes of item chains that came back with an
    error, each with the index of its chain. *)
Fixpoint item_failures (j : list Event) : list (nat * JsError.t) :=
  match j with
  | [] => []
  | Served (PromiseAt i) (ProductsSelectStockById _) r :: j
  | Served (PromiseAt i) (ProductsUpdateStock _ _) r :: j =>
      match Response.error r with
      | Some e => (i, e) :: item_failures j
      | None => item_failures j
      end
  | _ :: j => item_failures j
  end.

(** The chains whose stock write the store served. *)
Fixpoint item_writes (j : list Event) : list nat :=
  match j with
  | [] => []
  | Served (PromiseAt i) (ProductsUpdateStock _ _) r :: j =>
      match Response.error r with
      | Some _ => item_writes j
      | None => i :: item_writes j
      end
  | _ :: j => item_writes j
  end.

(** What the journal has gained since [w]. *)
Definition events_since (w : World) (w' : World) : list Event :=
  drop (length (journal w)) (journal w').

(** The claim as the specification has it: once the status is [approved],
    when any request of an item's chain comes back with an error, the
    approval returns an error and sets the status back to [pending]. *)
Definition any_item_failure_is_compensated : Prop :=
  forall s adminUser w,
    Net.fault (next_net w) = None ->
    let st := run (fuel_of (SubmissionApproval s adminUser))
                  (start (approveSubmission s adminUser) w) in
    (exists i q e,
        Served (PromiseAt i) q (Response.failed e)
        ∈ events_since w (world st)) ->
    exists e r,
      outcome st = Returned (Some e)
      /\ main_requests (journal (world st))
         = main_requests (journal w)
           ++ [(SubmissionsUpdateStatus (InventorySubmission.id s) approved,
                Response.ok);
               (SubmissionsUpdateStatus (InventorySubmission.id s) pending,
                r)].

(** ** Sample data *)

Definition admin_user : User.t :=
  {| User.id := "u-admin"; User.firstName := "Amel";
     User.lastName := "Gharbi"; User.email := "admin@labo.example";
     User.service := "Administration"; User.phone := "";
     User.role := Admin; User.status := Active |}.

Definition depot_user : User.t :=
  {| User.id := "u-12"; User.firstName := "Sami";
     User.lastName := "Trabelsi"; User.email := "12@depot.example";
     User.service := "Labo A"; User.phone := "";
     User.role := Depot; User.status := Active |}.

Definition P1 : Product.t :=
  {| Product.id := "P1"; Product.name := "Ethanol"; Product.code := "ETH-01";
     Product.cas := "64-17-5"; Product.formula := "C2H6O";
     Product.location := "Labo A"; Product.stock := 7; Product.unit := "L";
     Product.alertThreshold := 5; Product.imageUrl := None;
     Product.safetySheetUrl := None; Product.ghsPictograms := ["GHS02"];
     Product.created_at := 0%N; Product.updated_at := 0%N;
     Product.expiryDate := "2030-01-01" |}.

Definition P2 : Product.t :=
  {| Product.id := "P2"; Product.name := "Acetone"; Product.code := "ACE-01";
     Product.cas := "67-64-1"; Product.formula := "C3H6O";
     Product.location := "Labo A"; Product.stock := 4; Product.unit := "L";
     Product.alertThreshold := 2; Product.imageUrl := None;
     Product.safetySheetUrl := None; Product.ghsPictograms := ["GHS02"];
     Product.created_at := 0%N; Product.updated_at := 0%N;
     Product.expiryDate := "2030-01-01" |}.

Definition connection_lost : JsError.t :=
  {| JsError.message := "TypeError: Failed to fetch";
     JsError.code := None; JsError.is_Error := false |}.

Definition answered : Net.t :=
  {| Net.pick := 0; Net.fault := None; Net.elapsed := 40 |}.

Definition dropped : Net.t :=
  {| Net.pick := 0; Net.fault := Some connection_lost; Net.elapsed := 40 |}.

(** A round trip that serves the second of the requests in flight. *)
Definition answered_second : Net.t :=
  {| Net.pick := 1; Net.fault := None; Net.elapsed := 40 |}.

(** The status update, then for two chains: both reads, both writes, both
    ledger inserts. *)
Definition reads_then_writes : list Net.t :=
  [answered; answered; answered_second; answered; answered_second;
   answered; answered].

(** A second row for [P1]'s code at its depot. *)
Definition P1_again : Product.t := Product.stored "P3" 0%N P1.

(** A store holding [P1] and [P2], whose next round trips go as scripted. *)
Definition sample_store (script : list Net.t) : World :=
  {| products := [P1; P2]; stock_movements := [];
     inventory_submissions := []; chat_messages := [];
     clock := 1699999999999%N; network := script; journal := [] |}.

Definition item_of (p : Product.t) (quantity : Z) : InventoryItem.t :=
  {| InventoryItem.productId := Product.id p;
     InventoryItem.name := Product.name p;
     InventoryItem.quantity := quantity |}.

Definition sample_submission (items : list InventoryItem.t)
  : InventorySubmission.t :=
  {| InventorySubmission.id := "S1"; InventorySubmission.depotId := "12";
     InventorySubmission.depotName := "Labo A";
     InventorySubmission.items := items;
     InventorySubmission.status := pending;
     InventorySubmission.created_at := 0%N |}.

(** A store that holds the sample submission. *)
Definition submitted_store (items : list InventoryItem.t)
    (script : list Net.t) : World :=
  set_inventory_submissions [sample_submission items] (sample_store script).

(** The CSV exports and the chat messages among the events of a journal. *)
Fixpoint csv_downloads (j : list Event) : list (list InventoryItem.t) :=
  match j with
  | [] => []
  | Did (CsvDownload items) :: j => items :: csv_downloads j
  | _ :: j => csv_downloads j
  end.

Fixpoint chat_sends (j : list Event) : list ChatMessage.t :=
  match j with
  | [] => []
  | Served _ (ChatMessagesInsert m) _ :: j => m :: chat_sends j
  | _ :: j => chat_sends j
  end.

(** The events of a run, the journal being empty at its start. *)
Definition submit_events (currentUser : User.t)
    (stagedItems : list InventoryItem.t) (w : World) : list Event :=
  drop (length (journal w))
    (journal (world (run 2 (start (handleSubmitInventory currentUser
                                     stagedItems) w)))).

(** The claim as the specification has it: both side effects fire on
    every submission, whether or not the record is persisted. *)
Definition export_and_chat_always_fire : Prop :=
  forall currentUser stagedItems w,
    stagedItems <> [] ->
    csv_downloads (submit_events currentUser stagedItems w) <> []
    /\ chat_sends (submit_events currentUser stagedItems w) <> [].

(** The record [handleSubmitInventory] asks the store to persist. *)
Definition submitted (currentUser : User.t)
    (stagedItems : list InventoryItem.t) : InventorySubmission.t :=
  {| InventorySubmission.id := ""; InventorySubmission.created_at := 0%N;
     InventorySubmission.depotId := before_at (User.email currentUser);
     InventorySubmission.depotName := User.service currentUser;
     InventorySubmission.items := stagedItems;
     InventorySubmission.status := pending |}.

(** The body of the loop of [setDepotInventory]. *)
Definition bulk_body (transaction_ref depotName : string) (adminUser : User.t)
    (item : Product.t * Z) : Async unit :=
  let '(product, newStock) := item in
  let* found := await (ProductsSelectByCodeLocation
                         (Product.code product) depotName) in
  if match Response.error found with
     | Some findError => negb (is_PGRST116 findError)
     | None => false
     end
  then
    client (ConsoleError "Error finding existing product for inventory set:")
  else
    match Response.data found with
    | Some existingProduct =>
        if Product.stock existingProduct =? newStock then Return tt
        else push (recount_existing transaction_ref adminUser
                     existingProduct newStock)
    | None =>
        if 0 <? newStock then
          push (create_at_depot transaction_ref adminUser
                  product depotName newStock)
        else Return tt
    end.

(** The [try { await Promise.all(allPromises) } catch { .. }] at its end. *)
Definition bulk_join : Async (option JsError.t) :=
  try_catch
    (let* _ := await_Promise_all in Return None)
    (fun error =>
       let* _ := client (ConsoleError
         "Error during batch inventory update:") in
       Return (Some error)).

(** The loop over the pairs still to process, then the join. *)
Definition bulk_rest (transaction_ref depotName : string) (adminUser : User.t)
    (rest : list (Product.t * Z)) : Async (option JsError.t) :=
  let* _ := for_of rest (bulk_body transaction_ref depotName adminUser) in
  bulk_join.

(** What the loop body does with the answer to its lookup. *)
Definition lookup_skipped (found : Response.t) : bool :=
  match Response.error found with
  | Some findError => negb (is_PGRST116 findError)
  | None => false
  end.

Definition bulk_pushed (transaction_ref depotName : string)
    (adminUser : User.t) (item : Product.t * Z) (found : Response.t)
  : list Chain :=
  if lookup_skipped found then []
  else
    match Response.data found with
    | Some existingProduct =>
        if Product.stock existingProduct =? item.2 then []
        else [recount_existing transaction_ref adminUser existingProduct item.2]
    | None =>
        if 0 <? item.2 then
          [create_at_depot transaction_ref adminUser item.1 depotName item.2]
        else []
    end.

(** The rows of a ledger that are about the given product. *)
Definition about (i : string) (rows : list StockMovement.t)
  : list StockMovement.t :=
  filter (fun m => String.eqb (StockMovement.product_id m) i) (map supplied rows).

(** ** Bulk inventory set: pairs that need no write *)

(** The count of a pair is what the depot already holds: the one product
    with that code at the depot has that stock, or there is no such product
    and the count is not positive. *)
Definition count_unchanged (depotName : string) (ps : list Product.t)
    (item : Product.t * Z) : Prop :=
  match filter (at_depot (Product.code item.1) depotName) ps with
  | [x] => Product.stock x = item.2
  | _ => item.2 <= 0
  end.

(** The lookup [setDepotInventory] makes for a pair, with its answer. *)
Definition depot_lookup (depotName : string) (ps : list Product.t)
    (item : Product.t * Z) : Request * Response.t :=
  (ProductsSelectByCodeLocation (Product.code item.1) depotName,
   single (filter (at_depot (Product.code item.1) depotName) ps)).

(** A round trip that fails with an error other than "no single row". *)
Definition fails_otherwise (n : Net.t) : Prop :=
  exists e, Net.fault n = Some e /\ is_PGRST116 e = false.

(** ** What an operation leaves alone *)

(** The ids of the products an operation is given; a product created by
    the call, and the products a bulk set finds at the depot, are not among
    them. *)
Definition named_products (op : Operation) : list string :=
  match op with
  | ProductCreate _ _ => []
  | ProductEdit product _ => [Product.id product]
  | DepotConsumption product _ _ => [Product.id product]
  | AdminMovement productId _ _ _ => [productId]
  | SubmissionApproval s _ =>
      map InventoryItem.productId (InventorySubmission.items s)
  | BulkInventorySet _ _ _ => []
  end.

(** The rows of the table whose id is not in the list. *)
Definition other_products (ids : list string) (ps : list Product.t)
  : list Product.t :=
  filter (fun p => Product.id p ∉ ids) ps.

(** The requests that write to no product but those of the list. *)
Definition writes_within (ids : list string) (q : Request) : Prop :=
  match q with
  | ProductsInsertSelectSingle _ => False
  | ProductsUpdateSelectSingle i _ => i ∈ ids
  | ProductsUpdateStock i _ => i ∈ ids
  | _ => True
  end.

(** The requests that write to a product only a stock it holds. *)
Definition writes_held (ps : list Product.t) (q : Request) : Prop :=
  match q with
  | ProductsInsertSelectSingle _ => False
  | ProductsUpdateSelectSingle _ _ => False
  | ProductsUpdateStock i z => holds i z ps
  | _ => True
  end.

(** The requests a stock operation may make of the submissions and the
    chat: none, but for an approval the status of its submission, set to
    [approved] or back to [pending]. *)
Definition status_of_own (op : Operation) (q : Request) : Prop :=
  match q with
  | SubmissionsInsert _ => False
  | ChatMessagesInsert _ => False
  | SubmissionsUpdateStatus i st =>
      match op with
      | SubmissionApproval s _ =>
          i = InventorySubmission.id s /\ st <> rejected
      | _ => False
      end
  | _ => True
  end.

(** A submission as it was, or with the status of the approval's submission
    set to [approved] or [pending]. *)
Definition same_but_status (s : InventorySubmission.t)
    (x0 x : InventorySubmission.t) : Prop :=
  x = x0
  \/ (InventorySubmission.id x0 = InventorySubmission.id s
      /\ exists st, st <> rejected
                    /\ x = InventorySubmission.with_status st x0).

(** What such requests keep of the submissions and the chat: no row is
    added or removed, and only the rows of an approval's submission change,
    in their status. *)
Definition submissions_kept (op : Operation) (w0 w : World) : Prop :=
  chat_messages w = chat_messages w0
  /\ match op with
     | SubmissionApproval s _ =>
         Forall2 (same_but_status s)
           (inventory_submissions w0) (inventory_submissions w)
     | _ => inventory_submissions w = inventory_submissions w0
     end.

(** The ledger row of the recount of a product found at the depot. *)
Definition recount_row (transaction_ref : string) (adminUser : User.t)
    (existingProduct : Product.t) (newStock : Z) : StockMovement.t :=
  movement (Product.id existingProduct) (Product.name existingProduct)
    (User.id adminUser) (full_name adminUser) inventory_count
    (Double.sub newStock (Product.stock existingProduct))
    (Product.stock existingProduct) newStock transaction_ref.

(** * Properties *)


(** ** Rounding to the nearest double *)

Lemma round_abs_small a : a <= 2 ^ 53 -> Double.round_abs a = a.
Proof.
  intros Ha. unfold Double.round_abs.
  destruct (Z.ltb_spec a (2 ^ 53)) as [|Hge]; [done|].
  assert (a = 2 ^ 53) as -> by lia. reflexivity.
Qed.

Lemma round_abs_large a :
  2 ^ 53 <= a -> 2 ^ 53 <= Double.round_abs a.
Proof.
  intros Ha. unfold Double.round_abs.
  destruct (Z.ltb_spec a (2 ^ 53)) as [|_]; [lia|].
  assert (H53 : 53 <= Z.log2 a) by (apply (Z.log2_le_pow2 a 53); lia).
  destruct (Z.log2_spec a) as [Hlo Hhi]; [lia|].
  set (e := Z.log2 a) in *.
  set (ulp := 2 ^ (e - 52)).
  assert (Hulp : 0 < ulp) by (apply Z.pow_pos_nonneg; lia).
  assert (Hpow : 2 ^ e = 2 ^ 52 * ulp).
  { unfold ulp. rewrite <- Z.pow_add_r by lia. f_equal. lia. }
  assert (Hsig : 2 ^ 52 <= a / ulp).
  { apply Z.div_le_lower_bound; lia. }
  assert (Hfloor : 2 ^ 53 <= a / ulp * ulp).
  { assert (2 ^ 53 <= 2 ^ e) by (apply Z.pow_le_mono_r; lia). nia. }
  repeat case_match; nia.
Qed.

(** An integer of magnitude at most [2^53] is a double. *)
Lemma round_exact z : Z.abs z <= 2 ^ 53 -> Double.round z = z.
Proof.
  intros Hz. unfold Double.round. rewrite round_abs_small by done.
  destruct z; simpl; lia.
Qed.

Lemma round_large z : 2 ^ 53 <= Z.abs z -> 2 ^ 53 <= Z.abs (Double.round z).
Proof.
  intros Hz. unfold Double.round.
  pose proof (round_abs_large (Z.abs z) Hz).
  destruct z; simpl in *; lia.
Qed.

(** A result of magnitude below [2^53] was computed exactly. *)
Lemma round_safe z : Z.abs (Double.round z) < 2 ^ 53 -> Double.round z = z.
Proof.
  intros H. apply round_exact.
  destruct (Z.le_gt_cases (2 ^ 53) (Z.abs z)) as [Hge|]; [|lia].
  apply round_large in Hge. lia.
Qed.

(** Rounding keeps the sign. *)
Lemma round_sgn z : Z.sgn (Double.round z) = Z.sgn z.
Proof.
  destruct (Z.le_gt_cases (Z.abs z) (2 ^ 53)) as [?|Hgt].
  - by rewrite round_exact.
  - unfold Double.round.
    pose proof (round_abs_large (Z.abs z) ltac:(lia)).
    rewrite Z.sgn_mul, (Z.sgn_pos (Double.round_abs _)) by lia.
    destruct z; simpl; lia.
Qed.

Lemma round_neg z : Double.round z < 0 <-> z < 0.
Proof. pose proof (round_sgn z). lia. Qed.

Lemma round_zero z : Double.round z = 0 <-> z = 0.
Proof. pose proof (round_sgn z). lia. Qed.

(** [x - y < 0] exactly when [x < y], and [x - y === 0] exactly when
    [x === y]. *)
Lemma sub_neg x y : Double.sub x y < 0 <-> x < y.
Proof. unfold Double.sub. rewrite round_neg. lia. Qed.

Lemma sub_zero x y : Double.sub x y = 0 <-> x = y.
Proof. unfold Double.sub. rewrite round_zero. lia. Qed.

Lemma add_neg x y : Double.add x y < 0 <-> x + y < 0.
Proof. unfold Double.add. by rewrite round_neg. Qed.

Lemma sub_moderate x y :
  Double.moderate x -> Double.moderate y -> Double.sub x y = x - y.
Proof.
  unfold Double.moderate, Double.sub. intros Hx Hy. apply round_exact. lia.
Qed.

Lemma add_moderate x y :
  Double.moderate x -> Double.moderate y -> Double.add x y = x + y.
Proof.
  unfold Double.moderate, Double.add. intros Hx Hy. apply round_exact. lia.
Qed.

(** ** The scheduler *)

Lemma elem_of_waiting_chains t i ps :
  t ∈ waiting_chains i ps ->
  exists j q k, t = PromiseAt (i + j) /\ ps !! j = Some (Then q k).
Proof.
  revert i. induction ps as [|c ps IH]; intros i Ht; simpl in Ht.
  - inversion Ht.
  - apply elem_of_app in Ht as [Ht|Ht].
    + destruct c as [| |q k]; simpl in Ht; try (inversion Ht; fail).
      apply list_elem_of_singleton in Ht. exists 0%nat, q, k.
      rewrite Nat.add_0_r. auto.
    + apply IH in Ht as (j & q & k & -> & Hj).
      exists (S j), q, k. split; [f_equal; lia | done].
Qed.

Lemma waiting_chains_nil i ps :
  waiting_chains i ps = [] <-> Forall (fun c => chain_waits c = false) ps.
Proof.
  revert i. induction ps as [|c ps IH]; intros i; simpl.
  - split; auto.
  - split.
    + intros H. apply app_eq_nil in H as [H1 H2]. constructor.
      * destruct (chain_waits c); [discriminate | done].
      * by apply (IH (S i)).
    + intros H. inversion H as [|? ? Hc Hps]; subst. rewrite Hc. simpl.
      by apply IH.
Qed.

Lemma step_is_step_of {R} (s : State R) : step_of s (step s).
Proof.
  unfold step, choose.
  destruct (in_flight s) as [|t0 ts] eqn:Hfl.
  - simpl. by constructor.
  - set (n := (Net.pick (next_net (world s)) `mod` length (t0 :: ts))%nat).
    assert (Hn : (n < length (t0 :: ts))%nat)
      by (apply Nat.mod_upper_bound; simpl; lia).
    destruct (lookup_lt_is_Some_2 _ _ Hn) as [t Ht]. rewrite Ht.
    assert (Hin : t ∈ in_flight s)
      by (rewrite Hfl; eapply list_elem_of_lookup_2; eauto).
    unfold in_flight in Hin. apply elem_of_app in Hin as [Hin|Hin].
    + apply elem_of_waiting_chains in Hin as (j & q & k & -> & Hj).
      simpl. rewrite Hj. by apply step_chain.
    + destruct (main s) as [| |q k| | | |] eqn:Hm; simpl in Hin;
        try (inversion Hin; fail).
      apply list_elem_of_singleton in Hin as ->. by apply step_main.
Qed.

Lemma step_quiescent {R} (s : State R) : in_flight s = [] -> step s = s.
Proof. intros H. unfold step, choose. by rewrite H. Qed.

Lemma run_quiescent {R} n (s : State R) : in_flight s = [] -> run n s = s.
Proof.
  induction n as [|n IH]; intros H; simpl; [done|].
  rewrite (step_quiescent s H). by apply IH.
Qed.

(** An invariant of every step is an invariant of every run. *)
Lemma run_invariant {R} (I : State R -> Prop) :
  (forall s, I s -> I (step s)) ->
  forall n s, I s -> I (run n s).
Proof.
  intros Hstep n. induction n as [|n IH]; intros s Hs; simpl; auto.
Qed.

(** A function with no chain in the array and a pending request: the store
    serves that request. *)
Lemma step_sequential {R} (s : State R) q k :
  promises s = [] -> main s = Await q k ->
  step s = (let '(r, w) := serve MainThread q (world s) in settle (k r) [] w).
Proof.
  intros Hp Hm. unfold step, choose, in_flight. rewrite Hp, Hm.
  cbn [waiting_chains main_waits app length]. rewrite Nat.mod_1_r.
  reflexivity.
Qed.

(** ** Termination: a bound on the round trips still to come *)

Lemma chain_within_le a b c : chain_within a c -> (a <= b)%nat -> chain_within b c.
Proof.
  intros H. revert b. induction H as [| |n q k _ IH]; intros b Hb;
    try constructor.
  destruct b as [|b]; [lia|]. constructor. intros r. apply IH. lia.
Qed.

Lemma async_within_le {R} a b (m : Async R) :
  async_within a m -> (a <= b)%nat -> async_within b m.
Proof.
  intros H. revert b.
  induction H as [| |n q k _ IH|n k _ IH|a0 b0 c k Hc _ IH|n k _ IH|n e k _ IH];
    intros b Hb; try (constructor; auto; fail).
  - destruct b as [|b]; [lia|]. constructor. intros r. apply IH. lia.
  - replace b with (a0 + (b - a0))%nat by lia. constructor; [done|].
    apply IH. lia.
Qed.

Lemma bind_within {A B} a b (m : Async A) (f : A -> Async B) :
  async_within a m -> (forall x, async_within b (f x)) ->
  async_within (a + b) (bind m f).
Proof.
  intros H Hf.
  induction H as [| |n q k _ IH|n k _ IH|a0 b0 c k Hc _ IH|n k _ IH|n e k _ IH];
    simpl.
  - eapply async_within_le; [apply Hf | lia].
  - constructor.
  - constructor. auto.
  - constructor. auto.
  - rewrite <- Nat.add_assoc. constructor; auto.
  - constructor. auto.
  - constructor. auto.
Qed.

Lemma try_catch_within {A} a b (m : Async A) (h : JsError.t -> Async A) :
  async_within a m -> (forall e, async_within b (h e)) ->
  async_within (a + b) (try_catch m h).
Proof.
  intros H Hh.
  induction H as [| |n q k _ IH|n k _ IH|a0 b0 c k Hc _ IH|n k _ IH|n e k _ IH];
    simpl.
  - constructor.
  - eapply async_within_le; [apply Hh | lia].
  - constructor. auto.
  - constructor. auto.
  - rewrite <- Nat.add_assoc. constructor; auto.
  - constructor. auto.
  - constructor. auto.
Qed.

Lemma settle_suspended {R} (m : Async R) ps w : suspended (settle m ps w).
Proof.
  revert ps w. induction m as [| |q k IH|k IH|c k IH|k IH|e k IH];
    intros ps w; simpl; try done; auto.
  destruct (Promise_all ps) eqn:Hall; [apply IH|]. unfold suspended. simpl. done.
Qed.

Lemma step_suspended {R} (s : State R) : suspended s -> suspended (step s).
Proof.
  intros Hs. destruct (step_is_step_of s) as [H|q k H|i q k H]; [done| |].
  - destruct (serve _ _ _). apply settle_suspended.
  - destruct (serve _ _ _). apply settle_suspended.
Qed.

Lemma sum_list_app_one bs b : sum_list (bs ++ [b]) = (sum_list bs + b)%nat.
Proof. induction bs as [|x bs IH]; simpl; lia. Qed.

Lemma settle_within {R} n a bs (m : Async R) ps w :
  async_within a m -> Forall2 chain_within bs ps ->
  (a + sum_list bs <= n)%nat -> state_within n (settle m ps w).
Proof.
  intros H. revert bs ps w.
  induction H as [a r|a e|a q k Hk _|a k _ IH|a b c k Hc _ IH|a k Hk IH|a e k _ IH];
    intros bs ps w Hps Hn; simpl.
  - exists a, bs. repeat split; [constructor|done|done].
  - exists a, bs. repeat split; [constructor|done|done].
  - exists (S a), bs. repeat split; [by constructor|done|done].
  - eapply IH; eauto.
  - eapply (IH (bs ++ [a])).
    + apply Forall2_app; [done|]. by repeat constructor.
    + rewrite sum_list_app_one. lia.
  - destruct (Promise_all ps); [eapply IH; eauto|].
    exists a, bs. repeat split; [by constructor|done|done].
  - eapply IH; eauto.
Qed.

Lemma sum_list_insert bs i b b' :
  bs !! i = Some b -> (sum_list (<[i := b']> bs) + b = sum_list bs + b')%nat.
Proof.
  revert i. induction bs as [|x bs IH]; intros [|i] H; simpl in *;
    try discriminate.
  - injection H as ->. lia.
  - specialize (IH _ H). lia.
Qed.

Lemma step_within {R} n (s : State R) :
  state_within (S n) s -> in_flight s <> [] -> state_within n (step s).
Proof.
  intros (a & bs & Hm & Hps & Hn) Hfl.
  destruct (step_is_step_of s) as [H|q k H|i q k H]; [done| |].
  - rewrite H in Hm. inversion Hm as [| |a' ? ? Hk| | | |]; subst.
    destruct (serve _ _ _) as [r w]. eapply settle_within; eauto. simpl in Hn. lia.
  - destruct (Forall2_lookup_r _ _ _ _ _ Hps H) as (b & Hb & Hc).
    inversion Hc as [| |b' ? ? Hk]; subst.
    destruct (serve _ _ _) as [r w].
    eapply (settle_within _ _ (<[i := b']> bs)); eauto.
    + apply Forall2_insert; auto.
    + pose proof (sum_list_insert bs i (S b') b' Hb). lia.
Qed.

Lemma within_zero_quiescent {R} (s : State R) :
  state_within 0 s -> in_flight s = [].
Proof.
  intros (a & bs & Hm & Hps & Hn). unfold in_flight.
  assert (a = 0%nat) as -> by lia.
  assert (Hbs : sum_list bs = 0%nat) by lia.
  replace (main_waits (main s)) with false
    by (inversion Hm; reflexivity).
  rewrite app_nil_r. apply waiting_chains_nil.
  clear Hn Hm. induction Hps as [|b c bs ps Hc Hps IH]; constructor.
  - simpl in Hbs. inversion Hc; subst; first [done | lia].
  - apply IH. simpl in Hbs. lia.
Qed.

(** Enough fuel runs the function and its chains to the end. *)
Lemma run_reaches_quiescence {R} n (s : State R) :
  state_within n s -> in_flight (run n s) = [].
Proof.
  revert s. induction n as [|n IH]; intros s Hs; simpl.
  - by apply within_zero_quiescent.
  - destruct (in_flight s) as [|t ts] eqn:Hfl.
    + rewrite (step_quiescent s Hfl), (run_quiescent n s Hfl). done.
    + apply IH. apply step_within; [done|]. by rewrite Hfl.
Qed.

Lemma first_broken_None_unfulfilled ps :
  first_broken ps = None -> forallb is_fulfilled ps = false ->
  exists c, c ∈ ps /\ chain_waits c = true.
Proof.
  induction ps as [|c ps IH]; simpl; [discriminate|].
  destruct c as [|e|q k]; simpl; intros Hb Hf.
  - destruct (IH Hb Hf) as (c & Hc & Hw). exists c. split; [by right|done].
  - discriminate.
  - exists (Then q k). split; [by left|done].
Qed.

(** At quiescence the main function has returned or thrown. *)
Lemma quiescent_settled {R} (s : State R) :
  suspended s -> in_flight s = [] ->
  (exists r, main s = Return r) \/ (exists e, main s = Throw e).
Proof.
  unfold suspended, in_flight. intros Hs Hfl.
  apply app_eq_nil in Hfl as [Hcs Hm].
  destruct (main s) as [r|e|q k|k|c k|k|e k]; try done; eauto.
  unfold Promise_all in Hs.
  destruct (first_broken (promises s)) eqn:Hb; [discriminate|].
  destruct (forallb is_fulfilled (promises s)) eqn:Hf; [discriminate|].
  destruct (first_broken_None_unfulfilled _ Hb Hf) as (c & Hc & Hw).
  apply waiting_chains_nil in Hcs.
  rewrite Forall_forall in Hcs. apply Hcs in Hc. congruence.
Qed.

Lemma run_suspended {R} n (s : State R) : suspended s -> suspended (run n s).
Proof. apply run_invariant. apply step_suspended. Qed.

Lemma start_finishes {R} n (m : Async R) w :
  async_within n m ->
  let s := run n (start m w) in
  in_flight s = [] /\
  ((exists r, main s = Return r) \/ (exists e, main s = Throw e)).
Proof.
  intros Hm s.
  assert (Hq : in_flight s = []).
  { apply run_reaches_quiescence. eapply settle_within; eauto.
    simpl. lia. }
  split; [done|]. apply quiescent_settled; [|done].
  apply run_suspended, settle_suspended.
Qed.

(** ** What a program may ask of the store *)

Lemma serve_answers who q w : answers q (serve who q w).1.
Proof.
  unfold serve. destruct (Net.fault (next_net w)) as [e|].
  - left. by exists e.
  - right. exists (tick w). by destruct (perform q (tick w)).
Qed.

Lemma bind_asks {A B} P (m : Async A) (f : A -> Async B) :
  async_asks P m -> (forall x, async_asks P (f x)) -> async_asks P (bind m f).
Proof.
  intros H Hf. induction H; simpl; try (constructor; auto; fail). apply Hf.
Qed.

Lemma try_catch_asks {A} P (m : Async A) (h : JsError.t -> Async A) :
  async_asks P m -> (forall e, async_asks P (h e)) ->
  async_asks P (try_catch m h).
Proof.
  intros H Hh. induction H; simpl; try (constructor; auto; fail). apply Hh.
Qed.

Section Preservation.
Context {R : Type} (P : Request -> Prop) (I : World -> Prop).
Hypothesis serve_keeps :
  forall who q w, P q -> I w -> I (serve who q w).2.
Hypothesis effect_keeps : forall e w, I w -> I (log (Did e) w).

Lemma settle_keeps (m : Async R) ps w :
  async_asks P m -> Forall (chain_asks P) ps -> I w ->
  state_asks P (settle m ps w) /\ I (world (settle m ps w)).
Proof using effect_keeps.
  intros H. revert ps w.
  induction H as [| |q k Hq Hk _|k _ IH|c k Hc _ IH|k Hk IH|e k _ IH];
    intros ps w Hps Hw; simpl;
    try (split; [split|]; simpl; auto; constructor; auto; fail).
  - apply IH; auto.
  - apply IH; auto. apply Forall_app. split; [done|]. by repeat constructor.
  - destruct (Promise_all ps); [apply IH; auto|].
    split; [split|]; simpl; auto. by constructor.
  - apply IH; auto.
Qed.

Lemma step_keeps (s : State R) :
  state_asks P s -> I (world s) ->
  state_asks P (step s) /\ I (world (step s)).
Proof using serve_keeps effect_keeps.
  intros [Hm Hps] Hw.
  destruct (step_is_step_of s) as [H|q k H|i q k H]; [done| |].
  - rewrite H in Hm. inversion Hm as [| |? ? Hq Hk| | | |]; subst.
    pose proof (serve_answers MainThread q (world s)) as Ha.
    pose proof (serve_keeps MainThread q (world s) Hq Hw) as Hw'.
    destruct (serve _ _ _) as [r w]. apply settle_keeps; auto.
  - pose proof (Forall_lookup_1 _ _ _ _ Hps H) as Hc.
    inversion Hc as [| |? ? Hq Hk]; subst.
    pose proof (serve_answers (PromiseAt i) q (world s)) as Ha.
    pose proof (serve_keeps (PromiseAt i) q (world s) Hq Hw) as Hw'.
    destruct (serve _ _ _) as [r w]. apply settle_keeps; auto.
    apply Forall_insert; auto.
Qed.

Lemma run_keeps n (s : State R) :
  state_asks P s -> I (world s) ->
  state_asks P (run n s) /\ I (world (run n s)).
Proof using serve_keeps effect_keeps.
  revert s. induction n as [|n IH]; intros s Hs Hw; simpl; [done|].
  destruct (step_keeps s Hs Hw). by apply IH.
Qed.

Lemma start_keeps n (m : Async R) w :
  async_asks P m -> I w -> I (world (run n (start m w))).
Proof using serve_keeps effect_keeps.
  intros Hm Hw.
  destruct (settle_keeps m [] w Hm (Forall_nil_2 _) Hw) as [Hs Hw'].
  by apply run_keeps.
Qed.
End Preservation.

(** ** The ledger only grows *)

Lemma serve_ledger who q w :
  stock_movements (serve who q w).2 = stock_movements w
  \/ exists m u t,
       q = StockMovementsInsert m /\ Net.fault (next_net w) = None
       /\ stock_movements (serve who q w).2
          = stock_movements w ++ [StockMovement.stored u t m].
Proof.
  unfold serve. destruct (Net.fault (next_net w)); simpl; [by left|].
  destruct q; simpl; try (by left). right.
  eexists _, _, _. split; [reflexivity|]. split; [done|reflexivity].
Qed.

Section Appended.
Context {R : Type} (Q : StockMovement.t -> Prop).
Hypothesis Q_stored : forall u t m, Q m -> Q (StockMovement.stored u t m).

Lemma run_appends n (s : State R) base :
  state_asks (inserts Q) s ->
  (exists rows, stock_movements (world s) = base ++ rows /\ Forall Q rows) ->
  exists rows,
    stock_movements (world (run n s)) = base ++ rows /\ Forall Q rows.
Proof using Q_stored.
  intros Hs Hw.
  apply (run_keeps (inserts Q)
           (fun w => exists rows,
                stock_movements w = base ++ rows /\ Forall Q rows)); auto.
  clear Hs Hw. intros who q w Hq (rows & Hrows & HQ).
  destruct (serve_ledger who q w) as [->|(m & u & t & -> & _ & ->)]; eauto.
  exists (rows ++ [StockMovement.stored u t m]).
  rewrite Hrows, <- app_assoc. split; [done|].
  apply Forall_app. split; [done|]. repeat constructor.
  apply Q_stored. by apply Hq.
Qed.

Lemma start_appends n (m : Async R) w :
  async_asks (inserts Q) m ->
  exists rows,
    stock_movements (world (run n (start m w))) = stock_movements w ++ rows
    /\ Forall Q rows.
Proof using Q_stored.
  intros Hm. apply run_appends.
  - apply (settle_keeps (inserts Q) (fun _ => True)); auto.
  - assert (H : stock_movements (world (start m w)) = stock_movements w).
    { apply (settle_keeps (inserts Q)
               (fun w' => stock_movements w' = stock_movements w)); auto. }
    rewrite H. exists []. by rewrite app_nil_r.
Qed.
End Appended.
Lemma answers_update_select i p r d :
  answers (ProductsUpdateSelectSingle i p) r ->
  Response.data r = Some d -> Product.stock d = Product.stock p.
Proof.
  intros [[e ->]|[w ->]]; simpl; [discriminate|].
  set (ps := map _ (products w)).
  destruct (filter (id_is i) ps) as [|x [|y l]] eqn:Hf; simpl; try discriminate.
  intros [= <-].
  assert (Hx : x ∈ filter (id_is i) ps) by (rewrite Hf; left).
  apply list_elem_of_filter in Hx as [Hid Hx].
  subst ps. apply list_elem_of_fmap in Hx as (x0 & -> & _).
  destruct (id_is i x0) eqn:Hx0; [done|].
  rewrite Hx0 in Hid. done.
Qed.

Lemma answers_insert_select p r d :
  answers (ProductsInsertSelectSingle p) r ->
  Response.data r = Some d ->
  exists u t, d = Product.stored u t p.
Proof.
  intros [[e ->]|[w ->]]; simpl; [discriminate|]. intros [= <-]. eauto.
Qed.

Lemma chain_asks_weaken (P P' : Request -> Prop) c :
  (forall q, P q -> P' q) -> chain_asks P c -> chain_asks P' c.
Proof. intros H Hc. induction Hc; constructor; auto. Qed.

Lemma async_asks_weaken {R} (P P' : Request -> Prop) (m : Async R) :
  (forall q, P q -> P' q) -> async_asks P m -> async_asks P' m.
Proof.
  intros H Hm. induction Hm; constructor; eauto using chain_asks_weaken.
Qed.

Lemma for_of_asks {A} P (l : list A) body :
  (forall x, x ∈ l -> async_asks P (body x)) -> async_asks P (for_of l body).
Proof.
  induction l as [|x l IH]; intros H; simpl; [constructor|].
  apply bind_asks; [apply H; left|]. intros _. apply IH. intros y Hy.
  apply H. by right.
Qed.

Lemma push_all_asks P cs :
  Forall (chain_asks P) cs -> async_asks P (push_all cs).
Proof.
  induction 1 as [|c cs Hc _ IH]; simpl; constructor; auto.
Qed.

Ltac asks :=
  repeat first
    [ progress intros
    | match goal with
      | |- inserts _ _ =>
          let m := fresh "m" in
          first [ intros m [= <-] | intros m ?; discriminate ]
      | |- async_asks _ (match ?x with _ => _ end) => destruct x eqn:?
      | |- async_asks _ (if ?x then _ else _) => destruct x eqn:?
      | |- chain_asks _ (match ?x with _ => _ end) => destruct x eqn:?
      | |- async_asks _ (bind _ _) => apply bind_asks
      | |- async_asks _ (try_catch _ _) => apply try_catch_asks
      | |- async_asks _ _ => constructor
      | |- chain_asks _ _ => constructor
      end ].

Lemma invoke_entries op :
  async_asks (inserts (ledger_entry op)) (invoke op).
Proof.
  destruct op as [product user|product user|product quantity user
                 |productId quantity movementType adminUser
                 |s adminUser|depotName inventory adminUser]; simpl.
  - unfold addProduct, addStockMovement, generateTransactionRef, await,
      Date_now. simpl. asks. constructor.
  - unfold updateProduct, addStockMovement, generateTransactionRef, await,
      Date_now. simpl. asks.
    match goal with H : answers (ProductsUpdateSelectSingle _ _) _ |- _ =>
      eapply answers_update_select in H; [|eassumption] end.
    constructor; [done|]. by apply Z.eqb_neq.
  - unfold depotRecordConsumption, addStockMovement, generateTransactionRef,
      await, Date_now, client. simpl. asks. constructor. by apply Z.ltb_ge.
  - unfold adminCreateMovement, addStockMovement, generateTransactionRef,
      await, Date_now, client. simpl. asks.
    + destruct movementType; simpl; constructor; by apply Z.ltb_ge.
  - unfold approveSubmission, updateSubmissionStatus, generateTransactionRef,
      await, Date_now, await_Promise_all, client. simpl. asks.
    + apply push_all_asks. apply Forall_forall. intros c Hc.
      apply list_elem_of_fmap in Hc as (item & -> & Hitem).
      unfold approve_item, approve_item_write, approve_item_log. asks.
      by constructor.
  - unfold setDepotInventory, generateTransactionRef, await, Date_now,
      await_Promise_all, client, push. simpl. asks.
    apply for_of_asks. intros [product newStock] Hin. simpl. asks.
    + unfold recount_existing. asks. econstructor; eauto. by apply Z.eqb_neq.
    + unfold create_at_depot. asks.
      match goal with H : answers (ProductsInsertSelectSingle _) _ |- _ =>
        eapply answers_insert_select in H as (u & t' & ->); [|eassumption] end.
      econstructor; eauto. by apply Z.ltb_lt.
Qed.

Lemma supplied_stored u t m :
  supplied (StockMovement.stored u t m) = supplied m.
Proof. reflexivity. Qed.

(** Every row an operation appends to the ledger is one of its entries. *)
Lemma invoke_appends op w n :
  exists rows,
    stock_movements (world (run n (start (invoke op) w)))
    = stock_movements w ++ rows
    /\ Forall (fun m => ledger_entry op (supplied m)) rows.
Proof.
  apply (start_appends (fun m => ledger_entry op (supplied m))).
  - intros u t m H. by rewrite supplied_stored.
  - eapply async_asks_weaken; [|apply invoke_entries].
    intros q Hq m ->. specialize (Hq m eq_refl).
    inversion Hq; subst; simpl; unfold supplied; simpl; by econstructor.
Qed.

Lemma ledger_entry_computed op m : ledger_entry op (supplied m) -> computed m.
Proof.
  unfold computed. intros H.
  inversion H; subst; simpl in *;
    repeat match goal with
           | H : movement _ _ _ _ _ _ _ _ _ = supplied _ |- _ =>
               unfold supplied, movement in H;
               injection H as <- <- <- <- <- <- <- <- <-
           end;
    first [ by right; right
          | by left
          | by right; left
          | right; left; congruence ].
Qed.

Lemma computed_balanced m : computed m -> balanced_if_moderate m.
Proof.
  unfold computed, balanced_if_moderate, balanced, Double.moderate,
    Double.add, Double.sub.
  intros [H|[H|[H0 H]]] Hold Hnew.
  - rewrite H in Hnew |- *.
    rewrite round_safe; [lia|]. lia.
  - rewrite H. rewrite round_exact; lia.
  - lia.
Qed.

(** C2, as amended.  Every ledger row written by an operation (create, edit,
    consumption, admin movement, approval, bulk set), at any point of its
    run and whatever the store answers, holds what the source computed in
    doubles: its new level is the rounded sum of the old level and the
    change, or its change is the rounded difference of the levels, or it is
    a first level from 0.  So a row whose old and new levels are of
    magnitude at most [2^52] satisfies
    [new_stock_level = old_stock_level + quantity_change]. *)
Theorem ledger_rows_balance op w n :
  exists rows,
    stock_movements (world (run n (start (invoke op) w)))
    = stock_movements w ++ rows
    /\ Forall (fun m =>
         (StockMovement.new_stock_level m
          = Double.add (StockMovement.old_stock_level m)
              (StockMovement.quantity_change m)
          \/ StockMovement.quantity_change m
             = Double.sub (StockMovement.new_stock_level m)
                 (StockMovement.old_stock_level m)
          \/ (StockMovement.old_stock_level m = 0
              /\ StockMovement.quantity_change m
                 = StockMovement.new_stock_level m))
         /\ (Double.moderate (StockMovement.old_stock_level m) ->
             Double.moderate (StockMovement.new_stock_level m) ->
             StockMovement.new_stock_level m
             = StockMovement.old_stock_level m
               + StockMovement.quantity_change m))
         rows.
Proof.
  destruct (invoke_appends op w n) as (rows & Hrows & Hentries).
  exists rows. split; [done|].
  eapply Forall_impl; [exact Hentries|]. intros m Hm.
  apply ledger_entry_computed in Hm. split; [exact Hm|].
  by apply computed_balanced.
Qed.

(** C2, counterexample.  The edit of a product from stock 1 to stock
    9007199254740994 logs a change of 9007199254740992 ([2^53]): the
    difference 9007199254740993 is no double and is rounded.  The admin entry
    of [2^53] on the 7 of [P1] writes and logs the new level
    9007199254741000, the double nearest to 9007199254740999. *)
Lemma ledger_row_off_balance :
  ~ every_ledger_row_balances
  /\ (exists row,
        stock_movements
          (world (run 3 (start (updateProduct
                                  (Product.with_stock 9007199254740994 P1)
                                  admin_user)
                           (set_products [Product.with_stock 1 P1; P2]
                              (sample_store (replicate 3 answered))))))
        = [row]
        /\ StockMovement.old_stock_level row = 1
        /\ StockMovement.quantity_change row = 9007199254740992
        /\ StockMovement.new_stock_level row = 9007199254740994)
  /\ (exists row,
        stock_movements
          (world (run 3 (start (adminCreateMovement "P1" 9007199254740992
                                  movement_admin_entry admin_user)
                           (sample_store (replicate 3 answered)))))
        = [row]
        /\ StockMovement.old_stock_level row = 7
        /\ StockMovement.quantity_change row = 9007199254740992
        /\ StockMovement.new_stock_level row = 9007199254741000).
Proof.
  split; [|split].
  - intros H.
    destruct (H (ProductEdit (Product.with_stock 9007199254740994 P1)
                   admin_user)
                (set_products [Product.with_stock 1 P1; P2]
                   (sample_store (replicate 3 answered))) 3%nat)
      as (rows & Hrows & Hbal).
    vm_compute in Hrows. subst rows.
    apply Forall_cons in Hbal as [Hbal _]. vm_compute in Hbal. discriminate.
  - eexists. split; [vm_compute; reflexivity|]. repeat split.
  - eexists. split; [vm_compute; reflexivity|]. repeat split.
Qed.

(** ** Functions that start no chain *)

Lemma run_sequential {R} n (m : Async R) w :
  sequential n m -> run n (start m w) = exec m w.
Proof.
  intros H. revert w. unfold start.
  induction H as [n r|n e|n q k Hk IH|n k Hk IH|n k Hk IH|n e k Hk IH];
    intros w; simpl.
  - by apply run_quiescent.
  - by apply run_quiescent.
  - rewrite (step_sequential _ q k) by done. simpl.
    pose proof (serve_answers MainThread q w) as Ha.
    destruct (serve MainThread q w) as [r w']. by apply IH.
  - apply IH.
  - apply IH.
  - apply IH.
Qed.

Ltac sequential :=
  repeat first
    [ progress intros
    | match goal with
      | |- sequential _ (match ?x with _ => _ end) => destruct x eqn:?
      | |- sequential _ _ => constructor
      | |- sequential _ ?m =>
          match m with
          | context [match ?x with _ => _ end] => destruct x eqn:?; simpl
          end
      end ].

Lemma addProduct_sequential product user :
  sequential 2 (let* r := addProduct product user in Return (Response.error r)).
Proof.
  unfold addProduct, addStockMovement, generateTransactionRef, await,
    Date_now. simpl. sequential.
Qed.

Lemma updateProduct_sequential product user :
  sequential 3 (updateProduct product user).
Proof.
  unfold updateProduct, addStockMovement, generateTransactionRef, await,
    Date_now. simpl. sequential.
Qed.

Lemma depotRecordConsumption_sequential product quantity user :
  sequential 2 (depotRecordConsumption product quantity user).
Proof.
  unfold depotRecordConsumption, addStockMovement, generateTransactionRef,
    await, Date_now, client. simpl. sequential.
Qed.

Lemma adminCreateMovement_sequential productId quantity movementType adminUser :
  sequential 3 (adminCreateMovement productId quantity movementType adminUser).
Proof.
  unfold adminCreateMovement, addStockMovement, generateTransactionRef,
    await, Date_now, client. simpl. sequential.
Qed.

Lemma handleSubmitInventory_sequential currentUser stagedItems :
  sequential 2 (handleSubmitInventory currentUser stagedItems).
Proof.
  unfold handleSubmitInventory, addSubmission, sendMessage, await, client.
  simpl. sequential.
Qed.

(** Symbolic execution of one round trip whose fault is known. *)
Ltac round_trip H :=
  unfold serve, next_net, tick; simpl; rewrite ?H; simpl.

(** C10. In [depotRecordConsumption] and [adminCreateMovement], when the
    stock write is served and the ledger insert that follows comes back with
    an error, the function still returns [{ error: null }]: the stock change
    is persisted, the ledger has no new row, and the caller sees no failure. *)
Theorem ledger_failure_goes_unreported :
  (forall product quantity user w n1 n2 rest e,
      network w = n1 :: n2 :: rest ->
      Net.fault n1 = None -> Net.fault n2 = Some e ->
      0 <= Product.stock product - quantity ->
      let s := run 2 (start (depotRecordConsumption product quantity user) w) in
      outcome s = Returned None
      /\ products (world s)
         = stock_set (Product.id product)
             (Double.sub (Product.stock product) quantity) (products w)
      /\ stock_movements (world s) = stock_movements w)
  /\ (forall productId quantity movementType adminUser w n1 n2 n3 rest
             product e,
      network w = n1 :: n2 :: n3 :: rest ->
      Net.fault n1 = None -> Net.fault n2 = None -> Net.fault n3 = Some e ->
      filter (id_is productId) (products w) = [product] ->
      0 <= Product.stock product + signed movementType quantity ->
      let s := run 3 (start (adminCreateMovement productId quantity
                               movementType adminUser) w) in
      outcome s = Returned None
      /\ products (world s)
         = stock_set productId
             (Double.add (Product.stock product)
                (signed movementType quantity))
             (products w)
      /\ stock_movements (world s) = stock_movements w).
Proof.
  split.
  - intros product quantity user w n1 n2 rest e Hnet H1 H2 Hok s. subst s.
    rewrite run_sequential by apply depotRecordConsumption_sequential.
    destruct w as [ps ms ss cs t net j]. simpl in Hnet. subst net.
    unfold depotRecordConsumption, addStockMovement, generateTransactionRef,
      await, Date_now, client. simpl.
    destruct (Z.ltb_spec (Double.sub (Product.stock product) quantity) 0)
      as [Hneg|_]; [rewrite sub_neg in Hneg; lia|].
    simpl. round_trip H1. round_trip H2. repeat split; reflexivity.
  - intros productId quantity movementType adminUser w
      n1 n2 n3 rest product e Hnet H1 H2 H3 Hp Hok s. subst s.
    rewrite run_sequential by apply adminCreateMovement_sequential.
    destruct w as [ps ms ss cs t net j]. simpl in Hnet, Hp. subst net.
    unfold adminCreateMovement, addStockMovement, generateTransactionRef,
      await, Date_now, client. simpl.
    round_trip H1. rewrite Hp. simpl.
    replace (match movementType with
             | movement_admin_entry => quantity
             | movement_admin_exit => - quantity
             end) with (signed movementType quantity) by done.
    destruct (Z.ltb_spec
                (Double.add (Product.stock product)
                   (signed movementType quantity)) 0)
      as [Hneg|_]; [rewrite add_neg in Hneg; lia|].
    simpl. round_trip H2. round_trip H3. repeat split; reflexivity.
Qed.

(** ** Approval of a submission *)

Lemma approveSubmission_unfold s adminUser :
  approveSubmission s adminUser
  = Await (SubmissionsUpdateStatus (InventorySubmission.id s) approved)
          (approval_after_status s adminUser).
Proof. reflexivity. Qed.

Lemma settle_push_all {R} cs (m : Async R) ps w :
  settle (let* _ := push_all cs in m) ps w = settle m (ps ++ cs) w.
Proof.
  revert ps. induction cs as [|c cs IH]; intros ps; simpl.
  - by rewrite app_nil_r.
  - rewrite IH. by rewrite <- app_assoc.
Qed.

Lemma approval_first_step s adminUser w :
  step (start (approveSubmission s adminUser) w)
  = let '(r, w') :=
      serve MainThread
        (SubmissionsUpdateStatus (InventorySubmission.id s) approved) w in
    match Response.error r with
    | Some statusError => Build_State (Return (Some statusError)) [] w'
    | None => approval_running s adminUser w'
    end.
Proof.
  rewrite approveSubmission_unfold. unfold start. simpl.
  rewrite (step_sequential _ _ (approval_after_status s adminUser)) by done.
  simpl. destruct (serve _ _ _) as [r w']. unfold approval_after_status.
  destruct (Response.error r); [done|].
  unfold generateTransactionRef, Date_now. simpl.
  apply (settle_push_all _ (approval_join s) []).
Qed.

(** C5. If the initial status update to [approved] fails,
    [approveSubmission] returns that error after this one round trip: no chain
    is started, no product and no ledger row is written, and the submissions
    table is as it was (the submission stays [pending]). *)
Theorem approval_aborts_on_status_error s adminUser w e n :
  Net.fault (next_net w) = Some e ->
  let st := run (S n) (start (approveSubmission s adminUser) w) in
  outcome st = Returned (Some e)
  /\ promises st = []
  /\ products (world st) = products w
  /\ stock_movements (world st) = stock_movements w
  /\ inventory_submissions (world st) = inventory_submissions w
  /\ journal (world st)
     = journal w
       ++ [Served MainThread
             (SubmissionsUpdateStatus (InventorySubmission.id s) approved)
             (Response.failed e)].
Proof.
  intros He st. subst st. simpl. rewrite approval_first_step.
  unfold serve. rewrite He. simpl.
  rewrite run_quiescent by done. simpl. done.
Qed.

Lemma settle_approval_join s ps w :
  settle (approval_join s) ps w
  = match Promise_all ps with
    | None => Build_State (approval_join s) ps w
    | Some None => Build_State (Return None) ps w
    | Some (Some e) =>
        Build_State (approval_compensation s e) ps
          (log (Did (ConsoleError
             "Error during transaction for submission approval:")) w)
    end.
Proof.
  unfold approval_join, await_Promise_all. simpl.
  destruct (Promise_all ps) as [[e|]|]; reflexivity.
Qed.

Lemma main_requests_app j1 j2 :
  main_requests (j1 ++ j2) = main_requests j1 ++ main_requests j2.
Proof.
  induction j1 as [|[[|i] q r|e] j1 IH]; simpl; by rewrite ?IH.
Qed.

Lemma serve_journal who q w :
  journal (serve who q w).2 = journal w ++ [Served who q (serve who q w).1].
Proof.
  unfold serve. destruct (Net.fault (next_net w)); simpl; [done|].
  destruct q; reflexivity.
Qed.

Lemma serve_network who q w : network (serve who q w).2 = tail (network w).
Proof.
  unfold serve. destruct (Net.fault (next_net w)); simpl; [done|].
  destruct q; reflexivity.
Qed.

Lemma serve_clock who q w :
  clock (serve who q w).2 = (clock w + Net.elapsed (next_net w))%N.
Proof.
  unfold serve. destruct (Net.fault (next_net w)); simpl; [done|].
  destruct q; reflexivity.
Qed.

Lemma filter_single_error ps :
  Response.error (single ps) = None -> exists p, ps = [p].
Proof. destruct ps as [|p [|p' ps]]; simpl; try discriminate. eauto. Qed.

Lemma serve_products who q w :
  (forall i p, q <> ProductsUpdateSelectSingle i p) ->
  products (serve who q w).2 = products_after q (serve who q w).1 (products w).
Proof.
  intros Hq. unfold serve, products_after.
  destruct (Net.fault (next_net w)); simpl; [done|].
  destruct q as [p|i|i|c l|i p|i z|m|x|i st|m]; simpl; try reflexivity;
    try (by destruct (Response.error _)).
  by destruct (Hq i p).
Qed.

Lemma serve_submissions who q w :
  (forall x, q <> SubmissionsInsert x) ->
  (forall i st, q <> SubmissionsUpdateStatus i st) ->
  inventory_submissions (serve who q w).2 = inventory_submissions w.
Proof.
  intros H1 H2. unfold serve.
  destruct (Net.fault (next_net w)); simpl; [done|].
  destruct q as [p|i|i|c l|i p|i z|m|x|i st|m]; try reflexivity;
    [by destruct (H1 x)|by destruct (H2 i st)].
Qed.

Lemma settle_suspended_id {R} (m : Async R) ps w :
  suspended (Build_State m ps w) -> settle m ps w = Build_State m ps w.
Proof.
  unfold suspended. simpl. destruct m; try done. simpl. by intros ->.
Qed.

Lemma first_broken_elem ps e : first_broken ps = Some e -> Broken e ∈ ps.
Proof.
  induction ps as [|c ps IH]; simpl; [discriminate|].
  destruct c as [|e'|q k]; intros H.
  - right. auto.
  - injection H as ->. left.
  - right. auto.
Qed.

Lemma first_broken_insert ps i c :
  first_broken ps = None -> (i < length ps)%nat ->
  first_broken (<[i := c]> ps)
  = match c with Broken e => Some e | _ => None end.
Proof.
  revert i. induction ps as [|x ps IH]; intros i Hb Hi; simpl in *; [lia|].
  destruct i as [|i]; simpl.
  - destruct x as [|e|q k]; try discriminate; by destruct c.
  - destruct x as [|e|q k]; try discriminate; apply IH; auto; lia.
Qed.

Lemma forallb_is_fulfilled ps :
  forallb is_fulfilled ps = true <-> Forall (fun c => c = Fulfilled) ps.
Proof.
  induction ps as [|c ps IH]; simpl.
  - split; auto.
  - rewrite andb_true_iff, IH. split.
    + intros [Hc Hps]. constructor; [by destruct c|done].
    + intros H. inversion H; subst. split; [done|]. done.
Qed.

Lemma item_stage_step ref adminUser item q k r :
  item_stage ref adminUser item (Then q k) ->
  item_stage ref adminUser item (k r).
Proof.
  intros H. inversion H; subst.
  - destruct (Response.error r); [constructor|].
    destruct (Response.data r); constructor.
  - destruct (Response.error r); constructor.
  - constructor.
Qed.

(** The requests of an item's chain touch neither the submissions nor, save
    for its one stock write, the products. *)
Lemma item_stage_request ref adminUser item q k :
  item_stage ref adminUser item (Then q k) ->
  q = ProductsSelectStockById (InventoryItem.productId item)
  \/ q = ProductsUpdateStock (InventoryItem.productId item)
           (InventoryItem.quantity item)
  \/ exists m, q = StockMovementsInsert m.
Proof. intros H. inversion H; subst; eauto. Qed.

Lemma Forall2_insert_right {A B} (P : A -> B -> Prop) l k i x y :
  Forall2 P l k -> l !! i = Some x -> P x y -> Forall2 P l (<[i := y]> k).
Proof.
  intros H Hi Hxy. rewrite <- (list_insert_id l i x Hi).
  by apply Forall2_insert.
Qed.

Lemma item_stage_cases ref adminUser item q k :
  item_stage ref adminUser item (Then q k) ->
  Then q k = approve_item ref adminUser item
  \/ (exists oldStock,
        Then q k = approve_item_write ref adminUser item oldStock)
  \/ (exists oldStock,
        Then q k = approve_item_log ref adminUser item oldStock).
Proof. intros H. inversion H; eauto. Qed.

Lemma approve_items_stage ref adminUser l :
  Forall2 (item_stage ref adminUser) l (map (approve_item ref adminUser) l).
Proof. induction l; simpl; constructor; [constructor|done]. Qed.

Lemma approve_items_unbroken ref adminUser l :
  first_broken (map (approve_item ref adminUser) l) = None.
Proof. induction l; simpl; auto. Qed.

Section ApprovalRun.
Context (s : InventorySubmission.t) (adminUser : User.t) (w1 : World).

Local Abbreviation ref := (transaction_ref_at "INV" (clock w1)).
Local Abbreviation items := (InventorySubmission.items s).
Local Abbreviation stage := (item_stage ref adminUser).

(** The stock write of the item has been served. *)
Inductive written (item : InventoryItem.t) : Chain -> Prop :=
| written_log oldStock :
    written item (approve_item_log ref adminUser item oldStock)
| written_done : written item Fulfilled.

(** A product that an item has written holds a submitted count. *)
Definition counts_kept (cs : list Chain) (ps : list Product.t) : Prop :=
  forall i item c p,
    items !! i = Some item -> cs !! i = Some c -> written item c ->
    p ∈ ps -> Product.id p = InventoryItem.productId item ->
    exists item',
      item' ∈ items
      /\ InventoryItem.productId item' = Product.id p
      /\ Product.stock p = InventoryItem.quantity item'.

(** Where the main function stands. *)
Inductive main_stage (st : State (option JsError.t)) : Prop :=
| main_waiting :
    main st = approval_join s ->
    first_broken (promises st) = None ->
    main_requests (journal (world st)) = main_requests (journal w1) ->
    main_stage st
| main_compensating e :
    main st = approval_compensation s e ->
    Broken e ∈ promises st ->
    main_requests (journal (world st)) = main_requests (journal w1) ->
    main_stage st
| main_returned_ok :
    main st = Return None ->
    Forall (fun c => c = Fulfilled) (promises st) ->
    main_requests (journal (world st)) = main_requests (journal w1) ->
    main_stage st
| main_returned_error e r :
    main st = Return (Some (JsError.spread_over approval_failed e)) ->
    Broken e ∈ promises st ->
    main_requests (journal (world st))
    = main_requests (journal w1)
      ++ [(SubmissionsUpdateStatus (InventorySubmission.id s) pending, r)] ->
    (Response.error r = None ->
     Forall (fun x => InventorySubmission.id x = InventorySubmission.id s ->
                      InventorySubmission.status x = pending)
            (inventory_submissions (world st))) ->
    main_stage st.

Record approval_inv (st : State (option JsError.t)) : Prop := {
  inv_stages : Forall2 stage items (promises st);
  inv_main : main_stage st;
  inv_counts : counts_kept (promises st) (products (world st)) }.

Lemma approval_running_inv : approval_inv (approval_running s adminUser w1).
Proof.
  unfold approval_running. rewrite settle_approval_join.
  set (cs := map (approve_item ref adminUser) items).
  assert (Hst : Forall2 stage items cs) by apply approve_items_stage.
  assert (Hb : first_broken cs = None) by apply approve_items_unbroken.
  assert (Hc : forall ps, counts_kept cs ps).
  { intros ps i item c p Hi Hci Hw. subst cs.
    rewrite list_lookup_fmap, Hi in Hci. simpl in Hci. injection Hci as <-.
    inversion Hw. }
  unfold Promise_all. rewrite Hb.
  destruct (forallb is_fulfilled cs) eqn:Hf.
  - split; simpl; auto. apply main_returned_ok; simpl; auto.
    by apply forallb_is_fulfilled.
  - split; simpl; auto. apply main_waiting; simpl; auto.
Qed.

Lemma written_not_fresh item c q k :
  c = Then q k -> written item c ->
  exists m, q = StockMovementsInsert m.
Proof. intros -> H. inversion H; subst. eauto. Qed.

Lemma stock_set_elem i z ps p' :
  p' ∈ stock_set i z ps ->
  exists p, p ∈ ps /\ p' = (if id_is i p then Product.with_stock z p else p).
Proof.
  unfold stock_set. intros H. apply list_elem_of_fmap in H as (p & -> & Hp).
  eauto.
Qed.

(** A step of the chain of item [i]. *)
Lemma approval_chain_step st i q k :
  approval_inv st -> promises st !! i = Some (Then q k) ->
  approval_inv
    (let '(r, w) := serve (PromiseAt i) q (world st) in
     settle (main st) (<[i := k r]> (promises st)) w).
Proof.
  intros [Hst Hmain Hcounts] Hi.
  destruct (Forall2_lookup_r _ _ _ _ _ Hst Hi) as (item & Hitem & Hstage).
  pose proof (item_stage_step _ _ _ _ _ (serve (PromiseAt i) q (world st)).1
                Hstage) as Hstage'.
  pose proof (serve_journal (PromiseAt i) q (world st)) as Hj.
  assert (Hq : (forall j p, q <> ProductsUpdateSelectSingle j p)
               /\ (forall x, q <> SubmissionsInsert x)
               /\ (forall j x, q <> SubmissionsUpdateStatus j x)).
  { destruct (item_stage_request _ _ _ _ _ Hstage) as [->|[->|[m ->]]];
      repeat split; intros; discriminate. }
  destruct Hq as (Hq1 & Hq2 & Hq3).
  pose proof (serve_products (PromiseAt i) q (world st) Hq1) as Hp.
  pose proof (serve_submissions (PromiseAt i) q (world st) Hq2 Hq3) as Hs.
  destruct (serve (PromiseAt i) q (world st)) as [r w]. simpl in *.
  set (cs := <[i := k r]> (promises st)).
  assert (Hst' : Forall2 stage items cs).
  { subst cs. by apply Forall2_insert_right with (x := item). }
  assert (Hlen : (i < length (promises st))%nat)
    by (eapply lookup_lt_Some; eauto).
  assert (Hcounts' : counts_kept cs (products w)).
  { rewrite Hp. intros j item' c p' Hj' Hc Hw Hp' Hid. subst cs.
    destruct (item_stage_cases _ _ _ _ _ Hstage) as [Hc0|[[old Hc0]|[old Hc0]]].
    - (* the read: no write yet, the table is as it was *)
      injection Hc0 as -> ->. unfold products_after in Hp'.
      replace (match Response.error r with Some _ | _ => products (world st) end)
        with (products (world st)) in Hp' by (by destruct (Response.error r)).
      destruct (decide (j = i)) as [->|Hne].
      + rewrite list_lookup_insert_eq in Hc by done. injection Hc as <-.
        rewrite Hitem in Hj'. injection Hj' as <-.
        destruct (Response.error r); [inversion Hw|].
        destruct (Response.data r); inversion Hw.
      + rewrite list_lookup_insert_ne in Hc by done. eauto.
    - (* the write *)
      injection Hc0 as -> ->. unfold products_after in Hp'.
      destruct (Response.error r) as [e|] eqn:He.
      + destruct (decide (j = i)) as [->|Hne].
        * rewrite list_lookup_insert_eq in Hc by done. injection Hc as <-.
          inversion Hw.
        * rewrite list_lookup_insert_ne in Hc by done. eauto.
      + apply stock_set_elem in Hp' as (p & Hp0 & ->).
        destruct (id_is (InventoryItem.productId item) p) eqn:Hidp.
        * exists item. split; [eapply list_elem_of_lookup_2; eauto|].
          apply String.eqb_eq in Hidp. simpl. auto.
        * destruct (decide (j = i)) as [->|Hne].
          -- rewrite Hitem in Hj'. injection Hj' as <-.
             apply String.eqb_neq in Hidp. done.
          -- rewrite list_lookup_insert_ne in Hc by done. eauto.
    - (* the ledger insert: the table is as it was *)
      injection Hc0 as -> ->. unfold products_after in Hp'.
      replace (match Response.error r with Some _ | _ => products (world st) end)
        with (products (world st)) in Hp' by (by destruct (Response.error r)).
      destruct (decide (j = i)) as [->|Hne].
      + rewrite Hitem in Hj'. injection Hj' as <-.
        eapply (Hcounts i item); eauto. constructor.
      + rewrite list_lookup_insert_ne in Hc by done. eauto. }
  assert (Hmr : main_requests (journal w) = main_requests (journal (world st))).
  { rewrite Hj, main_requests_app. simpl. by rewrite app_nil_r. }
  destruct Hmain as [Hm Hb Hreq|e Hm Hb Hreq|Hm Hall Hreq|e r' Hm Hb Hreq Hstat].
  - (* the main function awaits Promise.all *)
    assert (Hb' : first_broken cs
                  = match k r with Broken e => Some e | _ => None end)
      by (subst cs; by apply first_broken_insert).
    rewrite Hm, settle_approval_join. unfold Promise_all. rewrite Hb'.
    destruct (k r) as [|e|q' k'] eqn:Hk.
    + destruct (forallb is_fulfilled cs) eqn:Hf.
      * split; simpl; auto. apply main_returned_ok; simpl; auto.
        -- by apply forallb_is_fulfilled.
        -- congruence.
      * split; simpl; auto. apply main_waiting; simpl; auto.
        -- congruence.
    + split; simpl; auto. apply main_compensating with e; simpl; auto.
      * subst cs. eapply list_elem_of_lookup_2.
        by apply list_lookup_insert_eq.
      * rewrite main_requests_app. simpl. rewrite app_nil_r. congruence.
    + destruct (forallb is_fulfilled cs) eqn:Hf.
      * apply forallb_is_fulfilled in Hf. subst cs.
        rewrite Forall_forall in Hf.
        assert (Then q' k' = Fulfilled); [|discriminate].
        apply Hf. eapply list_elem_of_lookup_2.
        by apply list_lookup_insert_eq.
      * split; simpl; auto. apply main_waiting; simpl; auto.
        -- congruence.
  - (* the status is being set back *)
    rewrite Hm. simpl. split; simpl; auto.
    apply main_compensating with e; simpl; auto; [|congruence].
    apply list_elem_of_lookup in Hb as [j Hj'].
    apply list_elem_of_lookup. exists j. subst cs.
    rewrite list_lookup_insert_ne; [done|]. intros ->. congruence.
  - (* all chains were fulfilled: none is in flight *)
    rewrite Forall_forall in Hall.
    assert (Then q k = Fulfilled); [|discriminate].
    apply Hall. eapply list_elem_of_lookup_2; eauto.
  - rewrite Hm. simpl. split; simpl; auto.
    apply main_returned_error with e r'; simpl; auto; [|congruence|by rewrite Hs].
    apply list_elem_of_lookup in Hb as [j Hj'].
    apply list_elem_of_lookup. exists j. subst cs.
    rewrite list_lookup_insert_ne; [done|]. intros ->. congruence.
Qed.

(** The step of the main function: the status update back to [pending]. *)
Lemma approval_main_step st q k :
  approval_inv st -> main st = Await q k ->
  approval_inv
    (let '(r, w) := serve MainThread q (world st) in
     settle (k r) (promises st) w).
Proof.
  intros [Hst Hmain Hcounts] Hm.
  destruct Hmain as [Hm' _ _|e Hm' Hb Hreq|Hm' _ _|e r' Hm' _ _ _];
    rewrite Hm' in Hm; try discriminate.
  unfold approval_compensation in Hm. injection Hm as <- <-.
  pose proof (serve_journal MainThread
    (SubmissionsUpdateStatus (InventorySubmission.id s) pending) (world st))
    as Hj.
  pose proof (serve_products MainThread
    (SubmissionsUpdateStatus (InventorySubmission.id s) pending) (world st))
    as Hp.
  assert (Hs : Response.error
                 (serve MainThread
                    (SubmissionsUpdateStatus (InventorySubmission.id s) pending)
                    (world st)).1 = None ->
               Forall (fun x =>
                 InventorySubmission.id x = InventorySubmission.id s ->
                 InventorySubmission.status x = pending)
                 (inventory_submissions
                    (serve MainThread
                       (SubmissionsUpdateStatus (InventorySubmission.id s)
                          pending) (world st)).2)).
  { unfold serve. destruct (Net.fault (next_net (world st))); simpl;
      [discriminate|]. intros _. apply Forall_forall. intros x Hx.
    apply list_elem_of_fmap in Hx as (y & -> & _).
    destruct (String.eqb_spec (InventorySubmission.id y)
                (InventorySubmission.id s)); [done|]. simpl. done. }
  destruct (serve _ _ _) as [r w]. simpl in *.
  split; simpl; auto.
  - apply main_returned_error with e r; simpl; auto.
    rewrite Hj, main_requests_app, Hreq. done.
  - rewrite Hp by (intros; discriminate). unfold products_after.
    by destruct (Response.error r).
Qed.

Lemma approval_step st : approval_inv st -> approval_inv (step st).
Proof.
  intros Hinv. destruct (step_is_step_of st) as [H|q k H|i q k H]; [done| |].
  - by apply approval_main_step.
  - by apply approval_chain_step.
Qed.

Lemma approval_run n : approval_inv (run n (approval_running s adminUser w1)).
Proof.
  apply run_invariant; [apply approval_step | apply approval_running_inv].
Qed.
End ApprovalRun.

Lemma push_all_within n cs :
  Forall (chain_within n) cs -> async_within (n * length cs) (push_all cs).
Proof.
  induction 1 as [|c cs Hc _ IH]; simpl.
  - constructor.
  - replace (n * S (length cs))%nat with (n + n * length cs)%nat by lia.
    by constructor.
Qed.

Lemma approve_item_within ref adminUser item :
  chain_within 3 (approve_item ref adminUser item).
Proof.
  constructor. intros r. destruct (Response.error r); [constructor|].
  destruct (Response.data r); constructor.
  intros r'. destruct (Response.error r'); constructor. intros. constructor.
Qed.

Lemma approveSubmission_within s adminUser :
  async_within (2 + 3 * length (InventorySubmission.items s))
    (approveSubmission s adminUser).
Proof.
  rewrite approveSubmission_unfold. constructor. intros r.
  unfold approval_after_status. destruct (Response.error r); [constructor|].
  unfold generateTransactionRef, Date_now. simpl. constructor. intros t.
  eapply async_within_le.
  - apply bind_within with (b := 1%nat).
    + apply push_all_within. apply Forall_forall. intros c Hc.
      apply list_elem_of_fmap in Hc as (item & -> & _).
      apply approve_item_within.
    + intros _. unfold approval_join, await_Promise_all, client,
        updateSubmissionStatus, await. simpl. constructor. intros [e|].
      * simpl. constructor. constructor. intros. constructor.
      * simpl. constructor.
  - rewrite length_map. lia.
Qed.

(** Once the status is [approved], a full run is a run of the item chains. *)
Lemma approval_run_after_status s adminUser w n :
  Net.fault (next_net w) = None ->
  run (S n) (start (approveSubmission s adminUser) w)
  = run n (approval_running s adminUser
             (serve MainThread
                (SubmissionsUpdateStatus (InventorySubmission.id s) approved)
                w).2).
Proof.
  intros Hok. simpl. rewrite approval_first_step.
  unfold serve. rewrite Hok. simpl. done.
Qed.


(** ** What a journal tells of the item chains *)

Lemma item_failures_app j1 j2 :
  item_failures (j1 ++ j2) = item_failures j1 ++ item_failures j2.
Proof.
  induction j1 as [|[[|i] q r|e] j1 IH]; simpl; auto.
  destruct q; simpl; auto; destruct (Response.error r); simpl; congruence.
Qed.

Lemma item_writes_app j1 j2 :
  item_writes (j1 ++ j2) = item_writes j1 ++ item_writes j2.
Proof.
  induction j1 as [|[[|i] q r|e] j1 IH]; simpl; auto.
  destruct q; simpl; auto; destruct (Response.error r); simpl; congruence.
Qed.

Lemma item_failures_did ds : item_failures (map Did ds) = [].
Proof. induction ds; simpl; auto. Qed.

Lemma item_writes_did ds : item_writes (map Did ds) = [].
Proof. induction ds; simpl; auto. Qed.

(** A stock read that comes back without error carries the row. *)
Lemma serve_read_row who i w :
  Response.error (serve who (ProductsSelectStockById i) w).1 = None ->
  exists p, (serve who (ProductsSelectStockById i) w).1 = Response.row p.
Proof.
  unfold serve. destruct (Net.fault (next_net w)); simpl; [discriminate|].
  intros H. apply filter_single_error in H as [p Hp]. exists p.
  by rewrite Hp.
Qed.

Section ApprovalJournal.
Context (s : InventorySubmission.t) (adminUser : User.t) (w1 : World).

Local Abbreviation ref := (transaction_ref_at "INV" (clock w1)).
Local Abbreviation items := (InventorySubmission.items s).

(** The journal tells which chains were rejected and which have written. *)
Definition journal_tells (events : list Event) (cs : list Chain) : Prop :=
  (forall i e, cs !! i = Some (Broken e) <-> (i, e) ∈ item_failures events)
  /\ forall i, i ∈ item_writes events ->
       exists item c,
         items !! i = Some item /\ cs !! i = Some c
         /\ written adminUser w1 item c.

Record journal_inv (st : State (option JsError.t)) : Prop := {
  ji_inv : approval_inv s adminUser w1 st;
  ji_tells : exists events,
    journal (world st) = journal w1 ++ events
    /\ journal_tells events (promises st) }.

Lemma settle_main_stage st cs w :
  main_stage s w1 st ->
  promises (settle (main st) cs w) = cs
  /\ exists ds, journal (world (settle (main st) cs w))
                = journal w ++ map Did ds.
Proof.
  intros [Hm _ _|e Hm _ _|Hm _ _|e r Hm _ _ _]; rewrite Hm.
  - rewrite settle_approval_join.
    destruct (Promise_all cs) as [[e|]|]; simpl; split; auto.
    + by exists [ConsoleError
                   "Error during transaction for submission approval:"].
    + exists []. by rewrite app_nil_r.
    + exists []. by rewrite app_nil_r.
  - simpl. split; [done|]. exists []. by rewrite app_nil_r.
  - simpl. split; [done|]. exists []. by rewrite app_nil_r.
  - simpl. split; [done|]. exists []. by rewrite app_nil_r.
Qed.

Lemma journal_running_inv : journal_inv (approval_running s adminUser w1).
Proof.
  split; [apply approval_running_inv|].
  unfold approval_running. rewrite settle_approval_join.
  set (cs := map (approve_item ref adminUser) items).
  assert (Hcs : forall i e, cs !! i <> Some (Broken e)).
  { intros i e. subst cs. rewrite list_lookup_fmap.
    destruct (items !! i); simpl; [discriminate|done]. }
  assert (Hb : first_broken cs = None) by apply approve_items_unbroken.
  assert (Htells : journal_tells [] cs).
  { split.
    - intros i e. split; [intros H; by apply Hcs in H|].
      simpl. intros H. by apply elem_of_nil in H.
    - simpl. intros i H. by apply elem_of_nil in H. }
  unfold Promise_all. rewrite Hb.
  destruct (forallb is_fulfilled cs); simpl; exists [];
    by rewrite app_nil_r.
Qed.

Lemma journal_chain_step st i q k :
  journal_inv st -> promises st !! i = Some (Then q k) ->
  journal_inv
    (let '(r, w) := serve (PromiseAt i) q (world st) in
     settle (main st) (<[i := k r]> (promises st)) w).
Proof.
  intros [Hinv (events & Hj & Hfail & Hwr)] Hi.
  split; [by apply approval_chain_step|].
  destruct Hinv as [Hst Hmain _].
  destruct (Forall2_lookup_r _ _ _ _ _ Hst Hi) as (item & Hitem & Hstage).
  pose proof (serve_journal (PromiseAt i) q (world st)) as Hsj.
  assert (Hrow : forall j, q = ProductsSelectStockById j ->
            Response.error (serve (PromiseAt i) q (world st)).1 = None ->
            exists p, (serve (PromiseAt i) q (world st)).1 = Response.row p).
  { intros j ->. apply serve_read_row. }
  assert (Hlen : (i < length (promises st))%nat)
    by (eapply lookup_lt_Some; eauto).
  destruct (serve (PromiseAt i) q (world st)) as [r w]. simpl in *.
  destruct (settle_main_stage st (<[i := k r]> (promises st)) w Hmain)
    as (-> & ds & ->).
  exists (events ++ [Served (PromiseAt i) q r] ++ map Did ds).
  split; [by rewrite Hsj, Hj, <- !app_assoc|].
  assert (Hnot : forall e, (i, e) ∉ item_failures events).
  { intros e He. apply Hfail in He. congruence. }
  unfold journal_tells.
  rewrite !item_failures_app, !item_writes_app, item_failures_did,
    item_writes_did, !app_nil_r.
  assert (Hother : forall j c, j <> i ->
            <[i := c]> (promises st) !! j = promises st !! j)
    by (intros; by apply list_lookup_insert_ne).
  assert (Hsame : forall c, <[i := c]> (promises st) !! i = Some c)
    by (intros; by apply list_lookup_insert_eq).
  destruct (item_stage_cases _ _ _ _ _ Hstage) as [Hc|[[old Hc]|[old Hc]]];
    injection Hc as -> ->; simpl.
  - (* the read *)
    destruct (Response.error r) as [e|] eqn:He; simpl.
    + split.
      * intros j e'. rewrite elem_of_app, list_elem_of_singleton.
        destruct (decide (j = i)) as [->|Hne].
        -- rewrite Hsame. split.
           ++ intros [= <-]. by right.
           ++ intros [H|[= <-]]; [by apply Hnot in H|done].
        -- rewrite Hother, Hfail by done. split; [by left|].
           intros [H|[= -> _]]; done.
      * rewrite app_nil_r. intros j Hj'.
        destruct (Hwr j Hj') as (item' & c & Hit & Hc & Hw).
        destruct (decide (j = i)) as [->|Hne].
        -- rewrite Hi in Hc. injection Hc as <-. inversion Hw.
        -- exists item', c. by rewrite Hother.
    + destruct (Hrow _ eq_refl eq_refl) as [p ->]. simpl. split.
      * intros j e'. rewrite app_nil_r.
        destruct (decide (j = i)) as [->|Hne].
        -- rewrite Hsame. split; [discriminate|]. intros H. by apply Hnot in H.
        -- by rewrite Hother, Hfail.
      * rewrite app_nil_r. intros j Hj'.
        destruct (Hwr j Hj') as (item' & c & Hit & Hc & Hw).
        destruct (decide (j = i)) as [->|Hne].
        -- rewrite Hi in Hc. injection Hc as <-. inversion Hw.
        -- exists item', c. by rewrite Hother.
  - (* the write *)
    destruct (Response.error r) as [e|] eqn:He; simpl.
    + split.
      * intros j e'. rewrite elem_of_app, list_elem_of_singleton.
        destruct (decide (j = i)) as [->|Hne].
        -- rewrite Hsame. split.
           ++ intros [= <-]. by right.
           ++ intros [H|[= <-]]; [by apply Hnot in H|done].
        -- rewrite Hother, Hfail by done. split; [by left|].
           intros [H|[= -> _]]; done.
      * rewrite app_nil_r. intros j Hj'.
        destruct (Hwr j Hj') as (item' & c & Hit & Hc & Hw).
        destruct (decide (j = i)) as [->|Hne].
        -- rewrite Hi in Hc. injection Hc as <-. inversion Hw.
        -- exists item', c. by rewrite Hother.
    + split.
      * intros j e'. rewrite app_nil_r.
        destruct (decide (j = i)) as [->|Hne].
        -- rewrite Hsame. split; [discriminate|]. intros H. by apply Hnot in H.
        -- by rewrite Hother, Hfail.
      * intros j Hj'. apply elem_of_app in Hj' as [Hj'|Hj'].
        -- destruct (Hwr j Hj') as (item' & c & Hit & Hc & Hw).
           destruct (decide (j = i)) as [->|Hne].
           ++ rewrite Hi in Hc. injection Hc as <-. inversion Hw.
           ++ exists item', c. by rewrite Hother.
        -- apply list_elem_of_singleton in Hj' as ->.
           exists item, (approve_item_log ref adminUser item old).
           split; [done|]. split; [apply Hsame|]. constructor.
  - (* the ledger insert *)
    split.
    + intros j e'. rewrite app_nil_r.
      destruct (decide (j = i)) as [->|Hne].
      * rewrite Hsame. split; [discriminate|]. intros H. by apply Hnot in H.
      * by rewrite Hother, Hfail.
    + rewrite app_nil_r. intros j Hj'.
      destruct (Hwr j Hj') as (item' & c & Hit & Hc & Hw).
      destruct (decide (j = i)) as [->|Hne].
      * exists item, Fulfilled. split; [done|]. split; [apply Hsame|].
        constructor.
      * exists item', c. by rewrite Hother.
Qed.

Lemma journal_main_step st q k :
  journal_inv st -> main st = Await q k ->
  journal_inv
    (let '(r, w) := serve MainThread q (world st) in
     settle (k r) (promises st) w).
Proof.
  intros [Hinv (events & Hj & Htells)] Hm.
  split; [by apply approval_main_step|].
  destruct Hinv as [_ Hmain _].
  destruct Hmain as [Hm' _ _|e Hm' Hb Hreq|Hm' _ _|e r' Hm' _ _ _];
    rewrite Hm' in Hm; try discriminate.
  unfold approval_compensation in Hm. injection Hm as <- <-.
  pose proof (serve_journal MainThread
    (SubmissionsUpdateStatus (InventorySubmission.id s) pending) (world st))
    as Hsj.
  destruct (serve _ _ _) as [r w]. simpl in *.
  exists (events ++ [Served MainThread
                       (SubmissionsUpdateStatus (InventorySubmission.id s)
                          pending) r]).
  split; [by rewrite Hsj, Hj, <- app_assoc|].
  unfold journal_tells.
  rewrite item_failures_app, item_writes_app. simpl. by rewrite !app_nil_r.
Qed.

Lemma journal_step st : journal_inv st -> journal_inv (step st).
Proof.
  intros Hinv. destruct (step_is_step_of st) as [H|q k H|i q k H]; [done| |].
  - by apply journal_main_step.
  - by apply journal_chain_step.
Qed.

Lemma journal_run n : journal_inv (run n (approval_running s adminUser w1)).
Proof.
  apply run_invariant; [apply journal_step | apply journal_running_inv].
Qed.
End ApprovalJournal.

(** C4, as amended.  Once the status is [approved]: if the stock read or
    the stock write of some item comes back with an error,
    [approveSubmission] returns one aggregated error built from such an
    error, and besides the first status update the main function makes
    exactly one request, the status update back to [pending] (which takes
    effect when the store accepts it).  If no stock read and no stock write
    comes back with an error, it returns no error and the status stays
    [approved], whatever the ledger inserts answered.  In both cases there
    is no rollback of items: a product whose item was written holds a
    submitted count. *)
Theorem approval_partial_failure s adminUser w :
  Net.fault (next_net w) = None ->
  let st := run (fuel_of (SubmissionApproval s adminUser))
                (start (approveSubmission s adminUser) w) in
  let events := events_since w (world st) in
  (item_failures events <> [] ->
   exists i e r,
     (i, e) ∈ item_failures events
     /\ outcome st = Returned (Some (JsError.spread_over approval_failed e))
     /\ main_requests (journal (world st))
        = main_requests (journal w)
          ++ [(SubmissionsUpdateStatus (InventorySubmission.id s) approved,
               Response.ok);
              (SubmissionsUpdateStatus (InventorySubmission.id s) pending, r)]
     /\ (Response.error r = None ->
         Forall (fun x => InventorySubmission.id x = InventorySubmission.id s ->
                          InventorySubmission.status x = pending)
                (inventory_submissions (world st))))
  /\ (item_failures events = [] ->
      outcome st = Returned None
      /\ main_requests (journal (world st))
         = main_requests (journal w)
           ++ [(SubmissionsUpdateStatus (InventorySubmission.id s) approved,
                Response.ok)])
  /\ (forall i item p,
        InventorySubmission.items s !! i = Some item ->
        i ∈ item_writes events ->
        p ∈ products (world st) ->
        Product.id p = InventoryItem.productId item ->
        exists item',
          item' ∈ InventorySubmission.items s
          /\ InventoryItem.productId item' = Product.id p
          /\ Product.stock p = InventoryItem.quantity item').
Proof.
  intros Hok st events.
  destruct (start_finishes _ _ w (approveSubmission_within s adminUser))
    as [_ Hret].
  fold (fuel_of (SubmissionApproval s adminUser)) in Hret. fold st in Hret.
  set (w1 := (serve MainThread
                (SubmissionsUpdateStatus (InventorySubmission.id s) approved)
                w).2).
  assert (Hst : st = run (1 + 3 * length (InventorySubmission.items s))
                  (approval_running s adminUser w1))
    by (by apply approval_run_after_status).
  pose proof (journal_run s adminUser w1
                (1 + 3 * length (InventorySubmission.items s))) as Hinv.
  rewrite <- Hst in Hinv.
  destruct Hinv as [[_ Hmain Hcounts] (events1 & Hj1 & Hfail & Hwr)].
  assert (Hw1 : journal w1
                = journal w
                  ++ [Served MainThread
                        (SubmissionsUpdateStatus (InventorySubmission.id s)
                           approved) Response.ok]).
  { subst w1. rewrite serve_journal. unfold serve. by rewrite Hok. }
  assert (Hj : main_requests (journal w1)
               = main_requests (journal w)
                 ++ [(SubmissionsUpdateStatus (InventorySubmission.id s)
                        approved, Response.ok)])
    by (by rewrite Hw1, main_requests_app).
  assert (Hev : item_failures events = item_failures events1
                /\ item_writes events = item_writes events1).
  { subst events. unfold events_since.
    rewrite Hj1, Hw1, <- !app_assoc, drop_app_length. done. }
  destruct Hev as [-> ->].
  split; [|split].
  - intros Hsome.
    destruct Hmain as [Hm _ _|e Hm _ _|Hm Hall _|e r Hm Hb Hreq Hstat].
    + destruct Hret as [[r Hr]|[e Hr]]; rewrite Hm in Hr; discriminate.
    + destruct Hret as [[r Hr]|[e' Hr]]; rewrite Hm in Hr; discriminate.
    + destruct (item_failures events1) as [|[i e] l] eqn:Hl; [done|].
      assert (Hb : promises st !! i = Some (Broken e))
        by (apply Hfail; left).
      rewrite Forall_forall in Hall.
      apply list_elem_of_lookup_2, Hall in Hb. discriminate.
    + apply list_elem_of_lookup in Hb as [i Hb]. exists i, e, r.
      split; [by apply Hfail|]. split; [unfold outcome; by rewrite Hm|].
      split; [rewrite Hreq, Hj, <- app_assoc; done|done].
  - intros Hnone.
    destruct Hmain as [Hm _ _|e Hm _ _|Hm Hall Hreq|e r Hm Hb Hreq Hstat].
    + destruct Hret as [[r Hr]|[e Hr]]; rewrite Hm in Hr; discriminate.
    + destruct Hret as [[r Hr]|[e' Hr]]; rewrite Hm in Hr; discriminate.
    + split; [unfold outcome; by rewrite Hm|]. by rewrite Hreq.
    + apply list_elem_of_lookup in Hb as [i Hb]. apply Hfail in Hb.
      rewrite Hnone in Hb. by apply elem_of_nil in Hb.
  - intros i item p Hi Hin Hp Hid.
    destruct (Hwr i Hin) as (item' & c & Hi' & Hc & Hw).
    rewrite Hi in Hi'. injection Hi' as <-.
    by apply (Hcounts i item c p).
Qed.

(** C4, counterexample.  In the approval of [{P1, 15}] the status update,
    the stock read and the stock write are served and the ledger insert
    fails: [approveSubmission] returns no error, the status stays
    [approved], [P1] holds 15, the ledger has no row, and the main function
    has made no second request. *)
Lemma approval_ignores_a_failed_ledger_insert :
  ~ any_item_failure_is_compensated
  /\ let st := run 5 (start (approveSubmission
                               (sample_submission [item_of P1 15]) admin_user)
                        (submitted_store [item_of P1 15]
                           [answered; answered; answered; dropped])) in
     outcome st = Returned None
     /\ map InventorySubmission.status (inventory_submissions (world st))
        = [approved]
     /\ map Product.stock (products (world st)) = [15; 4]
     /\ stock_movements (world st) = []
     /\ main_requests (journal (world st))
        = [(SubmissionsUpdateStatus "S1" approved, Response.ok)].
Proof.
  split; [|by vm_compute].
  intros H.
  destruct (H (sample_submission [item_of P1 15]) admin_user
              (submitted_store [item_of P1 15]
                 [answered; answered; answered; dropped]) eq_refl)
    as (e & r & Hout & _); [|discriminate Hout].
  eexists 0%nat, _, connection_lost. vm_compute.
  do 3 right. left.
Qed.

(** ** An approval the store serves without fault *)

Lemma filter_id_same_ids i (ps ps0 : list Product.t) p0 :
  map Product.id ps = map Product.id ps0 ->
  filter (id_is i) ps0 = [p0] ->
  exists p, filter (id_is i) ps = [p].
Proof.
  revert ps0 p0. induction ps as [|x ps IH]; intros [|x0 ps0] p0 Hids Hf;
    simpl in Hids; try discriminate.
  injection Hids as Hx Hids.
    assert (Hb : id_is i x = id_is i x0) by (unfold id_is; by rewrite Hx).
  rewrite filter_cons in Hf |- *.
  destruct (decide (id_is i x0)) as [H0|H0];
    destruct (decide (id_is i x)) as [H1|H1];
    try (rewrite Hb in H1; done).
  - injection Hf as _ Hf. exists x. f_equal.
    clear IH. revert ps0 Hids Hf.
    induction ps as [|y ps IH]; intros [|y0 ps0] Hids Hf;
      simpl in Hids; try discriminate; [done|].
    injection Hids as Hy Hids. rewrite filter_cons in Hf |- *.
    assert (Hby : id_is i y = id_is i y0) by (unfold id_is; by rewrite Hy).
    destruct (decide (id_is i y0)); [discriminate|].
    destruct (decide (id_is i y)) as [H2|H2]; [rewrite Hby in H2; done|].
    eauto.
  - eauto.
Qed.

Lemma stock_set_ids i z ps :
  map Product.id (stock_set i z ps) = map Product.id ps.
Proof.
  unfold stock_set. induction ps as [|p ps IH]; simpl; [done|].
  rewrite IH. by destruct (id_is i p).
Qed.

Lemma holds_stock_set_same i z ps : holds i z (stock_set i z ps).
Proof.
  intros p' Hp' Hid. apply stock_set_elem in Hp' as (p & _ & ->).
  destruct (id_is i p) eqn:Hp; [done|].
  apply String.eqb_neq in Hp. done.
Qed.

Lemma holds_stock_set_other i j z z' ps :
  i <> j -> holds j z' ps -> holds j z' (stock_set i z ps).
Proof.
  intros Hne H p' Hp' Hid. apply stock_set_elem in Hp' as (p & Hp & ->).
  destruct (id_is i p) eqn:Hip.
  - apply String.eqb_eq in Hip. simpl in Hid. congruence.
  - by apply H.
Qed.

Lemma holds_stored_stock i ps p :
  filter (id_is i) ps = [p] -> holds i (stored_stock ps i) ps.
Proof.
  intros Hf p' Hp' Hid. unfold stored_stock. rewrite Hf.
  assert (Hin : p' ∈ filter (id_is i) ps).
  { apply list_elem_of_filter. split; [|done].
    unfold id_is. rewrite Hid. by rewrite String.eqb_refl. }
  rewrite Hf in Hin. apply list_elem_of_singleton in Hin. by subst.
Qed.

Lemma holds_filter i z ps p :
  holds i z ps -> filter (id_is i) ps = [p] -> Product.stock p = z.
Proof.
  intros H Hf.
  assert (Hin : p ∈ filter (id_is i) ps) by (rewrite Hf; left).
  apply list_elem_of_filter in Hin as [Hid Hin]. apply H; [done|].
  unfold id_is in Hid. apply Is_true_true in Hid. by apply String.eqb_eq.
Qed.

Lemma served_next w : Forall served (network w) -> Net.fault (next_net w) = None.
Proof.
  unfold next_net. destruct (network w) as [|n ns]; [done|].
  intros H. by inversion H.
Qed.

Lemma serve_served who q w :
  Net.fault (next_net w) = None ->
  serve who q w
  = (let '(r, w2) := perform q (tick w) in (r, log (Served who q r) w2)).
Proof. intros H. unfold serve. by rewrite H. Qed.

Section QuietApproval.
Context (s : InventorySubmission.t) (adminUser : User.t) (w1 : World).

Local Abbreviation ref := (transaction_ref_at "INV" (clock w1)).
Local Abbreviation items := (InventorySubmission.items s).
Local Abbreviation old_of item :=
  (stored_stock (products w1) (InventoryItem.productId item)).

Hypothesis items_distinct : NoDup (map InventoryItem.productId items).
Hypothesis items_exist :
  forall item, item ∈ items ->
    exists p, filter (id_is (InventoryItem.productId item)) (products w1) = [p].

(** The stage of an item's chain, with what the table holds for it. *)
Inductive item_progress (ps : list Product.t) (item : InventoryItem.t)
  : Chain -> Prop :=
| progress_read :
    holds (InventoryItem.productId item) (old_of item) ps ->
    item_progress ps item (approve_item ref adminUser item)
| progress_write :
    holds (InventoryItem.productId item) (old_of item) ps ->
    item_progress ps item (approve_item_write ref adminUser item (old_of item))
| progress_log :
    holds (InventoryItem.productId item) (InventoryItem.quantity item) ps ->
    item_progress ps item (approve_item_log ref adminUser item (old_of item))
| progress_done :
    holds (InventoryItem.productId item) (InventoryItem.quantity item) ps ->
    item_progress ps item Fulfilled.

(** The rows of the items whose chain is fulfilled, in item order. *)
Fixpoint done_rows (l : list InventoryItem.t) (cs : list Chain)
  : list StockMovement.t :=
  match l, cs with
  | item :: l, c :: cs =>
      (if is_fulfilled c then [approval_row ref adminUser item (old_of item)]
       else []) ++ done_rows l cs
  | _, _ => []
  end.

Record quiet_inv (st : State (option JsError.t)) : Prop := {
  quiet_net : Forall served (network (world st));
  quiet_ids :
    map Product.id (products (world st)) = map Product.id (products w1);
  quiet_progress :
    Forall2 (item_progress (products (world st))) items (promises st);
  quiet_ledger :
    exists rows,
      stock_movements (world st) = stock_movements w1 ++ rows
      /\ map supplied rows ≡ₚ done_rows items (promises st);
  quiet_main : main st = approval_join s \/ main st = Return None }.

Lemma item_progress_cases ps item q k :
  item_progress ps item (Then q k) ->
  (Then q k = approve_item ref adminUser item
   /\ holds (InventoryItem.productId item) (old_of item) ps)
  \/ (Then q k = approve_item_write ref adminUser item (old_of item)
      /\ holds (InventoryItem.productId item) (old_of item) ps)
  \/ (Then q k = approve_item_log ref adminUser item (old_of item)
      /\ holds (InventoryItem.productId item) (InventoryItem.quantity item) ps).
Proof. intros H. inversion H; auto. Qed.

Lemma progress_unbroken ps l cs :
  Forall2 (item_progress ps) l cs -> first_broken cs = None.
Proof.
  induction 1 as [|item c l cs Hc _ IH]; simpl; [done|].
  by inversion Hc; subst.
Qed.

Lemma progress_other ps item c i z :
  InventoryItem.productId item <> i ->
  item_progress ps item c -> item_progress (stock_set i z ps) item c.
Proof.
  intros Hne H. inversion H; subst; constructor;
    apply holds_stock_set_other; auto.
Qed.

Lemma done_rows_insert_unfulfilled l cs i c c' :
  cs !! i = Some c -> is_fulfilled c = false -> is_fulfilled c' = false ->
  done_rows l (<[i := c']> cs) = done_rows l cs.
Proof.
  revert cs i. induction l as [|item l IH]; intros [|c0 cs] [|i] Hi Hc Hc';
    simpl in *; try done.
  - injection Hi as ->. by rewrite Hc, Hc'.
  - f_equal. eauto.
Qed.

Lemma done_rows_insert_fulfilled l cs i c item :
  l !! i = Some item -> cs !! i = Some c -> is_fulfilled c = false ->
  done_rows l (<[i := Fulfilled]> cs)
  ≡ₚ done_rows l cs ++ [approval_row ref adminUser item (old_of item)].
Proof.
  revert cs i. induction l as [|x l IH]; intros [|c0 cs] [|i] Hl Hi Hc;
    simpl in *; try done.
  - injection Hi as ->. injection Hl as ->. rewrite Hc. simpl.
    apply Permutation_cons_append.
  - rewrite <- app_assoc. apply Permutation_app_head. eauto.
Qed.

Lemma done_rows_all l cs :
  length l = length cs -> Forall (fun c => c = Fulfilled) cs ->
  done_rows l cs
  = map (fun item => approval_row ref adminUser item (old_of item)) l.
Proof.
  revert cs. induction l as [|item l IH]; intros [|c cs] Hlen Hall;
    simpl in *; try done.
  inversion Hall; subst. simpl. f_equal. apply IH; auto.
Qed.

Lemma quiet_settle st cs w :
  main st = approval_join s \/ main st = Return None ->
  Forall2 (item_progress (products w)) items cs ->
  let st' := settle (main st) cs w in
  promises st' = cs /\ world st' = w
  /\ (main st' = approval_join s \/ main st' = Return None).
Proof.
  intros [Hm|Hm] Hprog st'; subst st'; rewrite Hm; [|simpl; auto].
  rewrite settle_approval_join. unfold Promise_all.
  rewrite (progress_unbroken _ _ _ Hprog).
  destruct (forallb is_fulfilled cs); simpl; auto.
Qed.

Lemma quiet_step st : quiet_inv st -> quiet_inv (step st).
Proof.
  intros [Hnet Hids Hprog (rows & Hrows & Hperm) Hmain].
  destruct (step_is_step_of st) as [H|q k H|i q k Hi].
  - by split; eauto.
  - destruct Hmain as [Hm|Hm]; rewrite Hm in H; discriminate.
  - destruct (Forall2_lookup_r _ _ _ _ _ Hprog Hi) as (item & Hitem & Hstage).
    pose proof (served_next _ Hnet) as Hok.
    rewrite (serve_served _ _ _ Hok).
    assert (Hin : item ∈ items) by (eapply list_elem_of_lookup_2; eauto).
    assert (Htail : Forall served (tail (network (world st)))).
    { destruct (network (world st)); [done|]. by inversion Hnet. }
    destruct (item_progress_cases _ _ _ _ Hstage)
      as [[Hc Hh]|[[Hc Hh]|[Hc Hh]]].
    + (* the read *)
      unfold approve_item in Hc. injection Hc as -> ->. simpl.
      destruct (items_exist item Hin) as [p0 Hp0].
      destruct (filter_id_same_ids _ _ _ _ Hids Hp0) as [p Hp].
      rewrite Hp. simpl. rewrite (holds_filter _ _ _ _ Hh Hp).
      set (cs := <[i := _]> (promises st)).
      assert (Hprog' : Forall2 (item_progress (products (world st))) items cs).
      { subst cs. eapply Forall2_insert_right; eauto. by constructor. }
      destruct (quiet_settle st cs
                  (log (Served (PromiseAt i)
                          (ProductsSelectStockById (InventoryItem.productId item))
                          (Response.row p)) (tick (world st))) Hmain Hprog')
        as (Hcs & Hw & Hm').
      split; rewrite ?Hcs, ?Hw; simpl; auto.
      exists rows. split; [done|]. subst cs.
      erewrite done_rows_insert_unfulfilled; eauto.
    + (* the write *)
      unfold approve_item_write in Hc. injection Hc as -> ->. simpl.
      set (cs := <[i := _]> (promises st)).
      set (ps' := map _ (products (world st))).
      assert (Hps' : ps' = stock_set (InventoryItem.productId item)
                             (InventoryItem.quantity item)
                             (products (world st))) by done.
      assert (Hprog' : Forall2 (item_progress ps') items cs).
      { subst cs. apply Forall2_same_length_lookup_2.
        - rewrite length_insert. by eapply Forall2_length.
        - intros j x y Hx Hy. destruct (decide (j = i)) as [->|Hne].
          + rewrite list_lookup_insert_eq in Hy
              by (eapply lookup_lt_Some; eauto).
            injection Hy as <-. rewrite Hitem in Hx. injection Hx as <-.
            constructor. rewrite Hps'. apply holds_stock_set_same.
          + rewrite list_lookup_insert_ne in Hy by done.
            rewrite Hps'. apply progress_other.
            * intros Heq. apply Hne.
              eapply (NoDup_lookup _ j i); [exact items_distinct| |].
              -- rewrite list_lookup_fmap, Hx. reflexivity.
              -- rewrite list_lookup_fmap, Hitem. simpl. by rewrite Heq.
            * eapply Forall2_lookup_lr; eauto. }
      destruct (quiet_settle st cs
                  (log (Served (PromiseAt i)
                          (ProductsUpdateStock (InventoryItem.productId item)
                             (InventoryItem.quantity item)) Response.ok)
                     (set_products ps' (tick (world st)))) Hmain Hprog')
        as (Hcs & Hw & Hm').
      split; rewrite ?Hcs, ?Hw; simpl; auto.
      * rewrite Hps', stock_set_ids. done.
      * exists rows. split; [done|]. subst cs.
        erewrite done_rows_insert_unfulfilled; eauto.
    + (* the ledger insert *)
      unfold approve_item_log in Hc. injection Hc as -> ->. simpl.
      set (cs := <[i := Fulfilled]> (promises st)).
      assert (Hprog' : Forall2 (item_progress (products (world st))) items cs).
      { subst cs. eapply Forall2_insert_right; eauto. by constructor. }
      match goal with
      | |- quiet_inv (settle _ _ ?w) =>
          destruct (quiet_settle st cs w Hmain Hprog') as (Hcs & Hw & Hm')
      end.
      split; rewrite ?Hcs, ?Hw; simpl; auto.
      eexists (rows ++ [_]). split; [by rewrite Hrows, <- app_assoc|].
      rewrite map_app. simpl. subst cs.
      rewrite (done_rows_insert_fulfilled _ _ _ _ item Hitem Hi eq_refl).
      by apply Permutation_app_tail.
Qed.
Lemma quiet_running_inv :
  Forall served (network w1) -> quiet_inv (approval_running s adminUser w1).
Proof.
  intros Hnet. unfold approval_running.
  set (cs := map (approve_item ref adminUser) items).
  assert (Hprog : Forall2 (item_progress (products w1)) items cs).
  { subst cs. apply Forall2_fmap_r, Forall_Forall2_diag, Forall_forall.
    intros item Hin. constructor.
    destruct (items_exist item Hin) as [p Hp].
    by eapply holds_stored_stock. }
  destruct (quiet_settle (Build_State (approval_join s) cs w1) cs w1
              (or_introl eq_refl) Hprog) as (Hcs & Hw & Hm).
  simpl in *. split; rewrite ?Hcs, ?Hw; auto.
  exists []. rewrite app_nil_r. split; [done|].
  replace (done_rows items cs) with (@nil StockMovement.t); [done|].
  subst cs. clear. induction items; simpl; auto.
Qed.

Lemma quiet_run n :
  Forall served (network w1) ->
  quiet_inv (run n (approval_running s adminUser w1)).
Proof.
  intros Hnet. apply run_invariant; [apply quiet_step|].
  by apply quiet_running_inv.
Qed.

(** When nothing is in flight any more, every item is done. *)
Lemma progress_end ps l cs :
  Forall2 (item_progress ps) l cs ->
  Forall (fun c => chain_waits c = false) cs ->
  Forall (fun c => c = Fulfilled) cs
  /\ forall item, item ∈ l ->
       holds (InventoryItem.productId item) (InventoryItem.quantity item) ps.
Proof.
  induction 1 as [|item c l cs Hc Hprog IH]; intros Hfl; [split; [done|]|].
  - intros item Hin. inversion Hin.
  - inversion Hfl as [|? ? Hw Hfl']; subst.
    destruct (IH Hfl') as [Hall Hholds].
    inversion Hc; subst; try discriminate. split; [by constructor|].
    intros x Hx. apply elem_of_cons in Hx as [->|Hx]; auto.
Qed.

Lemma quiet_end st :
  quiet_inv st -> in_flight st = [] ->
  Forall (fun c => c = Fulfilled) (promises st)
  /\ forall item, item ∈ items ->
       holds (InventoryItem.productId item) (InventoryItem.quantity item)
         (products (world st)).
Proof.
  intros [_ _ Hprog _ _] Hfl. unfold in_flight in Hfl.
  apply app_eq_nil in Hfl as [Hfl _]. apply waiting_chains_nil in Hfl.
  by apply progress_end.
Qed.
End QuietApproval.

(** C3. In an approval that the store serves without fault, of a
    submission with one line per product, each product being one row of the
    table: every item's product ends with stock exactly [item.quantity]
    (the count replaces the stock), and the ledger gains, for every item,
    one row of type [submission] with [old_stock_level] the stock read
    before the write, [new_stock_level = item.quantity] and
    [quantity_change = item.quantity - old_stock_level] as the source
    computes it ([Double.sub]), all in one transaction reference. *)
Theorem approval_applies_counts s adminUser w :
  Forall served (network w) ->
  NoDup (map InventoryItem.productId (InventorySubmission.items s)) ->
  (forall item, item ∈ InventorySubmission.items s ->
     exists p,
       filter (id_is (InventoryItem.productId item)) (products w) = [p]) ->
  let st := run (fuel_of (SubmissionApproval s adminUser))
                (start (approveSubmission s adminUser) w) in
  let transaction_ref :=
    transaction_ref_at "INV" (clock w + Net.elapsed (next_net w)) in
  outcome st = Returned None
  /\ (forall item p,
        item ∈ InventorySubmission.items s -> p ∈ products (world st) ->
        Product.id p = InventoryItem.productId item ->
        Product.stock p = InventoryItem.quantity item)
  /\ exists rows,
       stock_movements (world st) = stock_movements w ++ rows
       /\ map supplied rows
          ≡ₚ map (fun item =>
                    let oldStock :=
                      stored_stock (products w)
                        (InventoryItem.productId item) in
                    movement (InventoryItem.productId item)
                      (InventoryItem.name item) (User.id adminUser)
                      (full_name adminUser +:+ " (Approbation)") submission
                      (Double.sub (InventoryItem.quantity item) oldStock)
                      oldStock (InventoryItem.quantity item) transaction_ref)
                 (InventorySubmission.items s).
Proof.
  intros Hnet Hdistinct Hexist st transaction_ref.
  pose proof (served_next _ Hnet) as Hok.
  destruct (start_finishes _ _ w (approveSubmission_within s adminUser))
    as [Hfl Hret].
  fold (fuel_of (SubmissionApproval s adminUser)) in Hfl, Hret.
  fold st in Hfl, Hret.
  set (w1 := (serve MainThread
                (SubmissionsUpdateStatus (InventorySubmission.id s) approved)
                w).2).
  assert (Hst : st = run (1 + 3 * length (InventorySubmission.items s))
                       (approval_running s adminUser w1))
    by (by apply approval_run_after_status).
  assert (Hw1 : products w1 = products w /\ network w1 = tail (network w)
                /\ clock w1 = (clock w + Net.elapsed (next_net w))%N
                /\ stock_movements w1 = stock_movements w).
  { subst w1. unfold serve. rewrite Hok. simpl. done. }
  destruct Hw1 as (Hp1 & Hn1 & Hc1 & Hm1).
  assert (Hnet1 : Forall served (network w1)).
  { rewrite Hn1. destruct (network w); [done|]. by inversion Hnet. }
  assert (Hexist1 : forall item, item ∈ InventorySubmission.items s ->
            exists p, filter (id_is (InventoryItem.productId item))
                        (products w1) = [p])
    by (by rewrite Hp1).
  pose proof (quiet_run s adminUser w1 Hdistinct Hexist1
                (1 + 3 * length (InventorySubmission.items s)) Hnet1) as Hinv.
  rewrite <- Hst in Hinv.
  destruct (quiet_end s adminUser w1 st Hinv Hfl) as [Hall Hholds].
  destruct Hinv as [_ _ Hprog (rows & Hrows & Hperm) Hmain].
  split; [|split].
  - unfold outcome.
    destruct Hmain as [Hm|Hm]; rewrite Hm; [|done].
    destruct Hret as [[r Hr]|[e Hr]]; rewrite Hm in Hr; discriminate.
  - intros item p Hitem Hp Hid. by apply (Hholds item).
  - exists rows. split; [by rewrite Hrows, Hm1|].
    rewrite Hperm, done_rows_all; auto.
    + unfold transaction_ref, approval_row. by rewrite Hc1, Hp1.
    + by eapply Forall2_length.
Qed.

(** ** Transaction references *)

Lemma pretty_N_char_digit x : is_digit (pretty_N_char x) = true.
Proof.
  unfold pretty_N_char. by repeat case_match.
Qed.

Lemma pretty_N_go_digits x s :
  all_digits s = true -> all_digits (pretty_N_go x s) = true.
Proof.
  revert s. induction (N.lt_wf_0 x) as [x _ IH]; intros s Hs.
  assert (x = 0 \/ 0 < x)%N as [->|Hx] by lia.
  - by rewrite pretty_N_go_0.
  - rewrite pretty_N_go_step by done. apply IH.
    + by apply N.div_lt.
    + simpl. by rewrite pretty_N_char_digit, Hs.
Qed.

Lemma pretty_N_go_nonempty x s : s <> "" -> pretty_N_go x s <> "".
Proof.
  revert s. induction (N.lt_wf_0 x) as [x _ IH]; intros s Hs.
  assert (x = 0 \/ 0 < x)%N as [->|Hx] by lia.
  - by rewrite pretty_N_go_0.
  - rewrite pretty_N_go_step by done. apply IH; [by apply N.div_lt|done].
Qed.

Lemma pretty_N_decimal (x : N) :
  all_digits (pretty x) = true /\ pretty x <> "".
Proof.
  unfold pretty, pretty_N. destruct (decide (x = 0%N)) as [->|Hx]; [done|].
  split; [by apply pretty_N_go_digits|].
  assert (0 < x)%N by lia.
  rewrite pretty_N_go_step by done. by apply pretty_N_go_nonempty.
Qed.

Lemma well_formed_ref_at a b c (t : N) :
  is_upper a = true -> is_upper b = true -> is_upper c = true ->
  well_formed_ref
    (String a (String b (String c (String "-" (pretty t))))) = true.
Proof.
  intros Ha Hb Hc. simpl. rewrite Ha, Hb, Hc. simpl.
  destruct (pretty_N_decimal t) as [Hd Hne]. rewrite Hd.
  destruct (String.eqb_spec (pretty t) ""); [done|]. done.
Qed.

Lemma ref_prefix_well_formed op t :
  transaction_ref_at (ref_prefix op) t = ref_prefix op +:+ "-" +:+ pretty t
  /\ well_formed_ref (transaction_ref_at (ref_prefix op) t) = true.
Proof.
  destruct op as [| | |? ? []| |]; (split; [reflexivity|]);
    by apply well_formed_ref_at.
Qed.

Lemma settle_ledger {R} (m : Async R) ps w :
  stock_movements (world (settle m ps w)) = stock_movements w.
Proof.
  revert ps w. induction m as [| |q k IH|k IH|c k IH|k IH|e k IH];
    intros ps w; simpl; auto.
  - destruct (Promise_all ps); simpl; auto.
  - by rewrite IH.
Qed.

Lemma step_ledger_grows {R} (s : State R) :
  exists rows,
    stock_movements (world (step s)) = stock_movements (world s) ++ rows.
Proof.
  destruct (step_is_step_of s) as [H|q k H|i q k H].
  - exists []. by rewrite app_nil_r.
  - pose proof (serve_ledger MainThread q (world s)) as Hl.
    destruct (serve _ _ _) as [r w]. rewrite settle_ledger. simpl in Hl.
    destruct Hl as [->|(m & u & t & _ & _ & ->)]; eauto.
    exists []. by rewrite app_nil_r.
  - pose proof (serve_ledger (PromiseAt i) q (world s)) as Hl.
    destruct (serve _ _ _) as [r w]. rewrite settle_ledger. simpl in Hl.
    destruct Hl as [->|(m & u & t & _ & _ & ->)]; eauto.
    exists []. by rewrite app_nil_r.
Qed.

Lemma run_ledger_grows {R} k (s : State R) :
  exists rows,
    stock_movements (world (run k s)) = stock_movements (world s) ++ rows.
Proof.
  revert s. induction k as [|k IH]; intros s; simpl.
  - exists []. by rewrite app_nil_r.
  - destruct (IH (step s)) as [r2 H2].
    destruct (step_ledger_grows s) as [r1 H1].
    exists (r1 ++ r2). by rewrite H2, H1, app_assoc.
Qed.

Lemma run_add {R} a b (s : State R) : run (a + b) s = run b (run a s).
Proof. revert s. induction a as [|a IH]; intros s; simpl; auto. Qed.

(** What holds of the rows of a full run holds of the rows of any run. *)
Lemma rows_at_any_fuel {R} (Q : StockMovement.t -> Prop) n fuel
    (m : Async R) w :
  async_within fuel m ->
  (exists rows,
     stock_movements (world (run fuel (start m w))) = stock_movements w ++ rows
     /\ Forall Q rows) ->
  exists rows,
    stock_movements (world (run n (start m w))) = stock_movements w ++ rows
    /\ Forall Q rows.
Proof.
  intros Hm (rows & Hrows & HQ).
  destruct (le_lt_dec n fuel) as [Hle|Hlt].
  - replace fuel with (n + (fuel - n))%nat in Hrows by lia.
    rewrite run_add in Hrows.
    destruct (run_ledger_grows n (start m w)) as [r1 H1].
    destruct (run_ledger_grows (fuel - n) (run n (start m w))) as [r2 H2].
    unfold start in H1 at 2. rewrite settle_ledger in H1.
    rewrite H2, H1, <- app_assoc in Hrows. apply app_inv_head in Hrows.
    exists r1. split; [done|]. subst rows. by apply Forall_app in HQ as [? _].
  - replace n with (fuel + (n - fuel))%nat by lia. rewrite run_add.
    rewrite run_quiescent; [eauto|].
    apply run_reaches_quiescence. eapply settle_within; eauto. simpl. lia.
Qed.

Ltac within :=
  repeat first
    [ progress intros
    | match goal with
      | |- async_within _ (match ?x with _ => _ end) => destruct x eqn:?
      | |- chain_within _ (match ?x with _ => _ end) => destruct x eqn:?
      | |- chain_within _ _ => constructor
      | |- async_within _ _ => constructor
      | |- async_within _ ?m =>
          match m with
          | context [match ?x with _ => _ end] => destruct x eqn:?; simpl
          end
      end ].

Lemma for_of_within {A} n (l : list A) body :
  (forall x, async_within n (body x)) ->
  async_within (n * length l) (for_of l body).
Proof.
  intros H. induction l as [|x l IH]; simpl; [constructor|].
  replace (n * S (length l))%nat with (n + n * length l)%nat by lia.
  apply bind_within; auto.
Qed.

(** Every operation comes to an end within [fuel_of] round trips. *)
Lemma invoke_within op : async_within (fuel_of op) (invoke op).
Proof.
  destruct op as [product user|product user|product quantity user
                 |productId quantity movementType adminUser
                 |s adminUser|depotName inventory adminUser]; simpl.
  - unfold addProduct, addStockMovement, generateTransactionRef, await,
      Date_now. simpl. within.
  - unfold updateProduct, addStockMovement, generateTransactionRef, await,
      Date_now. simpl. within.
  - unfold depotRecordConsumption, addStockMovement, generateTransactionRef,
      await, Date_now, client. simpl. within.
  - unfold adminCreateMovement, addStockMovement, generateTransactionRef,
      await, Date_now, client. simpl. within.
  - apply approveSubmission_within.
  - unfold setDepotInventory, generateTransactionRef, Date_now. simpl.
    constructor. intros t.
    replace (length inventory + (length inventory + (length inventory + 0)))%nat
      with (3 * length inventory + 0)%nat by lia.
    apply bind_within.
    + apply for_of_within. intros [product newStock].
      unfold await, client, push. simpl. constructor. intros r.
      destruct (match Response.error r with
                | Some findError => negb (is_PGRST116 findError)
                | None => false
                end); [repeat constructor|].
      destruct (Response.data r) as [existing|].
      * destruct (Product.stock existing =? newStock); [constructor|].
        apply (within_push 2 0). 2: constructor.
        unfold recount_existing. within.
      * destruct (0 <? newStock); [|constructor].
        apply (within_push 2 0). 2: constructor.
        unfold create_at_depot. within.
    + intros _. unfold await_Promise_all, client. simpl. constructor.
      intros [e|]; simpl; repeat constructor.
Qed.

Lemma invoke_edit_sequential product user :
  sequential 3 (invoke (ProductEdit product user)).
Proof.
  unfold invoke, updateProduct, addStockMovement, generateTransactionRef,
    await, Date_now. simpl. sequential.
Qed.

(** Case analysis on what the store answers along a run. *)
Ltac answer_cases :=
  repeat (simpl;
    match goal with
    | |- context [serve _ _ _] => unfold serve, next_net, tick
    | |- context [single ?l] => destruct l as [|? [|? ?]] eqn:?
    | |- context [match Net.fault ?n with _ => _ end] =>
        destruct (Net.fault n) eqn:?
    | |- context [match ?l with [] => _ | _ :: _ => _ end] => destruct l eqn:?
    | |- context [if ?b then _ else _] => destruct b eqn:?
    end); simpl.

Lemma upper_ascii_upper c : is_upper c = true -> upper_ascii c = c.
Proof.
  unfold is_upper, upper_ascii. intros H.
  apply andb_true_iff in H as [_ H]. apply N.leb_le in H.
  destruct (N.leb_spec 97 (N_of_ascii c)); [lia|done].
Qed.

Lemma transaction_ref_at_well_formed a b c t :
  is_upper a = true -> is_upper b = true -> is_upper c = true ->
  well_formed_ref
    (transaction_ref_at (String a (String b (String c EmptyString))) t) = true.
Proof.
  intros Ha Hb Hc. unfold transaction_ref_at. cbn [toUpperCase].
  rewrite !upper_ascii_upper by done. by apply well_formed_ref_at.
Qed.

Lemma transaction_ref_at_literal a b c (t t' : N) :
  is_upper a = true -> is_upper b = true -> is_upper c = true -> t = t' ->
  transaction_ref_at (String a (String b (String c EmptyString))) t
  = String a (String b (String c EmptyString)) +:+ "-" +:+ pretty t'.
Proof.
  intros Ha Hb Hc <-. unfold transaction_ref_at. cbn [toUpperCase].
  by rewrite !upper_ascii_upper.
Qed.

Ltac ref_rows :=
  first
    [ exists (@nil StockMovement.t); split;
      [ by rewrite ?app_nil_r | by constructor ]
    | eexists (cons _ nil); split; [reflexivity|];
      constructor; [|by constructor]; split;
      cbn [StockMovement.transaction_ref StockMovement.stored movement];
      [ apply transaction_ref_at_literal;
        [reflexivity..|unfold next_net, tick; simpl; lia]
      | by apply transaction_ref_at_well_formed ] ].

Lemma create_refs product user w :
  exists rows,
    stock_movements (world (exec (invoke (ProductCreate product user)) w))
    = stock_movements w ++ rows
    /\ Forall (has_ref "CRE" (clock_after 1 w)) rows.
Proof.
  destruct w as [ps ms ss cs t net j]. unfold clock_after, has_ref.
  unfold invoke, addProduct, addStockMovement, generateTransactionRef, await,
    Date_now.
  answer_cases; ref_rows.
Qed.

Lemma edit_refs product user w :
  exists rows,
    stock_movements (world (exec (invoke (ProductEdit product user)) w))
    = stock_movements w ++ rows
    /\ Forall (has_ref "MAJ" (clock_after 2 w)) rows.
Proof.
  destruct w as [ps ms ss cs t net j]. unfold clock_after, has_ref.
  unfold invoke, updateProduct, addStockMovement, generateTransactionRef,
    await, Date_now.
  answer_cases; ref_rows.
Qed.

Lemma consumption_refs product quantity user w :
  exists rows,
    stock_movements
      (world (exec (invoke (DepotConsumption product quantity user)) w))
    = stock_movements w ++ rows
    /\ Forall (has_ref "CON" (clock_after 1 w)) rows.
Proof.
  destruct w as [ps ms ss cs t net j]. unfold clock_after, has_ref.
  unfold invoke, depotRecordConsumption, addStockMovement,
    generateTransactionRef, await, Date_now, client.
  answer_cases; ref_rows.
Qed.

Lemma admin_refs productId quantity movementType adminUser w :
  exists rows,
    stock_movements
      (world (exec (invoke (AdminMovement productId quantity movementType
                              adminUser)) w))
    = stock_movements w ++ rows
    /\ Forall (has_ref
                 (ref_prefix (AdminMovement productId quantity movementType
                                adminUser))
                 (clock_after 2 w)) rows.
Proof.
  destruct w as [ps ms ss cs t net j]. unfold clock_after, has_ref.
  unfold invoke, adminCreateMovement, addStockMovement,
    generateTransactionRef, await, Date_now, client.
  destruct movementType; answer_cases; ref_rows.
Qed.

Lemma has_ref_at a b c t m :
  is_upper a = true -> is_upper b = true -> is_upper c = true ->
  StockMovement.transaction_ref m
  = transaction_ref_at (String a (String b (String c EmptyString))) t ->
  has_ref (String a (String b (String c EmptyString))) t m.
Proof.
  intros Ha Hb Hc Hm. unfold has_ref. rewrite Hm. split.
  - by apply transaction_ref_at_literal.
  - by apply transaction_ref_at_well_formed.
Qed.

Lemma clock_after_one w :
  clock_after 1 w = (clock w + Net.elapsed (next_net w))%N.
Proof.
  unfold clock_after, next_net. destruct (network w); simpl; lia.
Qed.

Lemma approval_join_asks P s :
  P (SubmissionsUpdateStatus (InventorySubmission.id s) pending) ->
  async_asks P (approval_join s).
Proof.
  intros HP. unfold approval_join, await_Promise_all, client,
    updateSubmissionStatus, await. simpl. constructor. intros [e|]; simpl.
  - constructor. constructor; [done|]. intros. constructor.
  - constructor.
Qed.

Lemma approval_refs s adminUser w n :
  exists rows,
    stock_movements
      (world (run n (start (invoke (SubmissionApproval s adminUser)) w)))
    = stock_movements w ++ rows
    /\ Forall (has_ref "INV" (clock_after 1 w)) rows.
Proof.
  destruct n as [|n]; cbn [run invoke].
  - unfold start. rewrite settle_ledger. exists []. by rewrite app_nil_r.
  - rewrite approval_first_step.
    pose proof (serve_ledger MainThread
      (SubmissionsUpdateStatus (InventorySubmission.id s) approved) w) as Hl.
    pose proof (serve_clock MainThread
      (SubmissionsUpdateStatus (InventorySubmission.id s) approved) w) as Hc.
    destruct (serve _ _ _) as [r w']. simpl in Hl, Hc.
    destruct Hl as [Hl|(m & _ & _ & Hq & _)]; [|discriminate].
    destruct (Response.error r).
    + rewrite run_quiescent by done. simpl. rewrite Hl.
      exists []. by rewrite app_nil_r.
    + apply (run_appends (has_ref "INV" (clock_after 1 w))); [done| |].
      * unfold approval_running.
        apply (settle_keeps (inserts (has_ref "INV" (clock_after 1 w)))
                 (fun _ => True)); auto.
        -- apply approval_join_asks. intros m Hm. discriminate.
        -- apply Forall_forall. intros c Hin.
           apply list_elem_of_fmap in Hin as (item & -> & _).
           unfold approve_item, approve_item_write, approve_item_log.
           asks. apply has_ref_at; try reflexivity. simpl.
           by rewrite clock_after_one, Hc.
      * unfold approval_running. rewrite settle_ledger, Hl.
        exists []. by rewrite app_nil_r.
Qed.

Lemma setDepotInventory_unfold depotName inventory adminUser :
  setDepotInventory depotName inventory adminUser
  = DateNow (fun t =>
      bulk_set_with (transaction_ref_at "INV" t) depotName inventory adminUser).
Proof. reflexivity. Qed.

Lemma bulk_refs depotName inventory adminUser w n :
  exists rows,
    stock_movements
      (world (run n (start (invoke (BulkInventorySet depotName inventory
                                      adminUser)) w)))
    = stock_movements w ++ rows
    /\ Forall (has_ref "INV" (clock_after 0 w)) rows.
Proof.
  simpl. rewrite setDepotInventory_unfold. unfold start. simpl.
  apply (start_appends (has_ref "INV" (clock_after 0 w))); [done|].
  unfold bulk_set_with, await, await_Promise_all, client, push. simpl. asks.
  apply for_of_asks. intros [product newStock] Hin. simpl. asks.
  - unfold recount_existing. asks. apply has_ref_at; try reflexivity. simpl.
    unfold clock_after. simpl. f_equal. lia.
  - unfold create_at_depot. asks. apply has_ref_at; try reflexivity. simpl.
    unfold clock_after. simpl. f_equal. lia.
Qed.

(** C7. Every transaction reference an operation writes to the ledger is
    [<prefix>-<epoch milliseconds>]: three upper-case letters ([CRE] for
    create, [MAJ] for edit, [CON] for consumption, [ENT]/[SOR] for admin
    entry/exit, [INV] for approval and bulk set), a dash, and the decimal
    reading of the clock when the operation drew the reference.  The reference
    is drawn once per call: all rows of one [approveSubmission] call carry
    the reference drawn right after the status update, before any item is
    processed. *)
Theorem transaction_refs op w n :
  exists rows,
    stock_movements (world (run n (start (invoke op) w)))
    = stock_movements w ++ rows
    /\ Forall (fun m =>
         StockMovement.transaction_ref m
         = ref_prefix op +:+ "-"
           +:+ pretty (clock_after (trips_before_ref op) w)
         /\ well_formed_ref (StockMovement.transaction_ref m) = true) rows.
Proof.
  destruct op as [product user|product user|product quantity user
                 |productId quantity movementType adminUser
                 |s adminUser|depotName inventory adminUser].
  - eapply rows_at_any_fuel; [apply invoke_within|]. simpl fuel_of.
    rewrite run_sequential by apply addProduct_sequential.
    apply create_refs.
  - eapply rows_at_any_fuel; [apply invoke_within|]. simpl fuel_of.
    rewrite run_sequential by apply invoke_edit_sequential.
    apply edit_refs.
  - eapply rows_at_any_fuel; [apply invoke_within|]. simpl fuel_of.
    rewrite run_sequential by apply depotRecordConsumption_sequential.
    apply consumption_refs.
  - eapply rows_at_any_fuel; [apply invoke_within|]. simpl fuel_of.
    rewrite run_sequential by apply adminCreateMovement_sequential.
    apply admin_refs.
  - apply approval_refs.
  - apply bulk_refs.
Qed.

(** ** Product edit *)

Lemma filter_id_overwritten i p ps p0 :
  filter (id_is i) ps = [p0] ->
  filter (id_is i)
    (map (fun r => if id_is i r then Product.overwritten p r else r) ps)
  = [Product.overwritten p p0].
Proof.
  revert p0. induction ps as [|x ps IH]; intros p0 Hf; [done|].
  rewrite filter_cons in Hf. simpl. rewrite filter_cons.
  destruct (id_is i x) eqn:Hx.
  - destruct (decide (id_is i x)) as [_|Hn]; [|by rewrite Hx in Hn].
    injection Hf as -> Hf.
    destruct (decide (id_is i (Product.overwritten p p0))) as [_|Hn];
      [|unfold id_is in *; simpl in Hn; by rewrite Hx in Hn].
    f_equal. clear IH Hx. induction ps as [|y ps IH]; [done|].
    rewrite filter_cons in Hf. simpl. rewrite filter_cons.
    destruct (decide (id_is i y)) as [|Hy]; [discriminate|].
    destruct (id_is i y) eqn:Hy'; [done|].
    destruct (decide (id_is i y)) as [Hy''|_]; [by rewrite Hy' in Hy''|].
    auto.
  - destruct (decide (id_is i x)) as [Hn|_]; [by rewrite Hx in Hn|].
    auto.
Qed.

(** Symbolic execution of a round trip the store serves. *)
Ltac served_trip :=
  try (progress unfold serve, next_net, tick); simpl;
  repeat match goal with
         | H : Net.fault _ = None |- _ => rewrite H
         end;
  simpl.

(** C6. [updateProduct] appends a ledger row if and only if the new stock
    differs from the stored one.  Whatever the store answers it appends at
    most one row, and that row is of type [update], with
    [quantity_change = newStock - oldStock] as the source computes it
    ([Double.sub]), not zero, and a reference prefixed [MAJ]: so an edit with unchanged stock appends nothing.  When
    the stock is changed and the store serves the edit, it appends exactly
    one row. *)
Theorem edit_logs_exactly_the_change product user w :
  let st := run 3 (start (updateProduct product user) w) in
  (exists rows,
     stock_movements (world st) = stock_movements w ++ rows
     /\ (rows = []
         \/ exists row p0,
              rows = [row]
              /\ filter (id_is (Product.id product)) (products w) = [p0]
              /\ edit_row product (Product.stock p0) row))
  /\ forall p0,
       filter (id_is (Product.id product)) (products w) = [p0] ->
       (Product.stock product = Product.stock p0 ->
        stock_movements (world st) = stock_movements w)
       /\ (Product.stock product <> Product.stock p0 ->
           Forall served (take 3 (network w)) ->
           exists row,
             stock_movements (world st) = stock_movements w ++ [row]
             /\ edit_row product (Product.stock p0) row).
Proof.
  intros st.
  assert (Hany : exists rows,
     stock_movements (world st) = stock_movements w ++ rows
     /\ (rows = []
         \/ exists row p0,
              rows = [row]
              /\ filter (id_is (Product.id product)) (products w) = [p0]
              /\ edit_row product (Product.stock p0) row)).
  { subst st. rewrite run_sequential by apply updateProduct_sequential.
    destruct w as [ps ms ss cs t net j].
    unfold updateProduct, addStockMovement, generateTransactionRef, await,
      Date_now.
    answer_cases;
      try (exists (@nil StockMovement.t); split;
           [by rewrite app_nil_r | by left]).
    all: eexists (cons _ nil); split; [reflexivity|]; right;
      eexists _, _; split; [reflexivity|]; split; [reflexivity|];
      unfold edit_row; simpl.
    all: match goal with
         | H : filter _ (map _ _) = [?d] |- _ =>
             let H' := fresh in
             assert (H' : Product.stock d = Product.stock product);
             [ assert (Hin : d ∈ filter (id_is (Product.id product))
                        (map (fun r => if id_is (Product.id product) r
                                       then Product.overwritten
                                              (Product.with_updated_at _ product) r
                                       else r) ps))
                 by (rewrite H; left);
               apply list_elem_of_filter in Hin as [Hid Hin];
               apply list_elem_of_fmap in Hin as (x0 & -> & _);
               destruct (id_is (Product.id product) x0) eqn:Hx0;
                 [done | by rewrite Hx0 in Hid]
             | rewrite H' ]
         end.
    all: repeat split; eauto; by apply Z.eqb_neq. }
  split; [exact Hany|]. intros p0 Hp0. split.
  - intros Heq. destruct Hany as (rows & -> & [->|(row & p & -> & Hp & Hrow)]).
    + by rewrite app_nil_r.
    + rewrite Hp0 in Hp. injection Hp as <-.
      destruct Hrow as (_ & _ & _ & Hq & Hnz & _).
      rewrite Hq, sub_zero in Hnz. done.
  - intros Hne Hserved. subst st.
    rewrite run_sequential by apply updateProduct_sequential.
    destruct w as [ps ms ss cs t net j]. simpl in Hp0.
    unfold updateProduct, addStockMovement, generateTransactionRef, await,
      Date_now.
    simpl in Hserved. unfold served in Hserved.
    destruct net as [|n1 [|n2 [|n3 rest]]]; simpl in Hserved;
      repeat match goal with
             | H : Forall _ (_ :: _) |- _ => inversion H; subst; clear H
             end.
    all: simpl; served_trip; rewrite Hp0; simpl; served_trip;
      rewrite (filter_id_overwritten _ _ _ _ Hp0); simpl;
      (destruct (Z.eqb_spec
                   (Double.sub (Product.stock product) (Product.stock p0)) 0)
         as [Hz|]; [by rewrite sub_zero in Hz|]); simpl; served_trip.
    all: eexists; (split; [reflexivity|]); unfold edit_row; simpl;
      repeat split; eauto.
Qed.

(** ** Non-negative stock *)

Lemma serve_nonneg who q w :
  writes_nonneg q -> nonneg_stock w -> nonneg_stock (serve who q w).2.
Proof.
  unfold nonneg_stock, serve. intros Hq Hw.
  destruct (Net.fault (next_net w)); simpl; [done|].
  destruct q as [p|i|i|c l|i p|i z|m|x|i st|m]; simpl in *; try done.
  - apply Forall_app. split; [done|]. by repeat constructor.
  - apply Forall_fmap. eapply Forall_impl; [exact Hw|]. intros x Hx. simpl.
    by destruct (id_is i x).
  - apply Forall_fmap. eapply Forall_impl; [exact Hw|]. intros x Hx. simpl.
    by destruct (id_is i x).
Qed.

Lemma invoke_writes_nonneg op :
  supplied_nonneg op -> async_asks writes_nonneg (invoke op).
Proof.
  destruct op as [product user|product user|product quantity user
                 |productId quantity movementType adminUser
                 |s adminUser|depotName inventory adminUser]; simpl;
    intros Hop.
  - unfold addProduct, addStockMovement, generateTransactionRef, await,
      Date_now. simpl. asks; simpl; done.
  - unfold updateProduct, addStockMovement, generateTransactionRef, await,
      Date_now. simpl. asks; simpl; done.
  - unfold depotRecordConsumption, addStockMovement, generateTransactionRef,
      await, Date_now, client. simpl. asks; simpl; try done.
    by apply Z.ltb_ge.
  - unfold adminCreateMovement, addStockMovement, generateTransactionRef,
      await, Date_now, client. simpl. asks; simpl; try done.
    by apply Z.ltb_ge.
  - unfold approveSubmission, updateSubmissionStatus, generateTransactionRef,
      await, Date_now, await_Promise_all, client. simpl. asks; simpl; try done.
    apply push_all_asks. apply Forall_forall. intros c Hc.
    apply list_elem_of_fmap in Hc as (item & -> & Hitem).
    rewrite Forall_forall in Hop. specialize (Hop item Hitem).
    unfold approve_item, approve_item_write, approve_item_log.
    asks; simpl; done.
  - unfold setDepotInventory, generateTransactionRef, await, Date_now,
      await_Promise_all, client, push. simpl. asks; simpl; try done.
    apply for_of_asks. intros [product newStock] Hin.
    rewrite Forall_forall in Hop. specialize (Hop _ Hin). simpl in Hop.
    asks; simpl; done.
Qed.

(** C1.  [updateProduct] has no sign check.  The edit of [P1], which holds
    7, to stock [-5] is accepted ([{ error: null }]), leaves [-5] in the
    table and logs a [MAJ] row from 7 to [-5]: an accepted call after which
    a stock is negative. *)
Lemma negative_stock_edit_is_accepted :
  ~ every_accepted_call_keeps_stock_nonneg
  /\ let st := run 3 (start (invoke (ProductEdit
                                       (Product.with_stock (-5) P1)
                                       admin_user))
                        (sample_store [])) in
     outcome st = Returned None
     /\ map Product.stock (products (world st)) = [-5; 4]
     /\ map supplied (stock_movements (world st))
        = [movement "P1" "Ethanol" "u-admin" "Amel Gharbi" update (-12) 7
             (-5) "MAJ-1699999999999"].
Proof.
  split; [|by vm_compute].
  intros H.
  specialize (H (ProductEdit (Product.with_stock (-5) P1) admin_user)
                (sample_store [])).
  assert (Hw : nonneg_stock (sample_store []))
    by (repeat constructor; simpl; lia).
  specialize (H Hw eq_refl). unfold nonneg_stock in H.
  rewrite Forall_forall in H.
  assert (Hneg : 0 <= -5); [|lia].
  apply (H (Product.with_updated_at 1699999999999
              (Product.with_stock (-5) P1))).
  vm_compute. left.
Qed.

(** Depot consumption and admin entry/exit check the sign: they keep every
    stock non-negative, and a call whose result would be negative is
    rejected before any write, with no ledger row.  Product create, product
    edit, submission approval and bulk inventory set write the stock they
    are given: they keep every stock non-negative when the stock values
    supplied to them are non-negative. *)
Theorem stock_stays_nonnegative :
  (forall op w n,
      supplied_nonneg op -> nonneg_stock w ->
      nonneg_stock (world (run n (start (invoke op) w))))
  /\ (forall product quantity user w,
        Product.stock product - quantity < 0 ->
        let st := run 2 (start (depotRecordConsumption product quantity user) w) in
        (exists e, outcome st = Returned (Some e))
        /\ products (world st) = products w
        /\ stock_movements (world st) = stock_movements w
        /\ main_requests (journal (world st)) = main_requests (journal w))
  /\ (forall productId quantity movementType adminUser w product,
        Net.fault (next_net w) = None ->
        filter (id_is productId) (products w) = [product] ->
        Product.stock product + signed movementType quantity < 0 ->
        let st := run 3 (start (adminCreateMovement productId quantity
                                   movementType adminUser) w) in
        (exists e, outcome st = Returned (Some e))
        /\ products (world st) = products w
        /\ stock_movements (world st) = stock_movements w
        /\ main_requests (journal (world st))
           = main_requests (journal w)
             ++ [(ProductsSelectById productId, Response.row product)]).
Proof.
  split; [|split].
  - intros op w n Hop Hw.
    apply (start_keeps writes_nonneg nonneg_stock); auto.
    + apply serve_nonneg.
    + by apply invoke_writes_nonneg.
  - intros product quantity user w Hneg st. subst st.
    rewrite run_sequential by apply depotRecordConsumption_sequential.
    unfold depotRecordConsumption. simpl.
    destruct (Z.ltb_spec (Double.sub (Product.stock product) quantity) 0)
      as [_|Hge];
      [|pose proof (proj2 (sub_neg (Product.stock product) quantity)); lia].
    simpl. repeat split; eauto.
    rewrite main_requests_app. simpl. by rewrite app_nil_r.
  - intros productId quantity movementType adminUser w product Hok Hp Hneg st.
    subst st.
    rewrite run_sequential by apply adminCreateMovement_sequential.
    destruct w as [ps ms ss cs t net j]. simpl in Hp.
    unfold adminCreateMovement, await, client. simpl.
    unfold serve. rewrite Hok. simpl. rewrite Hp. simpl.
    replace (match movementType with
             | movement_admin_entry => quantity
             | movement_admin_exit => - quantity
             end) with (signed movementType quantity) by done.
    destruct (Z.ltb_spec
                (Double.add (Product.stock product)
                   (signed movementType quantity)) 0)
      as [_|Hge];
      [|pose proof (proj2 (add_neg (Product.stock product)
                             (signed movementType quantity))); lia].
    simpl. repeat split; eauto.
    rewrite !main_requests_app. simpl. by rewrite app_nil_r.
Qed.

(** ** Submitting an inventory *)

(** C9, counterexample.  When persisting the submission fails, the CSV is
    exported but no chat message is sent. *)
Lemma no_chat_when_submission_fails : ~ export_and_chat_always_fire.
Proof.
  intros H.
  destruct (H depot_user [item_of P1 15] (sample_store [dropped]))
    as [_ Hchat]; [done|].
  by apply Hchat.
Qed.

(** C9, as amended.  On a submission with at least one staged item the CSV
    export is fired once, before the store is asked and whatever it
    answers.  The chat notification is sent only once the submission is
    persisted: when persisting fails, no message is sent and nothing is
    stored; when it succeeds, one message is sent to the depot's
    conversation, and the submission stays persisted as [pending] whether
    or not that message is stored. *)
Theorem export_always_chat_after_persistence currentUser stagedItems w :
  stagedItems <> [] ->
  let st := run 2 (start (handleSubmitInventory currentUser stagedItems) w) in
  outcome st = Returned tt
  /\ (exists events,
        journal (world st)
        = journal w ++ Did (CsvDownload stagedItems) :: events
        /\ csv_downloads events = []
        /\ match Net.fault (next_net w) with
           | Some _ =>
               chat_sends events = []
               /\ inventory_submissions (world st) = inventory_submissions w
               /\ chat_messages (world st) = chat_messages w
           | None =>
               (exists m,
                  chat_sends events = [m]
                  /\ ChatMessage.conversation_id m
                     = "depot_" +:+ before_at (User.email currentUser))
               /\ exists u t,
                    inventory_submissions (world st)
                    = inventory_submissions w
                      ++ [InventorySubmission.stored u t
                            (submitted currentUser stagedItems)]
           end).
Proof.
  intros Hne st. subst st.
  rewrite run_sequential by apply handleSubmitInventory_sequential.
  destruct w as [ps ms ss cs t net j].
  unfold handleSubmitInventory, addSubmission, sendMessage, await, client.
  destruct stagedItems as [|item items]; [done|].
  cbn [length Nat.eqb].
  answer_cases; (split; [reflexivity|]);
    eexists; (split; [rewrite <- ?app_assoc; simpl; reflexivity|]);
    (split; [reflexivity|]); simpl; eauto 10.
Qed.

(** ** Bulk inventory set *)

Lemma at_depot_with_stock c l z x :
  at_depot c l (Product.with_stock z x) = at_depot c l x.
Proof. reflexivity. Qed.

Lemma filter_at_depot_stock_set c l i z ps :
  filter (at_depot c l) (stock_set i z ps)
  = stock_set i z (filter (at_depot c l) ps).
Proof.
  unfold stock_set. induction ps as [|x ps IH]; [done|].
  simpl. rewrite !filter_cons.
  assert (Hx : at_depot c l (if id_is i x then Product.with_stock z x else x)
               = at_depot c l x) by (by destruct (id_is i x)).
  rewrite Hx. destruct (decide (at_depot c l x)); simpl; by rewrite IH.
Qed.

Lemma filter_id_stock_set_other i j z ps :
  i <> j ->
  filter (id_is j) (stock_set i z ps) = filter (id_is j) ps.
Proof.
  intros Hne. unfold stock_set. induction ps as [|x ps IH]; [done|].
  simpl. rewrite !filter_cons. rewrite IH.
  destruct (id_is i x) eqn:Hix; [|done].
  apply String.eqb_eq in Hix.
  assert (Hj : id_is j x = false)
    by (apply String.eqb_neq; congruence).
  assert (Hj' : id_is j (Product.with_stock z x) = false) by done.
  destruct (decide (id_is j (Product.with_stock z x))) as [H|_];
    [by rewrite Hj' in H|].
  destruct (decide (id_is j x)) as [H|_]; [by rewrite Hj in H|]. done.
Qed.

Lemma id_is_elem i ps p :
  filter (id_is i) ps = [p] -> p ∈ ps /\ Product.id p = i.
Proof.
  intros Hf.
  assert (Hin : p ∈ filter (id_is i) ps) by (rewrite Hf; left).
  apply list_elem_of_filter in Hin as [Hid Hin]. split; [done|].
  unfold id_is in Hid. apply Is_true_true in Hid. by apply String.eqb_eq.
Qed.

Lemma filter_id_elem i ps p x :
  filter (id_is i) ps = [p] -> x ∈ ps -> Product.id x = i -> x = p.
Proof.
  intros Hf Hx Hid.
  assert (Hin : x ∈ filter (id_is i) ps).
  { apply list_elem_of_filter. split; [|done].
    unfold id_is. rewrite Hid. by rewrite String.eqb_refl. }
  rewrite Hf in Hin. by apply list_elem_of_singleton in Hin.
Qed.

Lemma at_depot_elem c l (ps : list Product.t) p :
  p ∈ filter (at_depot c l) ps ->
  p ∈ ps /\ Product.code p = c /\ Product.location p = l.
Proof.
  intros Hin. apply list_elem_of_filter in Hin as [Hp Hin]. split; [done|].
  unfold at_depot in Hp. apply Is_true_true, andb_true_iff in Hp as [H1 H2].
  by apply String.eqb_eq in H1, H2.
Qed.

Lemma stock_set_id_elem i z ps X :
  X ∈ map Product.id ps <-> X ∈ map Product.id (stock_set i z ps).
Proof. by rewrite stock_set_ids. Qed.

Lemma fresh_id_not_in (ps : list Product.t) x :
  x ∈ ps -> Product.id x <> fresh (map Product.id ps).
Proof.
  intros Hx Heq. apply (infinite_is_fresh (map Product.id ps)).
  rewrite <- Heq. apply list_elem_of_fmap. eauto.
Qed.

Lemma bulk_set_with_rest transaction_ref depotName inventory adminUser :
  bulk_set_with transaction_ref depotName inventory adminUser
  = bulk_rest transaction_ref depotName adminUser inventory.
Proof. reflexivity. Qed.

Lemma settle_bulk_join ps w :
  first_broken ps = None ->
  settle bulk_join ps w
  = Build_State (if forallb is_fulfilled ps then Return None else bulk_join)
      ps w.
Proof.
  intros Hb. unfold bulk_join, await_Promise_all. simpl.
  unfold Promise_all. rewrite Hb. by destruct (forallb is_fulfilled ps).
Qed.

(** After the lookup of a pair the loop goes on with the pairs left. *)
Lemma bulk_rest_cons transaction_ref depotName adminUser product newStock rest :
  exists k,
    bulk_rest transaction_ref depotName adminUser ((product, newStock) :: rest)
    = Await (ProductsSelectByCodeLocation (Product.code product) depotName) k
    /\ forall found cs w,
         settle (k found) cs w
         = settle (bulk_rest transaction_ref depotName adminUser rest)
             (cs ++ bulk_pushed transaction_ref depotName adminUser
                      (product, newStock) found)
             (if lookup_skipped found
              then log (Did (ConsoleError
                     "Error finding existing product for inventory set:")) w
              else w).
Proof.
  eexists. split; [reflexivity|]. intros found cs w.
  unfold bulk_pushed, lookup_skipped. simpl.
  destruct (match Response.error found with
            | Some findError => negb (is_PGRST116 findError)
            | None => false
            end); simpl; [by rewrite app_nil_r|].
  destruct (Response.data found) as [existing|]; simpl.
  - destruct (Product.stock existing =? newStock); simpl;
      by rewrite ?app_nil_r.
  - destruct (0 <? newStock); simpl; by rewrite ?app_nil_r.
Qed.

Lemma about_app i rows rows' :
  about i (rows ++ rows') = about i rows ++ about i rows'.
Proof. unfold about. by rewrite map_app, filter_app. Qed.

Lemma about_other i u t m :
  StockMovement.product_id m <> i -> about i [StockMovement.stored u t m] = [].
Proof.
  intros Hne. unfold about. simpl. rewrite filter_cons.
  destruct (decide _) as [H|_]; [|done].
  apply Is_true_true, String.eqb_eq in H. done.
Qed.

Lemma about_same u t m :
  about (StockMovement.product_id m) [StockMovement.stored u t m] = [supplied m].
Proof.
  unfold about. simpl. rewrite filter_cons.
  destruct (decide _) as [_|H]; [done|].
  simpl in H. by rewrite String.eqb_refl in H.
Qed.

Section BulkRun.
Context (depotName : string) (adminUser : User.t)
  (inventory : list (Product.t * Z)) (w0 : World).

Local Abbreviation ref := (transaction_ref_at "INV" (clock w0)).
Local Abbreviation code_of := (fun item : Product.t * Z => Product.code item.1).

Hypothesis codes_distinct : NoDup (map code_of inventory).

(** No product with this code was at the depot when the call began. *)
Definition absent (c : string) : Prop :=
  filter (at_depot c depotName) (products w0) = [].

(** The table has a row with this id and this code. *)
Definition has_row (tbl : list Product.t) (i c : string) : Prop :=
  exists x, x ∈ tbl /\ Product.id x = i /\ Product.code x = c.

(** The row the call created for a pair. *)
Definition made (tbl : list Product.t) (item : Product.t * Z)
    (r : Product.t) : Prop :=
  filter (at_depot (Product.code item.1) depotName) tbl = [r]
  /\ filter (id_is (Product.id r)) tbl = [r]
  /\ (Product.id r ∉ map Product.id (products w0))
  /\ exists u t, r = Product.stored u t (depot_copy item.1 depotName item.2).

(** The ledger row of a created product. *)
Definition created_row (r : Product.t) (newStock : Z) : StockMovement.t :=
  movement (Product.id r) (Product.name r) (User.id adminUser)
    (full_name adminUser) initial newStock 0 newStock ref.

(** The chain a pair has pushed, with what the tables hold for it. *)
Inductive chain_of (tbl : list Product.t) (rows : list StockMovement.t)
    (item : Product.t * Z) : Chain -> Prop :=
| chain_recount existing :
    has_row tbl (Product.id existing) (Product.code item.1) ->
    ~ absent (Product.code item.1) ->
    chain_of tbl rows item
      (recount_existing ref adminUser existing item.2)
| chain_create :
    (absent (Product.code item.1) ->
     filter (at_depot (Product.code item.1) depotName) tbl = []) ->
    chain_of tbl rows item
      (create_at_depot ref adminUser item.1 depotName item.2)
| chain_log m :
    has_row tbl (StockMovement.product_id m) (Product.code item.1) ->
    (absent (Product.code item.1) ->
     exists r, made tbl item r /\ m = created_row r item.2
               /\ about (Product.id r) rows = []) ->
    chain_of tbl rows item (Then (StockMovementsInsert m) (fun _ => Fulfilled))
| chain_done :
    (absent (Product.code item.1) ->
     exists r, made tbl item r
               /\ about (Product.id r) rows = [created_row r item.2]) ->
    chain_of tbl rows item Fulfilled.

Lemma chain_of_unbroken tbl rows owners cs :
  Forall2 (chain_of tbl rows) owners cs -> first_broken cs = None.
Proof.
  induction 1 as [|item c l cs Hc _ IH]; simpl; [done|].
  by inversion Hc; subst.
Qed.

Lemma has_row_stock_set tbl i c X z :
  has_row tbl i c -> has_row (stock_set X z tbl) i c.
Proof.
  intros (x & Hx & Hi & Hc).
  exists (if id_is X x then Product.with_stock z x else x).
  split; [|by destruct (id_is X x)].
  unfold stock_set. apply list_elem_of_fmap. eauto.
Qed.

Lemma has_row_app tbl i c r : has_row tbl i c -> has_row (tbl ++ [r]) i c.
Proof.
  intros (x & Hx & Hi & Hc). exists x. split; [|done].
  apply elem_of_app. by left.
Qed.

Lemma made_code tbl item r : made tbl item r -> Product.code r = Product.code item.1.
Proof. intros (_ & _ & _ & u & t & ->). reflexivity. Qed.

Lemma made_not_row tbl item r i c :
  made tbl item r -> has_row tbl i c -> c <> Product.code item.1 ->
  i <> Product.id r.
Proof.
  intros Hm (x & Hx & Hi & Hc) Hne Heq.
  destruct Hm as (_ & Hid & _ & u & t & Hr).
  assert (x = r) by (eapply filter_id_elem; eauto; congruence).
  subst x. apply Hne. rewrite <- Hc, Hr. reflexivity.
Qed.

Lemma made_stock_set tbl item r X z :
  X <> Product.id r -> made tbl item r -> made (stock_set X z tbl) item r.
Proof.
  intros Hne (Hat & Hid & Hnew & Hr). split; [|split; [|split]]; auto.
  - rewrite filter_at_depot_stock_set, Hat. unfold stock_set. simpl.
    destruct (id_is X r) eqn:HX; [|done].
    apply String.eqb_eq in HX. congruence.
  - by rewrite filter_id_stock_set_other.
Qed.

Lemma made_app tbl item r r' :
  Product.code r' <> Product.code item.1 ->
  Product.id r' = fresh (map Product.id tbl) ->
  made tbl item r -> made (tbl ++ [r']) item r.
Proof.
  intros Hcode Hfresh (Hat & Hid & Hnew & Hr).
  split; [|split; [|split]]; auto.
  - rewrite filter_app, Hat. simpl. rewrite filter_cons.
    destruct (decide _) as [H|_]; [|done].
    apply Is_true_true, andb_true_iff in H as [H _].
    by apply String.eqb_eq in H.
  - rewrite filter_app, Hid. simpl. rewrite filter_cons.
    destruct (decide _) as [H|_]; [|done].
    apply Is_true_true, String.eqb_eq in H.
    destruct (id_is_elem _ _ _ Hid) as [Hin _].
    destruct (fresh_id_not_in tbl r Hin). congruence.
Qed.

(** A stock write for another pair leaves the chain of a pair as it is. *)
Lemma chain_of_stock_set tbl rows item c X z cX :
  has_row tbl X cX -> cX <> Product.code item.1 ->
  chain_of tbl rows item c -> chain_of (stock_set X z tbl) rows item c.
Proof.
  intros HX Hne Hc. inversion Hc as [existing Hrow Hab|Hf|m Hrow Hm|Hm]; subst.
  - apply chain_recount; [by apply has_row_stock_set|done].
  - apply chain_create. intros Ha.
    by rewrite filter_at_depot_stock_set, (Hf Ha).
  - apply chain_log; [by apply has_row_stock_set|]. intros Ha.
    destruct (Hm Ha) as (r & Hr & Hrow' & Hrows). exists r.
    split; [|done]. apply made_stock_set; [|done].
    by eapply made_not_row.
  - apply chain_done. intros Ha. destruct (Hm Ha) as (r & Hr & Hrows).
    exists r. split; [|done]. apply made_stock_set; [|done].
    by eapply made_not_row.
Qed.

(** So does a product created for another pair. *)
Lemma chain_of_app tbl rows item c r' :
  Product.code r' <> Product.code item.1 ->
  Product.id r' = fresh (map Product.id tbl) ->
  chain_of tbl rows item c -> chain_of (tbl ++ [r']) rows item c.
Proof.
  intros Hcode Hfresh Hc.
  inversion Hc as [existing Hrow Hab|Hf|m Hrow Hm|Hm]; subst.
  - apply chain_recount; [by apply has_row_app|done].
  - apply chain_create. intros Ha. rewrite filter_app, (Hf Ha). simpl.
    rewrite filter_cons. destruct (decide _) as [H|_]; [|done].
    apply Is_true_true, andb_true_iff in H as [H _].
    by apply String.eqb_eq in H.
  - apply chain_log; [by apply has_row_app|]. intros Ha.
    destruct (Hm Ha) as (r & Hr & Hrow' & Hrows). exists r.
    split; [|done]. by apply made_app.
  - apply chain_done. intros Ha. destruct (Hm Ha) as (r & Hr & Hrows).
    exists r. split; [|done]. by apply made_app.
Qed.

(** So does a ledger row written for another pair. *)
Lemma chain_of_row tbl rows item c u t m cX :
  has_row tbl (StockMovement.product_id m) cX -> cX <> Product.code item.1 ->
  chain_of tbl rows item c ->
  chain_of tbl (rows ++ [StockMovement.stored u t m]) item c.
Proof.
  intros HX Hne Hc.
  inversion Hc as [existing Hrow Hab|Hf|m' Hrow Hm|Hm]; subst.
  - by apply chain_recount.
  - by apply chain_create.
  - apply chain_log; [done|]. intros Ha.
    destruct (Hm Ha) as (r & Hr & Hrow' & Hrows). exists r.
    split; [done|]. split; [done|].
    rewrite about_app, Hrows, about_other; [done|].
    by eapply made_not_row.
  - apply chain_done. intros Ha. destruct (Hm Ha) as (r & Hr & Hrows).
    exists r. split; [done|].
    rewrite about_app, Hrows, about_other; [done|].
    by eapply made_not_row.
Qed.

(** Where the loop stands. *)
Definition main_at (rest : list (Product.t * Z))
    (m : Async (option JsError.t)) : Prop :=
  match rest with
  | [] => m = bulk_join \/ m = Return None
  | _ :: _ => m = bulk_rest ref depotName adminUser rest
  end.

Lemma bulk_settle_main rest m tbl rows owners cs w :
  main_at rest m -> Forall2 (chain_of tbl rows) owners cs ->
  exists m', settle m cs w = Build_State m' cs w /\ main_at rest m'.
Proof.
  intros Hm Hcs. destruct rest as [|[p z] rest]; simpl in Hm.
  - destruct Hm as [->| ->].
    + rewrite settle_bulk_join by (by eapply chain_of_unbroken).
      eexists. split; [reflexivity|]. simpl.
      destruct (forallb is_fulfilled cs); auto.
    + eexists. split; [reflexivity|]. simpl. auto.
  - subst m. exists (bulk_rest ref depotName adminUser ((p, z) :: rest)).
    split; reflexivity.
Qed.

Lemma bulk_settle_rest rest tbl rows owners cs w :
  Forall2 (chain_of tbl rows) owners cs ->
  exists m',
    settle (bulk_rest ref depotName adminUser rest) cs w = Build_State m' cs w
    /\ main_at rest m'.
Proof.
  intros Hcs. destruct rest as [|[p z] rest].
  - apply (bulk_settle_main [] bulk_join tbl rows owners); [by left|done].
  - by apply (bulk_settle_main ((p, z) :: rest) _ tbl rows owners).
Qed.

Lemma single_not_skipped l : lookup_skipped (single l) = false.
Proof. by destruct l as [|? [|? ?]]. Qed.

(** The chain the loop pushes after a lookup, and the pair it is for. *)
Lemma bulk_pushed_chain tbl rows p z :
  (absent (Product.code p) ->
   filter (at_depot (Product.code p) depotName) tbl = []) ->
  exists own,
    Forall2 (chain_of tbl rows) own
      (bulk_pushed ref depotName adminUser (p, z)
         (single (filter (at_depot (Product.code p) depotName) tbl)))
    /\ own `sublist_of` [(p, z)]
    /\ (absent (Product.code p) -> 0 < z -> (p, z) ∈ own).
Proof.
  intros Hun. unfold bulk_pushed. rewrite single_not_skipped.
  destruct (filter (at_depot (Product.code p) depotName) tbl)
    as [|x [|y l]] eqn:Hf; simpl.
  - destruct (0 <? z) eqn:Hz.
    + exists [(p, z)]. split; [|split; [done|by left]].
      constructor; [|constructor]. by apply (chain_create tbl rows (p, z)).
    + exists []. split; [constructor|]. split; [apply sublist_nil_l|].
      intros _ Hpos. apply Z.ltb_ge in Hz. lia.
  - assert (Hab : ~ absent (Product.code p))
      by (intros Ha; specialize (Hun Ha); discriminate).
    destruct (Product.stock x =? z).
    + exists []. split; [constructor|]. split; [apply sublist_nil_l|done].
    + exists [(p, z)]. split; [|split; [done|by left]].
      constructor; [|constructor].
      apply (chain_recount tbl rows (p, z)); [|done].
      assert (Hx : x ∈ filter (at_depot (Product.code p) depotName) tbl)
        by (rewrite Hf; left).
      apply at_depot_elem in Hx as (Hx & Hc & _). by exists x.
  - assert (Hab : ~ absent (Product.code p))
      by (intros Ha; specialize (Hun Ha); discriminate).
    destruct (0 <? z).
    + exists [(p, z)]. split; [|split; [done|by left]].
      constructor; [|constructor]. by apply (chain_create tbl rows (p, z)).
    + exists []. split; [constructor|]. split; [apply sublist_nil_l|done].
Qed.

Lemma sublist_codes (owners done : list (Product.t * Z)) :
  owners `sublist_of` done ->
  map code_of owners `sublist_of` map code_of done.
Proof. induction 1; simpl; by constructor. Qed.

Lemma owner_codes done rest owners :
  inventory = done ++ rest -> owners `sublist_of` done ->
  NoDup (map code_of owners).
Proof.
  intros Hs Ho. pose proof codes_distinct as Hnd.
  rewrite Hs, map_app in Hnd. apply NoDup_app in Hnd as [Hd _].
  exact (sublist_NoDup _ _ Hd (sublist_codes _ _ Ho)).
Qed.

Lemma owner_codes_differ (owners : list (Product.t * Z)) i j a b :
  NoDup (map code_of owners) ->
  owners !! i = Some a -> owners !! j = Some b -> j <> i ->
  Product.code a.1 <> Product.code b.1.
Proof.
  intros Hnd Ha Hb Hne Heq. apply Hne.
  eapply (NoDup_lookup _ j i (Product.code a.1) Hnd);
    rewrite list_lookup_fmap, ?Ha, ?Hb; simpl; by rewrite ?Heq.
Qed.

Lemma rest_codes_differ done rest a b :
  inventory = done ++ rest -> a ∈ done -> b ∈ rest ->
  Product.code b.1 <> Product.code a.1.
Proof.
  intros Hs Ha Hb Heq. pose proof codes_distinct as Hnd.
  rewrite Hs, map_app in Hnd. apply NoDup_app in Hnd as (_ & Hd & _).
  apply (Hd (Product.code a.1)).
  - apply list_elem_of_fmap. by exists a.
  - rewrite <- Heq. apply list_elem_of_fmap. by exists b.
Qed.

Lemma Forall2_update {A B} (P Q : A -> B -> Prop) l k i x y :
  Forall2 P l k -> l !! i = Some x ->
  (forall j a b, j <> i -> l !! j = Some a -> P a b -> Q a b) ->
  Q x y -> Forall2 Q l (<[i:=y]> k).
Proof.
  intros HF Hx Hframe Hnew. apply Forall2_same_length_lookup_2.
  - rewrite length_insert. by eapply Forall2_length.
  - intros j a b Ha Hb. destruct (decide (j = i)) as [->|Hne].
    + rewrite list_lookup_insert_eq in Hb
        by (rewrite <- (Forall2_length _ _ _ HF); by eapply lookup_lt_Some).
      congruence.
    + rewrite list_lookup_insert_ne in Hb by done.
      eapply Hframe; eauto. eapply Forall2_lookup_lr; eauto.
Qed.

(** What holds between two round trips of a call the store serves. *)
Record bulk_inv (done rest owners : list (Product.t * Z))
    (rows : list StockMovement.t) (st : State (option JsError.t)) : Prop := {
  bulk_net : Forall served (network (world st));
  bulk_ids : forall i, i ∈ map Product.id (products w0) ->
                       i ∈ map Product.id (products (world st));
  bulk_ledger : stock_movements (world st) = stock_movements w0 ++ rows;
  bulk_known : forall m, m ∈ rows ->
      StockMovement.product_id m ∈ map Product.id (products (world st));
  bulk_split : inventory = done ++ rest;
  bulk_main : main_at rest (main st);
  bulk_owners : owners `sublist_of` done;
  bulk_all : forall item, item ∈ done -> absent (Product.code item.1) ->
                          0 < item.2 -> item ∈ owners;
  bulk_chains : Forall2 (chain_of (products (world st)) rows)
                  owners (promises st);
  bulk_unseen : forall item, item ∈ rest -> absent (Product.code item.1) ->
      filter (at_depot (Product.code item.1) depotName)
        (products (world st)) = []
}.

Definition bulk_ok (st : State (option JsError.t)) : Prop :=
  exists done rest owners rows, bulk_inv done rest owners rows st.

Lemma serve_lookup who c l w :
  Net.fault (next_net w) = None ->
  serve who (ProductsSelectByCodeLocation c l) w
  = (single (filter (at_depot c l) (products w)),
     log (Served who (ProductsSelectByCodeLocation c l)
            (single (filter (at_depot c l) (products w)))) (tick w)).
Proof. intros H. by rewrite serve_served. Qed.

Lemma bulk_main_step done rest owners rows st q k :
  bulk_inv done rest owners rows st -> main st = Await q k ->
  bulk_ok (let '(r, w) := serve MainThread q (world st) in
           settle (k r) (promises st) w).
Proof.
  intros [Hnet Hids Hled Hknown Hsplit Hmain Hown Hall Hch Hun] Hm.
  destruct rest as [|[p z] rest]; simpl in Hmain.
  { destruct Hmain as [H|H]; rewrite H in Hm; discriminate. }
  destruct (bulk_rest_cons ref depotName adminUser p z rest)
    as (k0 & Hk0 & Hsettle).
  rewrite Hmain, Hk0 in Hm. injection Hm as <- <-.
  rewrite serve_lookup by (by apply served_next).
  rewrite Hsettle, single_not_skipped.
  destruct (bulk_pushed_chain (products (world st)) rows p z
              (Hun (p, z) ltac:(left))) as (own & Hnew & Hsub & Hin).
  set (w' := log _ (tick (world st))).
  destruct (bulk_settle_rest rest (products (world st)) rows (owners ++ own)
              (promises st ++ bulk_pushed ref depotName adminUser (p, z)
                 (single (filter (at_depot (Product.code p) depotName)
                            (products (world st))))) w')
    as (m' & Hs & Hm'); [by apply Forall2_app|].
  rewrite Hs. exists (done ++ [(p, z)]), rest, (owners ++ own), rows.
  split; simpl; auto.
  - by apply Forall_tail.
  - by rewrite Hsplit, <- app_assoc.
  - by apply sublist_app.
  - intros item Hitem Ha Hz. apply elem_of_app.
    apply elem_of_app in Hitem as [Hitem|Hitem]; [left; auto|right].
    apply list_elem_of_singleton in Hitem as ->. auto.
  - by apply Forall2_app.
  - intros item Hitem. apply Hun. by right.
Qed.

Lemma serve_update_stock who i z w :
  Net.fault (next_net w) = None ->
  serve who (ProductsUpdateStock i z) w
  = (Response.ok,
     log (Served who (ProductsUpdateStock i z) Response.ok)
       (set_products (stock_set i z (products w)) (tick w))).
Proof. intros H. by rewrite serve_served. Qed.

Lemma serve_insert_product who p w :
  Net.fault (next_net w) = None ->
  let r := Product.stored (fresh (map Product.id (products w)))
             (clock (tick w)) p in
  serve who (ProductsInsertSelectSingle p) w
  = (Response.row r,
     log (Served who (ProductsInsertSelectSingle p) (Response.row r))
       (set_products (products w ++ [r]) (tick w))).
Proof. intros H. by rewrite serve_served. Qed.

Lemma serve_insert_movement who m w :
  Net.fault (next_net w) = None ->
  let row := StockMovement.stored
               (fresh (map StockMovement.id (stock_movements w)))
               (clock (tick w)) m in
  serve who (StockMovementsInsert m) w
  = (Response.ok,
     log (Served who (StockMovementsInsert m) Response.ok)
       (set_stock_movements (stock_movements w ++ [row]) (tick w))).
Proof. intros H. by rewrite serve_served. Qed.

Lemma about_unknown (tbl : list Product.t) rows i :
  (forall m, m ∈ rows ->
     StockMovement.product_id m ∈ map Product.id tbl) ->
  i ∉ map Product.id tbl -> about i rows = [].
Proof.
  intros Hknown Hi. induction rows as [|m rows IH]; [done|].
  change (m :: rows) with ([m] ++ rows). rewrite about_app, IH.
  - unfold about. simpl. rewrite filter_cons.
    destruct (decide _) as [H|_]; [|done].
    apply Is_true_true, String.eqb_eq in H.
    destruct Hi. rewrite <- H. apply (Hknown m). left.
  - intros m' Hm'. apply Hknown. by right.
Qed.

Lemma filter_id_unknown i (ps : list Product.t) :
  i ∉ map Product.id ps -> filter (id_is i) ps = [].
Proof.
  induction ps as [|x ps IH]; [done|]. intros Hi. rewrite filter_cons.
  destruct (decide _) as [H|_].
  - apply Is_true_true, String.eqb_eq in H. destruct Hi. rewrite <- H. left.
  - apply IH. intros Hin. apply Hi. by right.
Qed.

Lemma bulk_chain_step done rest owners rows st i q k :
  bulk_inv done rest owners rows st ->
  promises st !! i = Some (Then q k) ->
  bulk_ok (let '(r, w) := serve (PromiseAt i) q (world st) in
           settle (main st) (<[i := k r]> (promises st)) w).
Proof.
  intros [Hnet Hids Hled Hknown Hsplit Hmain Hown Hall Hch Hun] Hi.
  destruct (Forall2_lookup_r _ _ _ _ _ Hch Hi) as (item & Hitem & Hc).
  pose proof (owner_codes _ _ _ Hsplit Hown) as Hnd.
  assert (Hdone : item ∈ done).
  { eapply sublist_subseteq; [exact Hown|].
    by eapply list_elem_of_lookup_2. }
  pose proof (served_next _ Hnet) as Hserved.
  pose proof (Forall_tail _ _ Hnet) as Htail.
  assert (Hothers : forall j a, j <> i -> owners !! j = Some a ->
            Product.code item.1 <> Product.code a.1)
    by (intros j a Hne Ha; by eapply owner_codes_differ).
  inversion Hc as [existing Hrow Hab|Hf|m Hrow Hm|];
    subst q k.
  - rewrite serve_update_stock by done.
    set (tbl := stock_set (Product.id existing) item.2 (products (world st))).
    set (w' := log _ _). set (cs := <[i:=_]> (promises st)).
    assert (Hch' : Forall2 (chain_of tbl rows) owners cs).
    { eapply Forall2_update; [exact Hch|exact Hitem| |].
      - intros j a b Hne Ha Hb. eapply chain_of_stock_set; eauto.
      - apply chain_log; [by apply has_row_stock_set|]. intros Ha. by destruct Hab. }
    destruct (bulk_settle_main rest (main st) tbl rows owners cs w' Hmain Hch')
      as (m' & Hs & Hm').
    rewrite Hs. exists done, rest, owners, rows. split; simpl; auto.
    + intros x Hx. apply stock_set_id_elem. auto.
    + intros x Hx. apply stock_set_id_elem. auto.
    + intros x Hx Ha. unfold tbl.
      rewrite filter_at_depot_stock_set, (Hun x Hx Ha). done.
  - rewrite serve_insert_product by done.
    set (r := Product.stored _ _ _).
    set (tbl := products (world st) ++ [r]).
    set (w' := log _ _). set (cs := <[i:=_]> (promises st)).
    assert (Hfresh : Product.id r = fresh (map Product.id (products (world st))))
      by reflexivity.
    assert (Hcode : Product.code r = Product.code item.1) by reflexivity.
    assert (Hnew : Product.id r ∉ map Product.id (products (world st)))
      by (rewrite Hfresh; apply infinite_is_fresh).
    assert (Hch' : Forall2 (chain_of tbl rows) owners cs).
    { eapply Forall2_update; [exact Hch|exact Hitem| |].
      - intros j a b Hne Ha Hb. apply chain_of_app; [|done|done].
        rewrite Hcode. eauto.
      - apply (chain_log tbl rows item (created_row r item.2)).
        + exists r. split; [|done]. apply elem_of_app. right. left.
        + intros Ha. exists r. split; [|split; [done|]].
          * split; [|split; [|split]].
            -- unfold tbl. rewrite filter_app, (Hf Ha). simpl.
               rewrite filter_cons. destruct (decide _) as [_|H]; [done|].
               destruct H. unfold at_depot. simpl.
               by rewrite !String.eqb_refl.
            -- unfold tbl. rewrite filter_app.
               rewrite (filter_id_unknown _ _ Hnew). simpl.
               rewrite filter_cons.
               destruct (decide _) as [_|H]; [done|].
               destruct H. unfold id_is. by rewrite String.eqb_refl.
            -- intros Hin. apply Hnew. auto.
            -- eauto.
          * by eapply about_unknown. }
    destruct (bulk_settle_main rest (main st) tbl rows owners cs w' Hmain Hch')
      as (m' & Hs & Hm').
    rewrite Hs. exists done, rest, owners, rows. split; simpl; auto.
    + intros x Hx. unfold tbl. rewrite map_app. apply elem_of_app. auto.
    + intros x Hx. unfold tbl. rewrite map_app. apply elem_of_app. auto.
    + intros x Hx Ha. unfold tbl. rewrite filter_app, (Hun x Hx Ha). simpl.
      rewrite filter_cons. destruct (decide _) as [H|_]; [|done].
      apply Is_true_true, andb_true_iff in H as [H _].
      apply String.eqb_eq in H.
      destruct (rest_codes_differ done rest item x Hsplit Hdone Hx).
      by rewrite <- H.
  - rewrite serve_insert_movement by done.
    set (row := StockMovement.stored _ _ _).
    set (w' := log _ _). set (cs := <[i:=_]> (promises st)).
    assert (Hch' : Forall2 (chain_of (products (world st)) (rows ++ [row]))
                     owners cs).
    { eapply Forall2_update; [exact Hch|exact Hitem| |].
      - intros j a b Hne Ha Hb. eapply chain_of_row; eauto.
      - apply chain_done. intros Ha.
        destruct (Hm Ha) as (r & Hr & -> & Hrows). exists r.
        split; [done|]. rewrite about_app, Hrows. simpl.
        apply (about_same _ _ (created_row r item.2)). }
    destruct (bulk_settle_main rest (main st) (products (world st))
                (rows ++ [row]) owners cs w' Hmain Hch') as (m' & Hs & Hm').
    rewrite Hs. exists done, rest, owners, (rows ++ [row]).
    split; simpl; auto.
    + by rewrite Hled, app_assoc.
    + intros x Hx. apply elem_of_app in Hx as [Hx|Hx]; [auto|].
      apply list_elem_of_singleton in Hx as ->.
      destruct Hrow as (y & Hy & Hid & _). simpl. rewrite <- Hid.
      apply list_elem_of_fmap. eauto.
Qed.

Lemma bulk_step st : bulk_ok st -> bulk_ok (step st).
Proof.
  intros (done & rest & owners & rows & Hinv).
  destruct (step_is_step_of st) as [H|q k H|i q k Hi].
  - by exists done, rest, owners, rows.
  - by eapply bulk_main_step.
  - by eapply bulk_chain_step.
Qed.

Lemma bulk_run n st : bulk_ok st -> bulk_ok (run n st).
Proof. apply run_invariant. apply bulk_step. Qed.

Lemma bulk_start :
  Forall served (network w0) ->
  bulk_ok (start (setDepotInventory depotName inventory adminUser) w0).
Proof.
  intros Hnet.
  destruct (bulk_settle_rest inventory (products w0) [] [] [] w0)
    as (m' & Hs & Hm'); [constructor|].
  exists [], inventory, [], []. unfold start.
  rewrite setDepotInventory_unfold. simpl settle.
  rewrite bulk_set_with_rest, Hs. split; simpl; auto.
  - by rewrite app_nil_r.
  - intros m Hm. by apply elem_of_nil in Hm.
Qed.

(** When the call has returned, every pair that was to be created has its
    product and its one ledger row. *)
Lemma bulk_end st :
  bulk_ok st -> in_flight st = [] ->
  (exists r, main st = Return r) \/ (exists e, main st = Throw e) ->
  outcome st = Returned None
  /\ exists rows,
       stock_movements (world st) = stock_movements w0 ++ rows
       /\ forall product newStock,
            (product, newStock) ∈ inventory ->
            absent (Product.code product) -> 0 < newStock ->
            exists r, made (products (world st)) (product, newStock) r
                      /\ about (Product.id r) rows = [created_row r newStock].
Proof.
  intros (done & rest & owners & rows & Hinv) Hfl Hret.
  destruct Hinv as [Hnet Hids Hled Hknown Hsplit Hmain Hown Hall Hch Hun].
  assert (Hm : rest = [] /\ main st = Return None).
  { destruct rest as [|[p z] rest]; simpl in Hmain.
    - split; [done|]. destruct Hmain as [H|H]; [|done].
      rewrite H in Hret. destruct Hret as [[r Hr]|[e He]]; discriminate.
    - destruct (bulk_rest_cons ref depotName adminUser p z rest)
        as (k0 & Hk0 & _).
      rewrite Hmain, Hk0 in Hret.
      destruct Hret as [[r Hr]|[e He]]; discriminate. }
  destruct Hm as [-> Hm]. rewrite app_nil_r in Hsplit. subst done.
  split; [unfold outcome; by rewrite Hm|].
  exists rows. split; [done|]. intros product newStock Hin Ha Hz.
  specialize (Hall _ Hin Ha Hz).
  apply list_elem_of_lookup_1 in Hall as [i Hi].
  destruct (Forall2_lookup_l _ _ _ _ _ Hch Hi) as (c & Hc & Hof).
  unfold in_flight in Hfl. apply app_eq_nil in Hfl as [Hcs _].
  apply waiting_chains_nil in Hcs. rewrite Forall_forall in Hcs.
  assert (Hw : chain_waits c = false)
    by (apply Hcs; by eapply list_elem_of_lookup_2).
  inversion Hof as [existing Hrow Hab|Hf|m Hrow Hm'|Hm']; subst c;
    try discriminate.
  exact (Hm' Ha).
Qed.

End BulkRun.

(** C8. Take a bulk depot-inventory set whose pairs have distinct product
    codes and whose requests the store serves.  In whatever order the store
    serves them, [setDepotInventory] returns no error, and for every pair
    whose code no product at the depot had and whose count is positive the
    depot holds afterwards exactly one product with that code: a new row,
    with the depot as location and the count as stock.  Of the ledger rows
    the call appended exactly one is about that product: its type is
    [initial], its old level 0, its new level and its change the count, and
    its reference the one reference of the call. *)
Theorem bulk_set_creates_missing_products depotName inventory adminUser w :
  Forall served (network w) ->
  NoDup (map (fun item : Product.t * Z => Product.code item.1) inventory) ->
  let st := run (fuel_of (BulkInventorySet depotName inventory adminUser))
              (start (setDepotInventory depotName inventory adminUser) w) in
  let transaction_ref := transaction_ref_at "INV" (clock w) in
  outcome st = Returned None
  /\ exists rows,
       stock_movements (world st) = stock_movements w ++ rows
       /\ forall product newStock,
            (product, newStock) ∈ inventory ->
            filter (at_depot (Product.code product) depotName) (products w)
            = [] ->
            0 < newStock ->
            exists r,
              filter (at_depot (Product.code product) depotName)
                (products (world st)) = [r]
              /\ (Product.id r ∉ map Product.id (products w))
              /\ Product.location r = depotName
              /\ Product.stock r = newStock
              /\ about (Product.id r) rows
                 = [movement (Product.id r) (Product.name r)
                      (User.id adminUser) (full_name adminUser)
                      initial newStock 0 newStock transaction_ref].
Proof.
  intros Hnet Hnd st transaction_ref.
  destruct (start_finishes
              (fuel_of (BulkInventorySet depotName inventory adminUser))
              (setDepotInventory depotName inventory adminUser) w
              (invoke_within (BulkInventorySet depotName inventory adminUser)))
    as [Hfl Hret].
  destruct (bulk_end depotName adminUser inventory w st) as [Hout Hrows];
    [by apply bulk_run, bulk_start|done|done|].
  split; [done|]. destruct Hrows as (rows & Hled & Hmade).
  exists rows. split; [done|]. intros product newStock Hin Ha Hz.
  destruct (Hmade product newStock Hin Ha Hz)
    as (r & (Hat & _ & Hnew & u & t & Hr) & Habout).
  exists r. repeat split; try done; by rewrite Hr.
Qed.

(** ** The theorems at the sample data *)

(** An accepted edit of [P1] to stock 3; a consumption of 9 from the 7 of
    [P1]; an admin exit of 9 from the 7 of [P1]. *)
Lemma stock_stays_nonnegative_witness :
  (supplied_nonneg (ProductEdit (Product.with_stock 3 P1) admin_user)
   /\ nonneg_stock (sample_store [])
   /\ nonneg_stock
        (world (run 3 (start (invoke (ProductEdit (Product.with_stock 3 P1)
                                        admin_user))
                         (sample_store [])))))
  /\ (Product.stock P1 - 9 < 0
      /\ products (world (run 2 (start (depotRecordConsumption P1 9 depot_user)
                                   (sample_store []))))
         = [P1; P2])
  /\ (Net.fault (next_net (sample_store [answered])) = None
      /\ filter (id_is "P1") (products (sample_store [answered])) = [P1]
      /\ Product.stock P1 + signed movement_admin_exit 9 < 0
      /\ stock_movements
           (world (run 3 (start (adminCreateMovement "P1" 9 movement_admin_exit
                                   admin_user)
                            (sample_store [answered]))))
         = []).
Proof.
  assert (H1 : supplied_nonneg (ProductEdit (Product.with_stock 3 P1) admin_user))
    by (simpl; lia).
  assert (H2 : nonneg_stock (sample_store []))
    by (repeat constructor; simpl; lia).
  assert (H3 : Product.stock P1 - 9 < 0) by (simpl; lia).
  assert (H4 : Product.stock P1 + signed movement_admin_exit 9 < 0)
    by (simpl; lia).
  split; [|split].
  - split; [exact H1|]. split; [exact H2|].
    exact (proj1 stock_stays_nonnegative _ _ 3%nat H1 H2).
  - split; [exact H3|].
    exact (proj1 (proj2 (proj1 (proj2 stock_stays_nonnegative)
                           P1 9 depot_user (sample_store []) H3))).
  - split; [reflexivity|]. split; [reflexivity|]. split; [exact H4|].
    exact (proj1 (proj2 (proj2 (proj2 (proj2 stock_stays_nonnegative)
             "P1" 9 movement_admin_exit admin_user (sample_store [answered])
             P1 eq_refl eq_refl H4)))).
Defined.

(** The admin entry of 2 on the 7 of [P1]: the row, with levels 7 and 9, is
    balanced. *)
Lemma ledger_rows_balance_witness :
  exists row,
    stock_movements
      (world (run 3 (start (invoke (AdminMovement "P1" 2 movement_admin_entry
                                      admin_user))
                       (sample_store (replicate 3 answered)))))
    = [row]
    /\ StockMovement.old_stock_level row = 7
    /\ StockMovement.new_stock_level row = 9
    /\ Double.moderate (StockMovement.old_stock_level row)
    /\ Double.moderate (StockMovement.new_stock_level row)
    /\ StockMovement.new_stock_level row
       = StockMovement.old_stock_level row + StockMovement.quantity_change row.
Proof.
  destruct (ledger_rows_balance
              (AdminMovement "P1" 2 movement_admin_entry admin_user)
              (sample_store (replicate 3 answered)) 3)
    as (rows & Hrows & Hall).
  vm_compute in Hrows. subst rows.
  apply Forall_cons in Hall as [[_ Hbalanced] _].
  eexists. split; [vm_compute; reflexivity|].
  assert (H1 : Double.moderate 7) by (unfold Double.moderate; simpl; lia).
  assert (H2 : Double.moderate 9) by (unfold Double.moderate; simpl; lia).
  split; [reflexivity|]. split; [reflexivity|].
  split; [exact H1|]. split; [exact H2|].
  exact (Hbalanced H1 H2).
Defined.

(** The stock write of a consumption of 2 from [P1] is served and its ledger
    insert is not; so for an admin entry of 2. *)
Lemma ledger_failure_goes_unreported_witness :
  (network (sample_store [answered; dropped]) = [answered; dropped]
   /\ Net.fault answered = None /\ Net.fault dropped = Some connection_lost
   /\ 0 <= Product.stock P1 - 2
   /\ outcome (run 2 (start (depotRecordConsumption P1 2 depot_user)
                        (sample_store [answered; dropped])))
      = Returned None)
  /\ (filter (id_is "P1") (products (sample_store [answered; answered; dropped]))
      = [P1]
      /\ 0 <= Product.stock P1 + signed movement_admin_entry 2
      /\ outcome (run 3 (start (adminCreateMovement "P1" 2 movement_admin_entry
                                  admin_user)
                           (sample_store [answered; answered; dropped])))
         = Returned None).
Proof.
  assert (H1 : 0 <= Product.stock P1 - 2) by (simpl; lia).
  assert (H2 : 0 <= Product.stock P1 + signed movement_admin_entry 2)
    by (simpl; lia).
  split.
  - do 3 (split; [reflexivity|]). split; [exact H1|].
    exact (proj1 (proj1 ledger_failure_goes_unreported P1 2 depot_user
                    (sample_store [answered; dropped]) answered dropped []
                    connection_lost eq_refl eq_refl eq_refl H1)).
  - split; [reflexivity|]. split; [exact H2|].
    exact (proj1 (proj2 ledger_failure_goes_unreported "P1" 2
                    movement_admin_entry admin_user
                    (sample_store [answered; answered; dropped])
                    answered answered dropped [] P1 connection_lost
                    eq_refl eq_refl eq_refl eq_refl eq_refl H2)).
Defined.

(** The status update of the approval of [{P1, 15}] is dropped. *)
Lemma approval_aborts_on_status_error_witness :
  Net.fault (next_net (sample_store [dropped])) = Some connection_lost
  /\ outcome (run 1 (start (approveSubmission
                              (sample_submission [item_of P1 15]) admin_user)
                       (sample_store [dropped])))
     = Returned (Some connection_lost).
Proof.
  split; [reflexivity|].
  exact (proj1 (approval_aborts_on_status_error
                  (sample_submission [item_of P1 15]) admin_user
                  (sample_store [dropped]) connection_lost 0 eq_refl)).
Defined.

(** The approval of [{P1, 15}; {P2, 9}]: the chain of [P1] is served to
    its end, then the stock read of [P2] fails; [P1] holds 15 beside the
    failed item, and the status is [pending] again. *)
Lemma approval_partial_failure_witness :
  let s := sample_submission [item_of P1 15; item_of P2 9] in
  let w := submitted_store [item_of P1 15; item_of P2 9]
             [answered; answered; answered; answered; dropped; answered] in
  let st := run (fuel_of (SubmissionApproval s admin_user))
              (start (approveSubmission s admin_user) w) in
  Net.fault (next_net w) = None
  /\ item_failures (events_since w (world st)) = [(1%nat, connection_lost)]
  /\ item_writes (events_since w (world st)) = [0%nat]
  /\ outcome st
     = Returned (Some (JsError.spread_over approval_failed connection_lost))
  /\ map Product.stock (products (world st)) = [15; 4]
  /\ map InventorySubmission.status (inventory_submissions (world st))
     = [pending].
Proof.
  intros s w st.
  assert (H1 : Net.fault (next_net w) = None) by reflexivity.
  assert (H2 : item_failures (events_since w (world st))
               = [(1%nat, connection_lost)]) by (vm_compute; reflexivity).
  split; [exact H1|]. split; [exact H2|]. split; [vm_compute; reflexivity|].
  destruct (approval_partial_failure s admin_user w H1) as (Hfail & _ & _).
  fold st in Hfail.
  destruct Hfail as (i & e & r & Hin & Hout & _);
    [rewrite H2; discriminate|].
  rewrite H2 in Hin. apply list_elem_of_singleton in Hin as [= _ ->].
  split; [exact Hout|]. split; vm_compute; reflexivity.
Defined.

(** The approval of [{P1, 15}] with the 7 of [P1] in stock. *)
Lemma approval_applies_counts_witness :
  Forall served (network (sample_store (replicate 5 answered)))
  /\ NoDup (map InventoryItem.productId
              (InventorySubmission.items (sample_submission [item_of P1 15])))
  /\ (forall item,
        item ∈ InventorySubmission.items (sample_submission [item_of P1 15]) ->
        exists p,
          filter (id_is (InventoryItem.productId item))
            (products (sample_store (replicate 5 answered))) = [p])
  /\ outcome (run 5 (start (approveSubmission
                              (sample_submission [item_of P1 15]) admin_user)
                       (sample_store (replicate 5 answered))))
     = Returned None.
Proof.
  assert (H1 : Forall served (network (sample_store (replicate 5 answered))))
    by (repeat constructor).
  assert (H2 : NoDup (map InventoryItem.productId
              (InventorySubmission.items (sample_submission [item_of P1 15]))))
    by (apply NoDup_singleton).
  assert (H3 : forall item,
        item ∈ InventorySubmission.items (sample_submission [item_of P1 15]) ->
        exists p,
          filter (id_is (InventoryItem.productId item))
            (products (sample_store (replicate 5 answered))) = [p]).
  { intros item Hitem. apply list_elem_of_singleton in Hitem as ->.
    exists P1. reflexivity. }
  split; [exact H1|]. split; [exact H2|]. split; [exact H3|].
  exact (proj1 (approval_applies_counts (sample_submission [item_of P1 15])
                  admin_user (sample_store (replicate 5 answered)) H1 H2 H3)).
Defined.

(** The edit of [P1] from stock 7 to stock 9. *)
Lemma edit_logs_exactly_the_change_witness :
  filter (id_is (Product.id (Product.with_stock 9 P1)))
    (products (sample_store (replicate 3 answered))) = [P1]
  /\ Product.stock (Product.with_stock 9 P1) <> Product.stock P1
  /\ Forall served (take 3 (network (sample_store (replicate 3 answered))))
  /\ exists row,
       stock_movements
         (world (run 3 (start (updateProduct (Product.with_stock 9 P1)
                                 admin_user)
                          (sample_store (replicate 3 answered)))))
       = [row]
       /\ edit_row (Product.with_stock 9 P1) 7 row.
Proof.
  assert (H1 : Product.stock (Product.with_stock 9 P1) <> Product.stock P1)
    by (simpl; lia).
  assert (H2 : Forall served
                 (take 3 (network (sample_store (replicate 3 answered)))))
    by (repeat constructor).
  split; [reflexivity|]. split; [exact H1|]. split; [exact H2|].
  exact (proj2 (proj2 (edit_logs_exactly_the_change
                         (Product.with_stock 9 P1) admin_user
                         (sample_store (replicate 3 answered))) P1 eq_refl)
           H1 H2).
Defined.

(** A bulk set of the depot Labo B, which holds no product, to 5 of [P1]. *)
Lemma bulk_set_creates_missing_products_witness :
  Forall served (network (sample_store (replicate 3 answered)))
  /\ NoDup (map (fun item : Product.t * Z => Product.code item.1) [(P1, 5)])
  /\ filter (at_depot (Product.code P1) "Labo B")
       (products (sample_store (replicate 3 answered))) = []
  /\ 0 < 5
  /\ outcome (run 3 (start (setDepotInventory "Labo B" [(P1, 5)] admin_user)
                       (sample_store (replicate 3 answered))))
     = Returned None.
Proof.
  assert (H1 : Forall served (network (sample_store (replicate 3 answered))))
    by (repeat constructor).
  assert (H2 : NoDup (map (fun item : Product.t * Z => Product.code item.1)
                        [(P1, 5)]))
    by (apply NoDup_singleton).
  split; [exact H1|]. split; [exact H2|]. split; [reflexivity|].
  split; [lia|].
  exact (proj1 (bulk_set_creates_missing_products "Labo B" [(P1, 5)]
                  admin_user (sample_store (replicate 3 answered)) H1 H2)).
Defined.

(** The depot user submits [{P1, 15}] and the store persists it. *)
Lemma export_always_chat_after_persistence_witness :
  [item_of P1 15] <> []
  /\ outcome (run 2 (start (handleSubmitInventory depot_user [item_of P1 15])
                       (sample_store [answered; answered])))
     = Returned tt.
Proof.
  assert (H : [item_of P1 15] <> []) by discriminate.
  split; [exact H|].
  exact (proj1 (export_always_chat_after_persistence depot_user
                  [item_of P1 15] (sample_store [answered; answered]) H)).
Defined.

(** * Further properties of the code *)

(** ** Creating and editing a product *)

Lemma addProduct_alone_sequential product user :
  sequential 2 (addProduct product user).
Proof.
  unfold addProduct, addStockMovement, generateTransactionRef, await,
    Date_now. simpl. sequential.
Qed.

(** The hypotheses on a script whose first entries are served. *)
Ltac served_entries H :=
  simpl in H; unfold served in H;
  repeat match goal with
         | H' : Forall _ (_ :: _) |- _ => inversion H'; subst; clear H'
         end.

(** [addProduct] whose two requests the store serves: the table gains one
    row, under a new id, holding the supplied fields; that row is returned;
    the ledger gains one [initial] row for it, from 0 to the supplied stock. *)
Theorem addProduct_creates_and_logs product user w :
  Forall served (take 2 (network w)) ->
  let st := run 2 (start (addProduct product user) w) in
  exists u t row,
    let r := Product.stored u t product in
    outcome st = Returned (Response.row r)
    /\ products (world st) = products w ++ [r]
    /\ (u ∉ map Product.id (products w))
    /\ stock_movements (world st) = stock_movements w ++ [row]
    /\ supplied row
       = movement u (Product.name product) (User.id user)
           (full_name user) initial (Product.stock product) 0
           (Product.stock product)
           (transaction_ref_at "CRE" (clock w + Net.elapsed (next_net w))).
Proof.
  intros Hserved st. subst st.
  rewrite run_sequential by apply addProduct_alone_sequential.
  destruct w as [ps ms ss cs t net j]. unfold next_net in *; simpl in *.
  unfold addProduct, addStockMovement, generateTransactionRef, await,
    Date_now.
  destruct net as [|n1 [|n2 rest]]; served_entries Hserved.
  all: simpl; do 2 served_trip.
  all: eexists _, _, _; (split; [reflexivity|]); (split; [reflexivity|]);
    (split; [apply infinite_is_fresh|]); (split; [reflexivity|]);
    reflexivity.
Qed.

(** [addProduct] whose insert fails returns the store's error; no table
    changes and the ledger is not asked for a row. *)
Theorem addProduct_insert_failure product user w e :
  Net.fault (next_net w) = Some e ->
  let st := run 2 (start (addProduct product user) w) in
  outcome st = Returned (Response.failed e)
  /\ products (world st) = products w
  /\ stock_movements (world st) = stock_movements w
  /\ journal (world st)
     = journal w ++ [Served MainThread (ProductsInsertSelectSingle product)
                       (Response.failed e)].
Proof.
  intros He st. subst st.
  rewrite run_sequential by apply addProduct_alone_sequential.
  destruct w as [ps ms ss cs t net j]. unfold next_net in *; simpl in *.
  unfold addProduct, addStockMovement, generateTransactionRef, await,
    Date_now. simpl. round_trip He. repeat split; reflexivity.
Qed.

(** [addProduct] and [updateProduct] do not look at the answer to their
    ledger insert either: when the product write is served and the ledger
    insert fails, the caller gets the written row and no error, and the
    ledger has no row for the change. *)
Theorem product_ledger_failure_goes_unreported :
  (forall product user w n1 n2 rest e,
      network w = n1 :: n2 :: rest ->
      Net.fault n1 = None -> Net.fault n2 = Some e ->
      let st := run 2 (start (addProduct product user) w) in
      exists u t,
        outcome st = Returned (Response.row (Product.stored u t product))
        /\ products (world st) = products w ++ [Product.stored u t product]
        /\ stock_movements (world st) = stock_movements w)
  /\ (forall product user w n1 n2 n3 rest p0 e,
      network w = n1 :: n2 :: n3 :: rest ->
      Net.fault n1 = None -> Net.fault n2 = None -> Net.fault n3 = Some e ->
      filter (id_is (Product.id product)) (products w) = [p0] ->
      Product.stock product <> Product.stock p0 ->
      let st := run 3 (start (updateProduct product user) w) in
      exists r,
        outcome st = Returned (Response.row r)
        /\ filter (id_is (Product.id product)) (products (world st)) = [r]
        /\ Product.stock r = Product.stock product
        /\ stock_movements (world st) = stock_movements w).
Proof.
  split.
  - intros product user w n1 n2 rest e Hnet H1 H2 st. subst st.
    rewrite run_sequential by apply addProduct_alone_sequential.
    destruct w as [ps ms ss cs t net j]. simpl in Hnet. subst net.
    unfold addProduct, addStockMovement, generateTransactionRef, await,
      Date_now. simpl. round_trip H1. round_trip H2.
    eexists _, _. repeat split; reflexivity.
  - intros product user w n1 n2 n3 rest p0 e Hnet H1 H2 H3 Hp0 Hne st.
    subst st. rewrite run_sequential by apply updateProduct_sequential.
    destruct w as [ps ms ss cs t net j]. simpl in Hnet, Hp0. subst net.
    unfold updateProduct, addStockMovement, generateTransactionRef, await,
      Date_now. simpl. round_trip H1. rewrite Hp0. simpl. round_trip H2.
    rewrite (filter_id_overwritten _ _ _ _ Hp0). simpl.
    destruct (Z.eqb_spec
                (Double.sub (Product.stock product) (Product.stock p0)) 0)
      as [Hz|_]; [by rewrite sub_zero in Hz|].
    simpl. round_trip H3. eexists. split; [reflexivity|].
    split; [by apply filter_id_overwritten|]. split; reflexivity.
Qed.

(** [updateProduct] whose read of the stored stock comes back with an error,
    be it that the round trip failed or that the table has not exactly one
    row with the product's id: the error is returned and nothing is written,
    the read being the only request made. *)
Theorem updateProduct_read_failure product user w e :
  Net.fault (next_net w) = Some e
  \/ (Net.fault (next_net w) = None /\ e = PGRST116
      /\ forall p0, filter (id_is (Product.id product)) (products w) <> [p0]) ->
  let st := run 3 (start (updateProduct product user) w) in
  outcome st = Returned (Response.failed e)
  /\ products (world st) = products w
  /\ stock_movements (world st) = stock_movements w
  /\ journal (world st)
     = journal w ++ [Served MainThread
                       (ProductsSelectStockById (Product.id product))
                       (Response.failed e)].
Proof.
  intros H st. subst st.
  rewrite run_sequential by apply updateProduct_sequential.
  destruct w as [ps ms ss cs t net j]. unfold next_net in *; simpl in *.
  unfold updateProduct, addStockMovement, generateTransactionRef, await,
    Date_now. simpl in *.
  destruct H as [He|(He & -> & Hnone)]; round_trip He.
  - repeat split; reflexivity.
  - destruct (filter (id_is (Product.id product)) ps) as [|x [|y l]] eqn:Hf;
      simpl; try (repeat split; reflexivity).
    by destruct (Hnone x).
Qed.

(** ** Consumption and admin movements *)

(** [depotRecordConsumption] computes the new stock from the product object
    the caller holds.  When the store serves both requests, every row with
    the product's id holds the caller's stock less the quantity, whatever
    stock it held before, and the ledger row records the caller's stock as
    the old level. *)
Theorem depotRecordConsumption_trusts_callers_stock product quantity user w :
  Forall served (take 2 (network w)) ->
  0 <= Product.stock product - quantity ->
  let st := run 2 (start (depotRecordConsumption product quantity user) w) in
  outcome st = Returned None
  /\ products (world st)
     = stock_set (Product.id product)
         (Double.sub (Product.stock product) quantity) (products w)
  /\ holds (Product.id product) (Double.sub (Product.stock product) quantity)
       (products (world st))
  /\ exists row,
       stock_movements (world st) = stock_movements w ++ [row]
       /\ supplied row
          = movement (Product.id product) (Product.name product)
              (User.id user) (full_name user) consumption (- quantity)
              (Product.stock product)
              (Double.sub (Product.stock product) quantity)
              (transaction_ref_at "CON"
                 (clock w + Net.elapsed (next_net w))).
Proof.
  intros Hserved Hok st. subst st.
  rewrite run_sequential by apply depotRecordConsumption_sequential.
  destruct w as [ps ms ss cs t net j]. unfold next_net in *; simpl in *.
  unfold depotRecordConsumption, addStockMovement, generateTransactionRef,
    await, Date_now, client. simpl.
  destruct (Z.ltb_spec (Double.sub (Product.stock product) quantity) 0)
    as [Hneg|_]; [rewrite sub_neg in Hneg; lia|].
  destruct net as [|n1 [|n2 rest]]; served_entries Hserved.
  all: simpl; do 2 served_trip.
  all: split; [reflexivity|]; split; [reflexivity|];
    split; [apply holds_stock_set_same|];
    eexists; split; reflexivity.
Qed.

(** [depotRecordConsumption] whose stock write fails returns the store's
    error; the stock and the ledger are as they were. *)
Theorem depotRecordConsumption_write_failure product quantity user w e :
  Net.fault (next_net w) = Some e ->
  0 <= Product.stock product - quantity ->
  let st := run 2 (start (depotRecordConsumption product quantity user) w) in
  outcome st = Returned (Some e)
  /\ products (world st) = products w
  /\ stock_movements (world st) = stock_movements w
  /\ main_requests (journal (world st))
     = main_requests (journal w)
       ++ [(ProductsUpdateStock (Product.id product)
              (Double.sub (Product.stock product) quantity),
            Response.failed e)].
Proof.
  intros He Hok st. subst st.
  rewrite run_sequential by apply depotRecordConsumption_sequential.
  destruct w as [ps ms ss cs t net j]. unfold next_net in *; simpl in *.
  unfold depotRecordConsumption, addStockMovement, generateTransactionRef,
    await, Date_now, client. simpl.
  destruct (Z.ltb_spec (Double.sub (Product.stock product) quantity) 0)
    as [Hneg|_]; [rewrite sub_neg in Hneg; lia|].
  simpl. round_trip He. repeat split; try reflexivity.
  rewrite !main_requests_app. simpl. by rewrite app_nil_r.
Qed.

(** [adminCreateMovement] for a product it cannot read, be it that the round
    trip failed or that the table has not exactly one row with that id: the
    caller gets the error "Produit introuvable." in place of the store's, and
    nothing is written. *)
Theorem adminCreateMovement_unknown_product
    productId quantity movementType adminUser w :
  (exists e, Net.fault (next_net w) = Some e)
  \/ (Net.fault (next_net w) = None
      /\ forall p, filter (id_is productId) (products w) <> [p]) ->
  let st := run 3 (start (adminCreateMovement productId quantity movementType
                            adminUser) w) in
  outcome st = Returned (Some (JsError.new "Produit introuvable."))
  /\ products (world st) = products w
  /\ stock_movements (world st) = stock_movements w
  /\ exists r,
       main_requests (journal (world st))
       = main_requests (journal w) ++ [(ProductsSelectById productId, r)].
Proof.
  intros H st. subst st.
  rewrite run_sequential by apply adminCreateMovement_sequential.
  destruct w as [ps ms ss cs t net j]. unfold next_net in *; simpl in *.
  unfold adminCreateMovement, addStockMovement, generateTransactionRef,
    await, Date_now, client. simpl in *.
  destruct H as [[e He]|(He & Hnone)]; round_trip He.
  - repeat split; try reflexivity. eexists.
    rewrite !main_requests_app. simpl. by rewrite app_nil_r.
  - destruct (filter (id_is productId) ps) as [|x [|y l]] eqn:Hf; simpl;
      try (repeat split; try reflexivity; eexists;
           rewrite !main_requests_app; simpl; by rewrite app_nil_r).
    by destruct (Hnone x).
Qed.

Lemma stock_set_none i z ps :
  filter (id_is i) ps = [] -> stock_set i z ps = ps.
Proof.
  unfold stock_set. induction ps as [|x ps IH]; [done|]. intros Hf.
  destruct (id_is i x) eqn:Hx.
  - rewrite filter_cons_True in Hf by (by rewrite Hx). discriminate.
  - rewrite filter_cons_False in Hf by (rewrite Hx; intros []).
    cbn [map]. by rewrite Hx, IH.
Qed.

Lemma filter_id_stock_set_same i z ps p :
  filter (id_is i) ps = [p] ->
  filter (id_is i) (stock_set i z ps) = [Product.with_stock z p].
Proof.
  revert p. induction ps as [|x ps IH]; intros p Hf; [done|].
  destruct (id_is i x) eqn:Hx.
  - rewrite filter_cons_True in Hf by (by rewrite Hx).
    injection Hf as -> Hf. unfold stock_set. cbn [map]. rewrite Hx.
    rewrite filter_cons_True by (unfold id_is in *; simpl; by rewrite Hx).
    f_equal. fold (stock_set i z ps). by rewrite stock_set_none.
  - rewrite filter_cons_False in Hf by (rewrite Hx; intros []).
    unfold stock_set. cbn [map]. rewrite Hx.
    rewrite filter_cons_False by (rewrite Hx; intros []). by apply IH.
Qed.

Lemma stock_set_twice i z z' ps :
  stock_set i z (stock_set i z' ps) = stock_set i z ps.
Proof.
  unfold stock_set. rewrite map_map. apply map_ext. intros x.
  destruct (id_is i x) eqn:Hx; [|by rewrite Hx].
  assert (Hx' : id_is i (Product.with_stock z' x) = true) by done.
  by rewrite Hx'.
Qed.

Lemma stock_set_held i z ps : holds i z ps -> stock_set i z ps = ps.
Proof.
  unfold stock_set. intros H. induction ps as [|x ps IH]; [done|].
  simpl. rewrite IH by (intros p Hp; apply H; by right). f_equal.
  destruct (id_is i x) eqn:Hx; [|done].
  apply String.eqb_eq in Hx.
  rewrite <- (H x ltac:(left) Hx). by destruct x.
Qed.

(** An admin entry followed by an admin exit of the same quantity, on a
    product whose stock is not negative, the stock and the quantity being of
    magnitude at most [2^52] (so that the sum and the difference the source
    computes are exact), all six requests served: the products table is as
    it was before the two calls, and the ledger has gained the row of the
    entry and the row of the exit, whose changes cancel. *)
Theorem admin_entry_then_exit productId quantity adminUser w p :
  Forall served (take 6 (network w)) ->
  filter (id_is productId) (products w) = [p] ->
  0 <= Product.stock p -> 0 <= Product.stock p + quantity ->
  Double.moderate (Product.stock p) -> Double.moderate quantity ->
  let st1 := run 3 (start (adminCreateMovement productId quantity
                             movement_admin_entry adminUser) w) in
  let st2 := run 3 (start (adminCreateMovement productId quantity
                             movement_admin_exit adminUser) (world st1)) in
  outcome st1 = Returned None
  /\ outcome st2 = Returned None
  /\ products (world st2) = products w
  /\ exists entry exit,
       stock_movements (world st2) = stock_movements w ++ [entry; exit]
       /\ StockMovement.change_type entry = admin_entry
       /\ StockMovement.change_type exit = admin_exit
       /\ StockMovement.quantity_change entry = quantity
       /\ StockMovement.quantity_change exit = - quantity
       /\ StockMovement.old_stock_level entry = Product.stock p
       /\ StockMovement.new_stock_level entry = Product.stock p + quantity
       /\ StockMovement.old_stock_level exit = Product.stock p + quantity
       /\ StockMovement.new_stock_level exit = Product.stock p.
Proof.
  intros Hserved Hp Hpos Hok Hstock Hquantity st1 st2. subst st2 st1.
  assert (Hadd : Double.add (Product.stock p) quantity
                 = Product.stock p + quantity)
    by (by apply add_moderate).
  assert (Hsub : Double.add (Product.stock p + quantity) (- quantity)
                 = Product.stock p).
  { unfold Double.add, Double.moderate in *.
    rewrite round_exact; lia. }
  rewrite !run_sequential by apply adminCreateMovement_sequential.
  destruct w as [ps ms ss cs t net j]. unfold next_net in *; simpl in *.
  assert (Hheld : holds productId (Product.stock p) ps).
  { intros x Hx Hid. erewrite <- (filter_id_elem productId ps p x); eauto. }
  destruct net as [|n1 [|n2 [|n3 [|n4 [|n5 [|n6 rest]]]]]];
    served_entries Hserved.
  all: unfold adminCreateMovement, addStockMovement,
         generateTransactionRef, await, Date_now, client; simpl;
       served_trip; rewrite Hp; simpl; rewrite !Hadd;
       (destruct (Z.ltb_spec (Product.stock p + quantity) 0); [lia|]);
       simpl; do 2 served_trip.
  all: served_trip;
       change (map (λ r : Product.t,
                 if id_is productId r
                 then Product.with_stock (Product.stock p + quantity) r
                 else r) ps)
         with (stock_set productId (Product.stock p + quantity) ps);
       rewrite (filter_id_stock_set_same _ _ _ _ Hp); simpl; rewrite !Hsub;
       (destruct (Z.ltb_spec (Product.stock p) 0); [lia|]);
       simpl; do 2 served_trip.
  all: split; [reflexivity|]; split; [reflexivity|]; split;
    [ change (map (λ r : Product.t,
                 if id_is productId r
                 then Product.with_stock (Product.stock p) r
                 else r)
                (stock_set productId (Product.stock p + quantity) ps))
        with (stock_set productId (Product.stock p)
                (stock_set productId (Product.stock p + quantity) ps));
      rewrite stock_set_twice;
      by apply stock_set_held
    | eexists _, _; split; [rewrite <- app_assoc; reflexivity|];
      simpl; repeat split; lia ].
Qed.

(** ** Bulk inventory set: pairs that need no write *)

Lemma bulk_idle_step ref depotName adminUser p z rest w n :
  let found := (serve MainThread
                  (ProductsSelectByCodeLocation (Product.code p) depotName)
                  w).1 in
  let w' := (serve MainThread
               (ProductsSelectByCodeLocation (Product.code p) depotName)
               w).2 in
  bulk_pushed ref depotName adminUser (p, z) found = [] ->
  run (S n) (settle (bulk_rest ref depotName adminUser ((p, z) :: rest)) [] w)
  = run n (settle (bulk_rest ref depotName adminUser rest) []
             (if lookup_skipped found
              then log (Did (ConsoleError
                     "Error finding existing product for inventory set:")) w'
              else w')).
Proof.
  intros found w' Hidle.
  destruct (bulk_rest_cons ref depotName adminUser p z rest)
    as (k & Hk & Hsettle).
  simpl run. f_equal.
  change (settle (bulk_rest ref depotName adminUser ((p, z) :: rest)) [] w)
    with (Build_State (bulk_rest ref depotName adminUser ((p, z) :: rest))
            [] w).
  rewrite (step_sequential _ _ k) by done. simpl world.
  subst found w'.
  destruct (serve MainThread
              (ProductsSelectByCodeLocation (Product.code p) depotName) w)
    as [r w1].
  simpl in *. by rewrite Hsettle, Hidle.
Qed.

Lemma bulk_idle_end ref depotName adminUser w :
  settle (bulk_rest ref depotName adminUser []) [] w
  = Build_State (Return None) [] w.
Proof. reflexivity. Qed.

(** A bulk set every pair of which carries the count the depot already
    holds, and whose lookups the store serves: no error is returned, the
    only requests made are the lookups, one per pair in order, and neither
    the products nor the ledger change. *)
Theorem setDepotInventory_unchanged_counts depotName inventory adminUser w :
  Forall served (take (length inventory) (network w)) ->
  Forall (count_unchanged depotName (products w)) inventory ->
  let st := run (length inventory)
              (start (setDepotInventory depotName inventory adminUser) w) in
  outcome st = Returned None
  /\ promises st = []
  /\ products (world st) = products w
  /\ stock_movements (world st) = stock_movements w
  /\ main_requests (journal (world st))
     = main_requests (journal w)
       ++ map (depot_lookup depotName (products w)) inventory.
Proof.
  intros Hserved Hidle st. subst st. unfold start.
  rewrite setDepotInventory_unfold. simpl settle.
  rewrite bulk_set_with_rest.
  generalize (transaction_ref_at "INV" (clock w)). intros ref.
  revert w Hserved Hidle.
  induction inventory as [|[p z] rest IH]; intros w Hserved Hidle.
  - simpl. by rewrite app_nil_r.
  - inversion Hidle as [|? ? Hp Hrest]; subst.
    assert (Hfault : Net.fault (next_net w) = None).
    { unfold next_net. destruct (network w) as [|n ns]; [done|].
      simpl in Hserved. by inversion Hserved. }
    assert (Htail : Forall served (take (length rest) (tail (network w)))).
    { destruct (network w) as [|n ns]; simpl in *.
      - by rewrite take_nil.
      - by inversion Hserved. }
    change (length ((p, z) :: rest)) with (S (length rest)).
    rewrite bulk_idle_step; rewrite serve_lookup by done;
      cbn [fst snd].
    + rewrite single_not_skipped.
      set (w' := log _ (tick w)).
      destruct (IH w') as (Hout & Hps & Hprod & Hled & Hj); [done|done|].
      split; [done|]. split; [done|]. split; [done|]. split; [done|].
      rewrite Hj. unfold w'. simpl. rewrite main_requests_app. simpl.
      by rewrite <- app_assoc.
    + unfold bulk_pushed. rewrite single_not_skipped.
      unfold count_unchanged in Hp. simpl in Hp.
      destruct (filter (at_depot (Product.code p) depotName) (products w))
        as [|x [|y l]]; simpl.
      * destruct (Z.ltb_spec 0 z); [lia|done].
      * by rewrite Hp, Z.eqb_refl.
      * destruct (Z.ltb_spec 0 z); [lia|done].
Qed.

(** A bulk set all of whose lookups fail, with errors other than "no single
    row": every pair is skipped, nothing is written, and the caller is told
    [{ error: null }]. *)
Theorem setDepotInventory_skips_failed_lookups
    depotName inventory adminUser w :
  (length inventory <= length (network w))%nat ->
  Forall fails_otherwise (take (length inventory) (network w)) ->
  let st := run (length inventory)
              (start (setDepotInventory depotName inventory adminUser) w) in
  outcome st = Returned None
  /\ promises st = []
  /\ products (world st) = products w
  /\ stock_movements (world st) = stock_movements w
  /\ length (main_requests (journal (world st)))
     = (length (main_requests (journal w)) + length inventory)%nat.
Proof.
  intros Hlen Hfail st. subst st. unfold start.
  rewrite setDepotInventory_unfold. simpl settle.
  rewrite bulk_set_with_rest.
  generalize (transaction_ref_at "INV" (clock w)). intros ref.
  revert w Hlen Hfail.
  induction inventory as [|[p z] rest IH]; intros w Hlen Hfail.
  - simpl. repeat split; try done; lia.
  - destruct (network w) as [|n ns] eqn:Hnet; simpl in Hlen; [lia|].
    simpl in Hfail. inversion Hfail as [|? ? (e & He & Hcode) Hrest]; subst.
    assert (Hserve : serve MainThread
              (ProductsSelectByCodeLocation (Product.code p) depotName) w
            = (Response.failed e,
               log (Served MainThread
                      (ProductsSelectByCodeLocation (Product.code p) depotName)
                      (Response.failed e)) (tick w))).
    { unfold serve, next_net. by rewrite Hnet, He. }
    assert (Hskip : lookup_skipped (Response.failed e) = true)
      by (unfold lookup_skipped; simpl; by rewrite Hcode).
    change (length ((p, z) :: rest)) with (S (length rest)).
    rewrite bulk_idle_step; rewrite Hserve; cbn [fst snd].
    + rewrite Hskip.
      set (w' := log _ (log _ (tick w))).
      destruct (IH w') as (Hout & Hps & Hprod & Hled & Hj).
      { unfold w'. simpl. rewrite Hnet. simpl. lia. }
      { unfold w'. simpl. by rewrite Hnet. }
      split; [done|]. split; [done|]. split; [done|]. split; [done|].
      rewrite Hj. unfold w'. simpl. rewrite !main_requests_app, !length_app.
      simpl. lia.
    + unfold bulk_pushed. by rewrite Hskip.
Qed.

(** ** Staging an inventory *)

Lemma NoDup_map_filter {A B} (f : A -> B) (P : A -> Prop)
    `{!forall x, Decision (P x)} (l : list A) :
  NoDup (map f l) -> NoDup (map f (filter P l)).
Proof.
  induction l as [|x l IH]; [done|]. simpl. intros Hnd.
  apply NoDup_cons in Hnd as [Hx Hnd]. rewrite filter_cons.
  destruct (decide (P x)); [|by apply IH]. simpl. apply NoDup_cons.
  split; [|by apply IH]. intros Hin. apply Hx.
  apply list_elem_of_fmap in Hin as (y & -> & Hy).
  apply list_elem_of_filter in Hy as [_ Hy].
  apply list_elem_of_fmap. eauto.
Qed.

Lemma existsb_productId i (l : list InventoryItem.t) :
  existsb (fun item => String.eqb (InventoryItem.productId item) i) l = false
  <-> i ∉ map InventoryItem.productId l.
Proof.
  induction l as [|x l IH]; simpl.
  - split; [intros _ H; by apply elem_of_nil in H|done].
  - rewrite orb_false_iff, IH, not_elem_of_cons, String.eqb_neq.
    split; intros [H1 H2]; split; congruence.
Qed.

(** Whatever the user does on the inventory tab, from the empty list on, the
    staged list holds each product at most once and only positive
    quantities. *)
Theorem staged_items_distinct_and_positive parseInt actions :
  let s := foldl (InventoryTab.handle parseInt) InventoryTab.initial actions in
  NoDup (map InventoryItem.productId (InventoryTab.stagedItems s))
  /\ Forall (fun item => 0 < InventoryItem.quantity item)
       (InventoryTab.stagedItems s).
Proof.
  intros s. subst s.
  assert (Hinit : NoDup (map InventoryItem.productId
                           (InventoryTab.stagedItems InventoryTab.initial))
                  /\ Forall (fun item => 0 < InventoryItem.quantity item)
                       (InventoryTab.stagedItems InventoryTab.initial)).
  { split; constructor. }
  revert Hinit. generalize InventoryTab.initial.
  induction actions as [|a actions IH]; intros s Hs; [done|].
  simpl. apply IH. destruct Hs as [Hnd Hpos].
  destruct a as [productId value|product|productId|]; simpl.
  - done.
  - unfold InventoryTab.handleStageItem.
    destruct (0 <? default 0 (InventoryTab.quantities s !! Product.id product))
      eqn:Hq; simpl; [|done].
    destruct (existsb _ (InventoryTab.stagedItems s)) eqn:Hex; simpl; [done|].
    apply existsb_productId in Hex. apply Z.ltb_lt in Hq. split.
    + rewrite map_app. simpl. apply NoDup_app. split; [done|].
      split; [|apply NoDup_singleton].
      intros x Hx Hx'. apply list_elem_of_singleton in Hx'. by subst.
    + apply Forall_app. split; [done|]. by repeat constructor.
  - split.
    + by apply NoDup_map_filter.
    + rewrite Forall_forall in Hpos |- *. intros x Hx.
      apply list_elem_of_filter in Hx as [_ Hx]. auto.
  - split; constructor.
Qed.

(** Staging the quantity typed for a product not yet staged: a positive
    number is appended to the list, as typed, and the input is reset; text
    that is not a number, zero or a negative number stages nothing. *)
Theorem typed_quantity_is_staged parseInt product value s :
  Product.id product
    ∉ map InventoryItem.productId (InventoryTab.stagedItems s) ->
  let s' := InventoryTab.handleStageItem product
              (InventoryTab.handleQuantityChange parseInt
                 (Product.id product) value s) in
  match parseInt value with
  | Some quantity =>
      if 0 <? quantity then
        InventoryTab.stagedItems s'
        = InventoryTab.stagedItems s
          ++ [{| InventoryItem.productId := Product.id product;
                 InventoryItem.name := Product.name product;
                 InventoryItem.quantity := quantity |}]
        /\ InventoryTab.quantities s' !! Product.id product = Some 0
      else InventoryTab.stagedItems s' = InventoryTab.stagedItems s
  | None => InventoryTab.stagedItems s' = InventoryTab.stagedItems s
  end.
Proof.
  intros Hnew s'. subst s'. apply existsb_productId in Hnew.
  unfold InventoryTab.handleStageItem, InventoryTab.handleQuantityChange.
  simpl. rewrite lookup_insert_eq. simpl. rewrite Hnew. simpl.
  destruct (parseInt value) as [quantity|]; simpl; [|done].
  destruct (Z.ltb_spec quantity 0).
  - destruct (Z.ltb_spec 0 quantity); [lia|]. simpl. done.
  - destruct (Z.ltb_spec 0 quantity); simpl; [|done].
    split; [done|]. by rewrite lookup_insert_eq.
Qed.

(** Unstaging a product that was just staged gives the list back. *)
Theorem stage_then_unstage product s :
  Product.id product
    ∉ map InventoryItem.productId (InventoryTab.stagedItems s) ->
  InventoryTab.stagedItems
    (InventoryTab.handleUnstageItem (Product.id product)
       (InventoryTab.handleStageItem product s))
  = InventoryTab.stagedItems s.
Proof.
  intros Hnew.
  assert (Hkeep : filter (fun item => negb (String.eqb
                            (InventoryItem.productId item) (Product.id product)))
                    (InventoryTab.stagedItems s)
                  = InventoryTab.stagedItems s).
  { induction (InventoryTab.stagedItems s) as [|x l IH]; [done|].
    simpl in Hnew. apply not_elem_of_cons in Hnew as [Hx Hl].
    rewrite filter_cons_True, IH; [done|done|].
    apply Is_true_true, negb_true_iff, String.eqb_neq. congruence. }
  unfold InventoryTab.handleUnstageItem, InventoryTab.handleStageItem.
  destruct (_ && _); simpl; [|done].
  rewrite filter_app, Hkeep. simpl. rewrite filter_cons_False.
  - by rewrite app_nil_r.
  - simpl. rewrite String.eqb_refl. simpl. by intros [].
Qed.

(** ** Recording a consumption from the depot dashboard *)

Lemma handleConsumption_sequential confirmed currentUser quantities product :
  sequential 2
    (StockExitTab.handleConsumption confirmed currentUser quantities product).
Proof.
  unfold StockExitTab.handleConsumption, depotRecordConsumption,
    addStockMovement, generateTransactionRef, await, Date_now, client.
  simpl. sequential.
Qed.

(** [handleConsumption] makes no request when no quantity is entered for the
    product, when the quantity is not positive, when it exceeds the stock of
    the product shown, or when the user does not confirm: the tables and the
    entered quantities stay as they are. *)
Theorem handleConsumption_refuses confirmed currentUser quantities product w n :
  let quantity := default 0 (quantities !! Product.id product) in
  quantity <= 0 \/ Product.stock product < quantity \/ confirmed = false ->
  let st := run n (start (StockExitTab.handleConsumption confirmed currentUser
                            quantities product) w) in
  outcome st = Returned quantities
  /\ products (world st) = products w
  /\ stock_movements (world st) = stock_movements w
  /\ main_requests (journal (world st)) = main_requests (journal w).
Proof.
  intros quantity Hno st. subst st quantity.
  unfold StockExitTab.handleConsumption.
  destruct (quantities !! Product.id product) as [q|]; simpl in *.
  2: { rewrite run_quiescent by reflexivity. simpl.
       rewrite main_requests_app. simpl. by rewrite app_nil_r. }
  destruct (Z.eqb_spec q 0); simpl.
  { rewrite run_quiescent by reflexivity. simpl.
    rewrite main_requests_app. simpl. by rewrite app_nil_r. }
  destruct (Z.leb_spec q 0); simpl.
  { rewrite run_quiescent by reflexivity. simpl.
    rewrite main_requests_app. simpl. by rewrite app_nil_r. }
  destruct (Z.ltb_spec (Product.stock product) q); simpl.
  { rewrite run_quiescent by reflexivity. simpl.
    rewrite main_requests_app. simpl. by rewrite app_nil_r. }
  destruct Hno as [?|[?| ->]]; [lia|lia|].
  by rewrite run_quiescent by reflexivity.
Qed.

(** [handleConsumption] for a confirmed quantity between 1 and the stock of
    the product shown.  The sign check of [depotRecordConsumption] does not
    fire.  If the stock write fails, the user is shown the store's message
    and nothing changes; if it is served, the product holds the stock shown
    less the quantity, the user is told of the success and the entered
    quantity is reset, whatever became of the ledger row. *)
Theorem handleConsumption_records currentUser quantities product quantity w :
  quantities !! Product.id product = Some quantity ->
  0 < quantity -> quantity <= Product.stock product ->
  let st := run 2 (start (StockExitTab.handleConsumption true currentUser
                            quantities product) w) in
  match Net.fault (next_net w) with
  | Some e =>
      outcome st = Returned quantities
      /\ products (world st) = products w
      /\ stock_movements (world st) = stock_movements w
      /\ last (journal (world st))
         = Some (Did (AddNotification ("Erreur: " +:+ JsError.message e)
                        toast_error))
  | None =>
      outcome st = Returned (<[Product.id product := 0]> quantities)
      /\ products (world st)
         = stock_set (Product.id product)
             (Double.sub (Product.stock product) quantity) (products w)
      /\ last (journal (world st))
         = Some (Did (AddNotification
                        "Sortie de stock enregistrée avec succès."
                        toast_success))
  end.
Proof.
  intros Hq Hpos Hle st. subst st.
  rewrite run_sequential by apply handleConsumption_sequential.
  destruct w as [ps ms ss cs t net j]. unfold next_net in *; simpl in *.
  unfold StockExitTab.handleConsumption, depotRecordConsumption,
    addStockMovement, generateTransactionRef, await, Date_now, client.
  rewrite Hq. simpl.
  destruct (Z.eqb_spec quantity 0); [lia|].
  destruct (Z.leb_spec quantity 0); [lia|].
  destruct (Z.ltb_spec (Product.stock product) quantity); [lia|].
  destruct (Z.ltb_spec (Double.sub (Product.stock product) quantity) 0)
    as [Hneg|_]; [rewrite sub_neg in Hneg; lia|].
  simpl.
  destruct net as [|n1 net]; simpl.
  - unfold serve, next_net, tick. simpl.
    repeat split; try reflexivity. by rewrite last_snoc.
  - destruct (Net.fault n1) as [e|] eqn:Hn1.
    + round_trip Hn1. repeat split; try reflexivity. by rewrite last_snoc.
    + round_trip Hn1.
      destruct net as [|n2 net]; simpl.
      * unfold serve, next_net, tick. simpl.
        repeat split; try reflexivity. by rewrite last_snoc.
      * destruct (Net.fault n2) as [e|] eqn:Hn2; round_trip Hn2;
          repeat split; try reflexivity; by rewrite last_snoc.
Qed.

(** ** The pages of the movement history *)

Lemma slice_forward {A} (a b : Z) (l : list A) :
  0 <= a <= b ->
  MovementHistory.slice a b l
  = take (Z.to_nat (b - a)) (drop (Z.to_nat a) l).
Proof.
  intros Hab. unfold MovementHistory.slice.
  destruct (Z.ltb_spec a 0); [lia|]. destruct (Z.ltb_spec b 0); [lia|].
  set (len := Z.of_nat (length l)).
  destruct (Z.le_gt_cases len a) as [Hla|Hla].
  - rewrite (drop_ge l (Z.to_nat a)) by lia.
    rewrite drop_ge by lia. by rewrite !take_nil.
  - replace (Z.min a len) with a by lia.
    destruct (Z.le_gt_cases b len) as [Hlb|Hlb].
    + by replace (Z.max (Z.min b len - a) 0) with (b - a) by lia.
    + replace (Z.max (Z.min b len - a) 0) with (len - a) by lia.
      rewrite !take_ge; [done| |]; rewrite length_drop; lia.
Qed.

Lemma chunks_cover {A} (k m : nat) (l : list A) :
  (length l <= m * k)%nat ->
  concat (map (fun i => take k (drop (i * k) l)) (seq 0 m)) = l.
Proof.
  revert l. induction m as [|m IH]; intros l Hl.
  - simpl in *. by destruct l; [|simpl in Hl; lia].
  - rewrite <- cons_seq, <- fmap_S_seq. simpl.
    transitivity (take k l ++ drop k l); [|apply take_drop]. f_equal.
    rewrite <- (IH (drop k l)) by (rewrite length_drop; lia).
    f_equal. change (S <$> seq 0 m) with (map S (seq 0 m)).
    rewrite map_map. apply map_ext. intros i. simpl.
    rewrite drop_drop. do 2 f_equal; lia.
Qed.

Lemma totalPages_bounds {A} (l : list A) :
  let n := Z.of_nat (length l) in
  let T := MovementHistory.totalPages l in
  0 <= T /\ n <= T * 25 /\ (T - 1) * 25 < n \/ (n = 0 /\ T = 0).
Proof.
  intros n T. subst T. unfold MovementHistory.totalPages,
    MovementHistory.ITEMS_PER_PAGE. fold n.
  assert (Hn : 0 <= n) by lia.
  pose proof (Z.div_mod (- n) 25 ltac:(lia)) as Hdm.
  pose proof (Z.mod_pos_bound (- n) 25 ltac:(lia)) as Hm.
  lia.
Qed.

(** The pages 1 to [totalPages], one after the other, are the whole list;
    each has at most 25 rows and none is empty. *)
Theorem pages_partition_the_list {A} (filteredMovements : list A) :
  let pages := map (fun i => MovementHistory.paginatedMovements
                               filteredMovements (Z.of_nat i))
                 (seq 1 (Z.to_nat (MovementHistory.totalPages
                                     filteredMovements))) in
  concat pages = filteredMovements
  /\ Forall (fun page => (0 < length page <= 25)%nat) pages.
Proof.
  intros pages. subst pages.
  set (l := filteredMovements).
  pose proof (totalPages_bounds l) as HB. cbv zeta in HB.
  set (T := MovementHistory.totalPages l) in *.
  assert (HT : 0 <= T /\ Z.of_nat (length l) <= T * 25
               /\ ((T - 1) * 25 < Z.of_nat (length l) \/ T = 0)) by lia.
  clear HB.
  destruct HT as (HT0 & Hup & Hlow).
  assert (Hpage : forall i, (1 <= i)%nat ->
            MovementHistory.paginatedMovements l (Z.of_nat i)
            = take 25 (drop ((i - 1) * 25) l)).
  { intros i Hi. unfold MovementHistory.paginatedMovements,
      MovementHistory.ITEMS_PER_PAGE. rewrite slice_forward by lia.
    f_equal; [lia|]. f_equal; lia. }
  split.
  - transitivity (concat (map (fun i => take 25 (drop (i * 25) l))
                            (seq 0 (Z.to_nat T))));
      [|apply chunks_cover; lia].
    f_equal. rewrite <- fmap_S_seq.
    change (S <$> seq 0 (Z.to_nat T)) with (map S (seq 0 (Z.to_nat T))).
    rewrite map_map. apply map_ext_in. intros i Hi. simpl. rewrite Hpage by lia.
    do 2 f_equal; lia.
  - apply Forall_forall. intros page Hin.
    apply list_elem_of_fmap in Hin as (i & -> & Hi).
    apply elem_of_seq in Hi. rewrite Hpage by lia.
    rewrite length_take, length_drop. lia.
Qed.

(** From page 1, whatever buttons are clicked, the page shown lies between
    1 and [totalPages] (or is page 1 of an empty list): its rows are those
    of one of the pages above. *)
Theorem clicks_stay_within_the_pages {A} (filteredMovements : list A) clicks :
  let currentPage :=
    foldl (MovementHistory.click filteredMovements) 1 clicks in
  1 <= currentPage
  /\ (currentPage <= MovementHistory.totalPages filteredMovements
      \/ (filteredMovements = [] /\ currentPage = 1)).
Proof.
  intros currentPage. subst currentPage.
  pose proof (totalPages_bounds filteredMovements) as HB. cbv zeta in HB.
  set (T := MovementHistory.totalPages filteredMovements) in *.
  assert (Hstart : 1 <= 1 /\ (1 <= T \/ (filteredMovements = [] /\ 1 = 1))).
  { split; [lia|]. destruct filteredMovements as [|x l]; [by right|left].
    simpl length in HB. lia. }
  assert (HT0 : 0 <= T) by lia.
  clear HB.
  assert (Hgen : forall p,
            1 <= p /\ (p <= T \/ (filteredMovements = [] /\ p = 1)) ->
            1 <= foldl (MovementHistory.click filteredMovements) p clicks
            /\ (foldl (MovementHistory.click filteredMovements) p clicks <= T
                \/ (filteredMovements = []
                    /\ foldl (MovementHistory.click filteredMovements) p clicks
                       = 1))); [|by apply Hgen].
  clear Hstart.
  induction clicks as [|c clicks IH]; intros p Hp; [done|].
  simpl. apply IH. destruct Hp as [Hp1 Hp2].
  destruct c; simpl; fold T.
  - destruct (Z.eqb_spec p 1); intuition lia.
  - destruct (Z.eqb_spec p T); simpl; [intuition lia|].
    destruct (Z.eqb_spec T 0); simpl; intuition lia.
Qed.

(** ** The admin's depot stock page *)

Lemma Map_set_keys (m : list (string * Product.t)) entry :
  NoDup (map fst m) -> NoDup (map fst (DepotStockManager.Map_set m entry)).
Proof.
  intros Hnd. unfold DepotStockManager.Map_set.
  destruct (existsb _ m) eqn:Hex.
  - rewrite map_map.
    assert (Hsame : map (fun kv : string * Product.t =>
                           (if String.eqb kv.1 entry.1 then entry else kv).1) m
                    = map fst m); [|by rewrite Hsame].
    apply map_ext. intros kv. destruct (String.eqb_spec kv.1 entry.1); done.
  - rewrite map_app. simpl. apply NoDup_app. split; [done|].
    split; [|apply NoDup_singleton]. intros k Hk Hk'.
    apply list_elem_of_singleton in Hk'. subst k.
    apply list_elem_of_fmap in Hk as (kv & Hkey & Hkv).
    assert (Htrue : existsb (fun kv => String.eqb kv.1 entry.1) m = true).
    { apply existsb_exists. exists kv. split; [by apply list_elem_of_In|].
      by apply String.eqb_eq. }
    congruence.
Qed.

Lemma Map_set_members (Q : string * Product.t -> Prop) m entry :
  Forall Q m -> Q entry -> Forall Q (DepotStockManager.Map_set m entry).
Proof.
  intros Hm He. unfold DepotStockManager.Map_set.
  destruct (existsb _ m).
  - apply Forall_fmap. eapply Forall_impl; [exact Hm|]. intros kv Hkv. simpl.
    by destruct (String.eqb kv.1 entry.1).
  - apply Forall_app. split; [done|]. by repeat constructor.
Qed.

Lemma Map_new_unique (allProducts : list Product.t) :
  let m := DepotStockManager.Map_new
             (map (fun p => (Product.code p, p)) allProducts) in
  NoDup (map fst m)
  /\ Forall (fun kv => kv.1 = Product.code kv.2 /\ kv.2 ∈ allProducts) m.
Proof.
  intros m. subst m. unfold DepotStockManager.Map_new.
  assert (Hgen : forall entries m0,
            NoDup (map fst m0) ->
            Forall (fun kv : string * Product.t =>
                      kv.1 = Product.code kv.2 /\ kv.2 ∈ allProducts) m0 ->
            Forall (fun kv : string * Product.t =>
                      kv.1 = Product.code kv.2 /\ kv.2 ∈ allProducts) entries ->
            NoDup (map fst (foldl DepotStockManager.Map_set m0 entries))
            /\ Forall (fun kv : string * Product.t =>
                         kv.1 = Product.code kv.2 /\ kv.2 ∈ allProducts)
                 (foldl DepotStockManager.Map_set m0 entries)).
  { induction entries as [|entry entries IH]; intros m0 Hnd Hm Hes; [done|].
    inversion Hes; subst. simpl. apply IH; [|by apply Map_set_members|done].
    by apply Map_set_keys. }
  apply Hgen; [constructor|constructor|].
  apply Forall_fmap, Forall_forall. intros p Hp. done.
Qed.

Lemma handleStockChange_rows rows changes :
  Forall2 (fun row row' =>
             DepotStockManager.product row' = DepotStockManager.product row
             /\ DepotStockManager.currentStock row'
                = DepotStockManager.currentStock row)
    rows (foldl DepotStockManager.handleStockChange rows changes).
Proof.
  revert rows. induction changes as [|[code value] changes IH]; intros rows.
  - simpl. apply Forall2_same_length_lookup_2; [done|].
    intros i x y Hx Hy. by simplify_eq.
  - simpl.
    assert (Hstep : Forall2 (fun row row' =>
              DepotStockManager.product row' = DepotStockManager.product row
              /\ DepotStockManager.currentStock row'
                 = DepotStockManager.currentStock row)
              rows (DepotStockManager.handleStockChange rows (code, value))).
    { clear IH. induction rows as [|row rows IH]; simpl; constructor; [|done].
      by destruct (String.eqb (Product.code (DepotStockManager.product row))
                     code). }
    eapply Forall2_trans; [|exact Hstep|apply IH].
    intros x y z [Hp Hc] [Hp' Hc']. split; congruence.
Qed.

Lemma rows_of_kept sort_by_name selectedDepot allProducts rows :
  Forall2 (fun row row' =>
             DepotStockManager.product row' = DepotStockManager.product row
             /\ DepotStockManager.currentStock row'
                = DepotStockManager.currentStock row)
    (DepotStockManager.rows_of sort_by_name selectedDepot allProducts) rows ->
  map DepotStockManager.product rows
  = sort_by_name
      (DepotStockManager.Map_values
         (DepotStockManager.Map_new
            (map (fun p => (Product.code p, p)) allProducts)))
  /\ Forall (fun row =>
       DepotStockManager.currentStock row
       = match find (fun p => String.eqb (Product.code p)
                       (Product.code (DepotStockManager.product row))
                     && String.eqb (Product.location p)
                          (Depot.name selectedDepot))
                 allProducts with
         | Some p => Product.stock p
         | None => 0
         end) rows.
Proof.
  unfold DepotStockManager.rows_of.
  generalize (sort_by_name
                (DepotStockManager.Map_values
                   (DepotStockManager.Map_new
                      (map (fun p => (Product.code p, p)) allProducts)))).
  intros l. revert rows. induction l as [|x l IH]; intros rows Hrows;
    inversion Hrows as [|? y ? k [Hp Hc] Hk]; subst; simpl in *.
  - split; constructor.
  - destruct (IH k Hk) as [IH1 IH2]. split.
    + by rewrite Hp, IH1.
    + constructor; [|done]. by rewrite Hp, Hc.
Qed.

(** The pairs the page hands to [setDepotInventory], for whatever the admin
    typed into the rows of the selected depot: no two pairs share a product
    code, every product is one of the products the page was given, no count
    is negative, and every count differs from the stock the page shows for
    that code at the depot. *)
Theorem depot_page_sends_distinct_codes
    sort_by_name Number selectedDepot allProducts changes :
  (forall l, sort_by_name l ≡ₚ l) ->
  let rows := foldl DepotStockManager.handleStockChange
                (DepotStockManager.rows_of sort_by_name selectedDepot
                   allProducts)
                changes in
  let items := DepotStockManager.itemsToUpdate Number rows in
  NoDup (map (fun item : Product.t * Z => Product.code item.1) items)
  /\ Forall (fun item : Product.t * Z =>
               item.1 ∈ allProducts
               /\ 0 <= item.2
               /\ item.2
                  <> match find (fun p => String.eqb (Product.code p)
                                            (Product.code item.1)
                                          && String.eqb (Product.location p)
                                               (Depot.name selectedDepot))
                             allProducts with
                     | Some p => Product.stock p
                     | None => 0
                     end)
       items.
Proof.
  intros Hsort rows items.
  destruct (Map_new_unique allProducts) as [Hkeys Hvals].
  set (m := DepotStockManager.Map_new
              (map (fun p => (Product.code p, p)) allProducts)) in *.
  set (uniqueProducts := sort_by_name (DepotStockManager.Map_values m)).
  assert (Hcodes : map Product.code (DepotStockManager.Map_values m)
                   = map fst m).
  { unfold DepotStockManager.Map_values. rewrite map_map.
    apply map_ext_in. intros kv Hkv. apply list_elem_of_In in Hkv.
    rewrite Forall_forall in Hvals. by destruct (Hvals kv Hkv) as [-> _]. }
  assert (Hnd : NoDup (map Product.code uniqueProducts)).
  { unfold uniqueProducts.
    assert (Hperm : map Product.code
                      (sort_by_name (DepotStockManager.Map_values m))
                    ≡ₚ map Product.code (DepotStockManager.Map_values m))
      by (apply fmap_Permutation, Hsort).
    rewrite Hperm, Hcodes. done. }
  assert (Hmem : Forall (fun p => p ∈ allProducts) uniqueProducts).
  { unfold uniqueProducts. rewrite (Hsort _).
    unfold DepotStockManager.Map_values. apply Forall_fmap.
    eapply Forall_impl; [exact Hvals|]. by intros kv [_ ?]. }
  pose proof (handleStockChange_rows
                (DepotStockManager.rows_of sort_by_name selectedDepot
                   allProducts) changes) as Hrows.
  fold rows in Hrows.
  destruct (rows_of_kept _ _ _ _ Hrows) as [Hprod Hstock].
  fold m in Hprod. fold uniqueProducts in Hprod.
  subst items. unfold DepotStockManager.itemsToUpdate.
  rewrite <- Hprod in Hnd, Hmem. clear Hprod Hrows.
  induction rows as [|row rows IH]; [split; constructor|].
  simpl in Hnd, Hmem. apply NoDup_cons in Hnd as [Hrow Hnd].
  inversion Hmem as [|? ? Hin Hmem']; subst.
  inversion Hstock as [|? ? Hcur Hstock']; subst.
  destruct (IH Hnd Hmem' Hstock') as [IH1 IH2]. clear IH.
  rewrite filter_cons.
  destruct (decide (Number (DepotStockManager.newStock row)
                    <> Some (DepotStockManager.currentStock row)))
    as [Hne|_]; [|done].
  simpl. destruct (Number (DepotStockManager.newStock row)) as [z|]; [|done].
  destruct (Z.leb_spec 0 z); [|done]. simpl. split.
  - apply NoDup_cons. split; [|done]. intros Hcode. apply Hrow.
    apply list_elem_of_fmap in Hcode as ([p' z'] & Hp' & Hitem). simpl in Hp'.
    apply list_elem_of_omap in Hitem as ([p'' o] & Hitem & Hsome).
    apply list_elem_of_fmap in Hitem as (row' & Heq & Hrow').
    apply list_elem_of_filter in Hrow' as [_ Hrow'].
    simpl in Hsome. destruct o as [z''|]; [|done].
    destruct (0 <=? z''); [|done]. simplify_eq.
    rewrite Hp'. apply list_elem_of_fmap. exists (DepotStockManager.product row').
    split; [done|]. apply list_elem_of_fmap. eauto.
  - constructor; [|done]. simpl. split; [done|]. split; [done|].
    rewrite <- Hcur. congruence.
Qed.

(** ** Rejecting a submission *)

Lemma handleReject_sequential confirmed submissions submission :
  sequential 1 (Dashboard.handleReject confirmed submissions submission).
Proof.
  unfold Dashboard.handleReject, updateSubmissionStatus, await, client.
  destruct confirmed; simpl; sequential.
Qed.

(** [handleReject] changes no product and no ledger row.  Not confirmed, it
    makes no request.  Confirmed and served, it sets the status of the
    submission to [rejected], in the table and in the list the page holds,
    and of no other submission; confirmed and failed, it changes
    neither. *)
Theorem handleReject_only_sets_the_status confirmed submissions submission w :
  let st := run 1 (start (Dashboard.handleReject confirmed submissions
                            submission) w) in
  let rejected_in (ss : list InventorySubmission.t) :=
    map (fun s => if String.eqb (InventorySubmission.id s)
                       (InventorySubmission.id submission)
                  then InventorySubmission.with_status rejected s else s) ss in
  products (world st) = products w
  /\ stock_movements (world st) = stock_movements w
  /\ if confirmed then
       match Net.fault (next_net w) with
       | None =>
           outcome st = Returned (rejected_in submissions)
           /\ inventory_submissions (world st)
              = rejected_in (inventory_submissions w)
       | Some _ =>
           outcome st = Returned submissions
           /\ inventory_submissions (world st) = inventory_submissions w
       end
     else
       outcome st = Returned submissions
       /\ world st = w.
Proof.
  intros st rejected_in. subst st rejected_in.
  rewrite run_sequential by apply handleReject_sequential.
  destruct w as [ps ms ss cs t net j]. unfold next_net in *; simpl in *.
  unfold Dashboard.handleReject, updateSubmissionStatus, await, client.
  destruct confirmed; simpl; [|done].
  unfold serve, next_net, tick. simpl.
  destruct (Net.fault match net with [] => Net.quiet | n :: _ => n end);
    simpl; done.
Qed.

(** ** What an operation leaves alone *)

Lemma other_products_rewritten ids i f ps :
  i ∈ ids -> (forall r, Product.id (f r) = Product.id r) ->
  other_products ids (map (fun r => if id_is i r then f r else r) ps)
  = other_products ids ps.
Proof.
  intros Hi Hf. unfold other_products.
  induction ps as [|x ps IH]; [done|]. cbn [map]. rewrite !filter_cons, IH.
  destruct (id_is i x) eqn:Hx; [|done].
  apply String.eqb_eq in Hx.
  destruct (decide (Product.id (f x) ∉ ids)) as [H|_];
    [rewrite Hf, Hx in H; done|].
  destruct (decide (Product.id x ∉ ids)) as [H|_]; [rewrite Hx in H; done|].
  done.
Qed.

Lemma serve_writes_within ids w0 who q w :
  writes_within ids q ->
  other_products ids (products w) = other_products ids (products w0) ->
  other_products ids (products (serve who q w).2)
  = other_products ids (products w0).
Proof.
  intros Hq Hw. unfold serve.
  destruct (Net.fault (next_net w)); simpl; [done|].
  destruct q as [p|i|i|c l|i p|i z|m|x|i st|m]; simpl in *; try done.
  - by rewrite other_products_rewritten.
  - by rewrite other_products_rewritten.
Qed.

Lemma invoke_writes_within op :
  (forall depotName inventory adminUser,
     op <> BulkInventorySet depotName inventory adminUser) ->
  (forall product user, op <> ProductCreate product user) ->
  async_asks (writes_within (named_products op)) (invoke op).
Proof.
  intros Hbulk Hcreate.
  destruct op as [product user|product user|product quantity user
                 |productId quantity movementType adminUser
                 |s adminUser|depotName inventory adminUser]; simpl.
  - by destruct (Hcreate product user).
  - unfold updateProduct, addStockMovement, generateTransactionRef, await,
      Date_now. simpl. asks; simpl; try done. left.
  - unfold depotRecordConsumption, addStockMovement, generateTransactionRef,
      await, Date_now, client. simpl. asks; simpl; try done. left.
  - unfold adminCreateMovement, addStockMovement, generateTransactionRef,
      await, Date_now, client. simpl. asks; simpl; try done. left.
  - unfold approveSubmission, updateSubmissionStatus, generateTransactionRef,
      await, Date_now, await_Promise_all, client. simpl. asks; simpl; try done.
    apply push_all_asks. apply Forall_forall. intros c Hc.
    apply list_elem_of_fmap in Hc as (item & -> & Hitem).
    unfold approve_item, approve_item_write, approve_item_log.
    asks; simpl; try done. apply list_elem_of_fmap. eauto.
  - by destruct (Hbulk depotName inventory adminUser).
Qed.

(** An edit, a consumption, an admin movement or an approval, however far
    it has run, whichever of its requests failed and in whatever order the
    store served them: every product it was not given is in the table as it
    was, and no product has been added or removed. *)
Theorem operation_touches_only_named_products op w n :
  (forall depotName inventory adminUser,
     op <> BulkInventorySet depotName inventory adminUser) ->
  (forall product user, op <> ProductCreate product user) ->
  let st := run n (start (invoke op) w) in
  other_products (named_products op) (products (world st))
  = other_products (named_products op) (products w)
  /\ map Product.id (products (world st)) = map Product.id (products w).
Proof.
  intros Hbulk Hcreate st. subst st.
  apply (start_keeps (writes_within (named_products op))
           (fun w' => other_products (named_products op) (products w')
                      = other_products (named_products op) (products w)
                      /\ map Product.id (products w')
                         = map Product.id (products w))).
  - intros who q w' Hq [Hw' Hids]. split; [by apply serve_writes_within|].
    rewrite <- Hids. unfold serve.
    destruct (Net.fault (next_net w')); simpl; [done|].
    destruct q as [p|i|i|c l|i p|i z|m|x|i st|m]; simpl in *; try done.
    + rewrite map_map. apply map_ext. intros r. by destruct (id_is i r).
    + rewrite map_map. apply map_ext. intros r. by destruct (id_is i r).
  - done.
  - by apply invoke_writes_within.
  - done.
Qed.

Lemma invoke_approval_writes_held s adminUser ps :
  (forall item, item ∈ InventorySubmission.items s ->
     holds (InventoryItem.productId item) (InventoryItem.quantity item) ps) ->
  async_asks (writes_held ps) (approveSubmission s adminUser).
Proof.
  intros Hheld.
  unfold approveSubmission, updateSubmissionStatus, generateTransactionRef,
    await, Date_now, await_Promise_all, client. simpl. asks; simpl; try done.
  apply push_all_asks. apply Forall_forall. intros c Hc.
  apply list_elem_of_fmap in Hc as (item & -> & Hitem).
  unfold approve_item, approve_item_write, approve_item_log.
  asks; simpl; try done. by apply Hheld.
Qed.

(** Approving a submission whose counts the products already hold, as after
    a first approval of it, changes no product: however far the approval
    has run, whichever requests failed and in whatever order they were
    served, the products table is what it was. *)
Theorem approval_of_held_counts_changes_no_product s adminUser w n :
  (forall item, item ∈ InventorySubmission.items s ->
     holds (InventoryItem.productId item) (InventoryItem.quantity item)
       (products w)) ->
  products (world (run n (start (approveSubmission s adminUser) w)))
  = products w.
Proof.
  intros Hheld.
  apply (start_keeps (writes_held (products w))
           (fun w' => products w' = products w)).
  - intros who q w' Hq Hw'. unfold serve.
    destruct (Net.fault (next_net w')); simpl; [done|].
    destruct q as [p|i|i|c l|i p|i z|m|x|i st|m]; simpl in *; try done.
    rewrite Hw'. by apply stock_set_held.
  - done.
  - by apply invoke_approval_writes_held.
  - done.
Qed.

Lemma invoke_status_of_own op : async_asks (status_of_own op) (invoke op).
Proof.
  destruct op as [product user|product user|product quantity user
                 |productId quantity movementType adminUser
                 |s adminUser|depotName inventory adminUser]; simpl.
  - unfold addProduct, addStockMovement, generateTransactionRef, await,
      Date_now. simpl. asks; simpl; done.
  - unfold updateProduct, addStockMovement, generateTransactionRef, await,
      Date_now. simpl. asks; simpl; done.
  - unfold depotRecordConsumption, addStockMovement, generateTransactionRef,
      await, Date_now, client. simpl. asks; simpl; done.
  - unfold adminCreateMovement, addStockMovement, generateTransactionRef,
      await, Date_now, client. simpl. asks; simpl; done.
  - unfold approveSubmission, updateSubmissionStatus, generateTransactionRef,
      await, Date_now, await_Promise_all, client. simpl. asks; simpl; try done.
    apply push_all_asks. apply Forall_forall. intros c Hc.
    apply list_elem_of_fmap in Hc as (item & -> & Hitem).
    unfold approve_item, approve_item_write, approve_item_log.
    asks; simpl; done.
  - unfold setDepotInventory, generateTransactionRef, await, Date_now,
      await_Promise_all, client, push. simpl. asks; simpl; try done.
    apply for_of_asks. intros [product newStock] Hin.
    asks; simpl; done.
Qed.

(** No stock operation writes to the chat, and none adds, removes or
    reorders a submission.  Only an approval changes one: a row with the id
    of the submission it is given may have its status set to [approved] or
    [pending], never to [rejected], and is otherwise as it was; every other
    operation leaves the table as it was.  This holds however far the
    operation has run, whichever requests failed and in whatever order they
    were served. *)
Theorem operation_keeps_submissions_and_chat op w n :
  submissions_kept op w (world (run n (start (invoke op) w))).
Proof.
  apply (start_keeps (status_of_own op) (submissions_kept op w)).
  - intros who q w' Hq [Hchat Hsubs]. unfold serve.
    destruct (Net.fault (next_net w')); simpl; [done|].
    destruct q as [p|i|i|c l|i p|i z|m|x|i st|m]; simpl in *; try done.
    split; [done|]. simpl.
    destruct op as [product user|product user|product quantity user
                   |productId quantity movementType adminUser
                   |s adminUser|depotName inventory adminUser]; try done.
    destruct Hq as [-> Hst].
    apply Forall2_fmap_r. eapply Forall2_impl; [exact Hsubs|].
    intros x0 x Hx. simpl.
    destruct (String.eqb_spec (InventorySubmission.id x)
                (InventorySubmission.id s)) as [Heq|Hne]; [|done].
    right. destruct Hx as [->|(Hid & st' & _ & ->)].
    + split; [done|]. by exists st.
    + split; [done|]. by exists st.
  - done.
  - apply invoke_status_of_own.
  - split; [done|].
    destruct op; try done. apply Forall2_same_length_lookup_2; [done|].
    intros i x y Hx Hy. left. congruence.
Qed.

(** ** Bulk inventory set: the recount of the products found *)

Lemma unique_row_by_id (tbl : list Product.t) x :
  NoDup (map Product.id tbl) -> x ∈ tbl ->
  filter (id_is (Product.id x)) tbl = [x].
Proof.
  induction tbl as [|r tbl IH]; intros Hnd Hx.
  - by apply elem_of_nil in Hx.
  - simpl in Hnd. apply NoDup_cons in Hnd as [Hr Hnd].
    apply elem_of_cons in Hx as [->|Hx].
    + rewrite filter_cons_True
        by (unfold id_is; by rewrite String.eqb_refl).
      f_equal. by apply filter_id_unknown.
    + rewrite filter_cons_False; [by apply IH|].
      intros H. apply Is_true_true, String.eqb_eq in H.
      apply Hr. rewrite H. apply list_elem_of_fmap. eauto.
Qed.

(** ** Bulk inventory set: the products found at the depot *)

Lemma same_id_same_row (tbl : list Product.t) x y :
  NoDup (map Product.id tbl) -> x ∈ tbl -> y ∈ tbl ->
  Product.id x = Product.id y -> x = y.
Proof.
  induction tbl as [|r tbl IH]; intros Hnd Hx Hy Hid.
  - by apply elem_of_nil in Hx.
  - simpl in Hnd. apply NoDup_cons in Hnd as [Hr Hnd].
    apply elem_of_cons in Hx as [->|Hx]; apply elem_of_cons in Hy as [->|Hy].
    + done.
    + destruct Hr. rewrite Hid. apply list_elem_of_fmap. eauto.
    + destruct Hr. rewrite <- Hid. apply list_elem_of_fmap. eauto.
    + by apply IH.
Qed.

Lemma codes_apart (tbl : list Product.t) i j c c' :
  NoDup (map Product.id tbl) -> has_row tbl i c -> has_row tbl j c' ->
  c <> c' -> i <> j.
Proof.
  intros Hnd (x & Hx & Hi & Hc) (y & Hy & Hj & Hc') Hne Heq.
  apply Hne. rewrite <- Hc, <- Hc'. f_equal.
  apply (same_id_same_row tbl); auto. congruence.
Qed.

Lemma elem_stock_set_other (tbl : list Product.t) x X z :
  x ∈ tbl -> Product.id x <> X -> x ∈ stock_set X z tbl.
Proof.
  intros Hx Hne. unfold stock_set. apply list_elem_of_fmap. exists x.
  split; [|done]. destruct (id_is X x) eqn:H; [|done].
  apply String.eqb_eq in H. done.
Qed.

Lemma elem_stock_set_same (tbl : list Product.t) x z :
  x ∈ tbl -> Product.with_stock z x ∈ stock_set (Product.id x) z tbl.
Proof.
  intros Hx. unfold stock_set. apply list_elem_of_fmap. exists x.
  split; [|done]. unfold id_is. by rewrite String.eqb_refl.
Qed.

Lemma stock_set_untouched X z (l : list Product.t) :
  (forall y, y ∈ l -> Product.id y <> X) -> stock_set X z l = l.
Proof.
  intros H. apply stock_set_none. induction l as [|y l IH]; [done|].
  rewrite filter_cons_False.
  - apply IH. intros y' Hy'. apply H. by right.
  - intros Hy. apply Is_true_true, String.eqb_eq in Hy.
    by apply (H y); [left|].
Qed.

Lemma about_none i rows :
  (forall m, m ∈ rows -> StockMovement.product_id m <> i) -> about i rows = [].
Proof.
  intros H. induction rows as [|m rows IH]; [done|].
  change (m :: rows) with ([m] ++ rows). rewrite about_app, IH.
  - unfold about. simpl. rewrite filter_cons_False; [done|].
    intros Hm. apply Is_true_true, String.eqb_eq in Hm.
    by apply (H m); [left|].
  - intros m' Hm'. apply H. by right.
Qed.

Section BulkRecount.
Context (depotName : string) (adminUser : User.t)
  (inventory : list (Product.t * Z)) (w0 : World).

Local Abbreviation ref := (transaction_ref_at "INV" (clock w0)).
Local Abbreviation code_of := (fun item : Product.t * Z => Product.code item.1).
Local Abbreviation Owner := ((Product.t * Z) * option Product.t)%type.

Hypothesis codes_distinct : NoDup (map code_of inventory).

(** The chain a pair has pushed, for the product found (if one was) or for
    the product to create, with what the tables hold for it. *)
Inductive stage (tbl : list Product.t) (rows : list StockMovement.t)
  : Owner -> Chain -> Prop :=
| stage_recount item x :
    x ∈ tbl -> Product.code x = Product.code item.1 ->
    about (Product.id x) rows = [] ->
    stage tbl rows (item, Some x) (recount_existing ref adminUser x item.2)
| stage_recount_log item x :
    Product.with_stock item.2 x ∈ tbl ->
    Product.code x = Product.code item.1 ->
    about (Product.id x) rows = [] ->
    stage tbl rows (item, Some x)
      (Then (StockMovementsInsert (recount_row ref adminUser x item.2))
         (fun _ => Fulfilled))
| stage_recounted item x :
    Product.with_stock item.2 x ∈ tbl ->
    Product.code x = Product.code item.1 ->
    about (Product.id x) rows = [recount_row ref adminUser x item.2] ->
    stage tbl rows (item, Some x) Fulfilled
| stage_create item :
    stage tbl rows (item, None)
      (create_at_depot ref adminUser item.1 depotName item.2)
| stage_create_log item m :
    has_row tbl (StockMovement.product_id m) (Product.code item.1) ->
    stage tbl rows (item, None)
      (Then (StockMovementsInsert m) (fun _ => Fulfilled))
| stage_created item :
    stage tbl rows (item, None) Fulfilled.

(** The chain of every pair concerns a row with the code of the pair, but
    for a creation yet to come. *)
Lemma stage_row tbl rows o c q k :
  stage tbl rows o c -> c = Then q k ->
  (exists p, q = ProductsInsertSelectSingle p)
  \/ exists i, has_row tbl i (Product.code o.1.1)
               /\ (q = ProductsUpdateStock i o.1.2
                   \/ exists m, q = StockMovementsInsert m
                                /\ StockMovement.product_id m = i).
Proof.
  intros Hs Hc. destruct Hs as [item x Hx Hcode _|item x Hx Hcode _| | |item m Hm|];
    simpl; try discriminate.
  - injection Hc as <- _. right. exists (Product.id x). split; [by exists x|].
    by left.
  - injection Hc as <- _. right. exists (Product.id x).
    split; [by exists (Product.with_stock item.2 x)|]. right. by eexists.
  - injection Hc as <- _. left. by eexists.
  - injection Hc as <- _. right. exists (StockMovement.product_id m).
    split; [done|]. right. by eexists.
Qed.

Lemma stage_unbroken tbl rows owners cs :
  Forall2 (stage tbl rows) owners cs -> first_broken cs = None.
Proof.
  induction 1 as [|o c l cs Hc _ IH]; simpl; [done|].
  by destruct Hc.
Qed.

Lemma stage_settle_main rest m tbl rows owners cs w :
  main_at depotName adminUser w0 rest m ->
  Forall2 (stage tbl rows) owners cs ->
  exists m', settle m cs w = Build_State m' cs w
             /\ main_at depotName adminUser w0 rest m'.
Proof.
  intros Hm Hcs. destruct rest as [|[p z] rest]; simpl in Hm.
  - destruct Hm as [->| ->].
    + rewrite settle_bulk_join by (by eapply stage_unbroken).
      eexists. split; [reflexivity|]. simpl.
      destruct (forallb is_fulfilled cs); auto.
    + eexists. split; [reflexivity|]. simpl. auto.
  - subst m. exists (bulk_rest ref depotName adminUser ((p, z) :: rest)).
    split; reflexivity.
Qed.

Lemma stage_settle_rest rest tbl rows owners cs w :
  Forall2 (stage tbl rows) owners cs ->
  exists m',
    settle (bulk_rest ref depotName adminUser rest) cs w = Build_State m' cs w
    /\ main_at depotName adminUser w0 rest m'.
Proof.
  intros Hcs. destruct rest as [|[p z] rest].
  - apply (stage_settle_main [] bulk_join tbl rows owners); [by left|done].
  - by apply (stage_settle_main ((p, z) :: rest) _ tbl rows owners).
Qed.

(** What holds between two round trips of a call the store serves. *)
Record recount_inv (done rest : list (Product.t * Z)) (owners : list Owner)
    (rows : list StockMovement.t) (st : State (option JsError.t)) : Prop := {
  ri_net : Forall served (network (world st));
  ri_ids : NoDup (map Product.id (products (world st)));
  ri_ledger : stock_movements (world st) = stock_movements w0 ++ rows;
  ri_rows : forall m, m ∈ rows ->
      exists o, o ∈ owners
                /\ has_row (products (world st)) (StockMovement.product_id m)
                     (Product.code o.1.1);
  ri_split : inventory = done ++ rest;
  ri_main : main_at depotName adminUser w0 rest (main st);
  ri_owners : map fst owners `sublist_of` done;
  ri_found : forall item x, item ∈ done ->
      filter (at_depot (Product.code item.1) depotName) (products w0) = [x] ->
      Product.stock x <> item.2 -> (item, Some x) ∈ owners;
  ri_chains : Forall2 (stage (products (world st)) rows)
                owners (promises st);
  ri_unseen : forall item, item ∈ rest ->
      filter (at_depot (Product.code item.1) depotName) (products (world st))
      = filter (at_depot (Product.code item.1) depotName) (products w0)
}.

Definition recount_ok (st : State (option JsError.t)) : Prop :=
  exists done rest owners rows, recount_inv done rest owners rows st.

Lemma owners_done (done : list (Product.t * Z)) (owners : list Owner) o :
  map fst owners `sublist_of` done -> o ∈ owners -> o.1 ∈ done.
Proof.
  intros Hsub Ho. eapply sublist_subseteq; [exact Hsub|].
  apply list_elem_of_fmap. eauto.
Qed.

Lemma owners_apart done rest (owners : list Owner) i j a b :
  inventory = done ++ rest -> map fst owners `sublist_of` done ->
  owners !! i = Some a -> owners !! j = Some b -> j <> i ->
  Product.code a.1.1 <> Product.code b.1.1.
Proof.
  intros Hsplit Hsub Ha Hb Hne.
  apply (owner_codes_differ (map fst owners) i j a.1 b.1); auto.
  - by eapply (owner_codes inventory codes_distinct done rest).
  - by rewrite list_lookup_fmap, Ha.
  - by rewrite list_lookup_fmap, Hb.
Qed.

Lemma row_of (tbl : list Product.t) x :
  x ∈ tbl -> has_row tbl (Product.id x) (Product.code x).
Proof. intros Hx. by exists x. Qed.

(** A stock write for the row of another code leaves the chain of a pair
    as it is. *)
Lemma stage_stock_set tbl rows o c X z cX :
  NoDup (map Product.id tbl) -> has_row tbl X cX ->
  cX <> Product.code o.1.1 ->
  stage tbl rows o c -> stage (stock_set X z tbl) rows o c.
Proof.
  intros Hnd HX Hne Hc.
  destruct Hc as [item x Hx Hcode Hab|item x Hx Hcode Hab|item x Hx Hcode Hab
                 |item|item m Hm|item]; simpl in Hne.
  - apply stage_recount; auto. apply elem_stock_set_other; [done|].
    apply not_eq_sym.
    apply (codes_apart tbl _ _ cX (Product.code x) Hnd HX (row_of _ _ Hx)).
    congruence.
  - apply stage_recount_log; auto. apply elem_stock_set_other; [done|].
    apply not_eq_sym.
    apply (codes_apart tbl _ _ cX (Product.code x) Hnd HX (row_of _ _ Hx)).
    congruence.
  - apply stage_recounted; auto. apply elem_stock_set_other; [done|].
    apply not_eq_sym.
    apply (codes_apart tbl _ _ cX (Product.code x) Hnd HX (row_of _ _ Hx)).
    congruence.
  - apply stage_create.
  - apply stage_create_log. by apply has_row_stock_set.
  - apply stage_created.
Qed.

(** So does a product added to the table. *)
Lemma stage_app tbl rows o c r :
  stage tbl rows o c -> stage (tbl ++ [r]) rows o c.
Proof.
  intros Hc.
  destruct Hc as [item x Hx Hcode Hab|item x Hx Hcode Hab|item x Hx Hcode Hab
                 |item|item m Hm|item].
  - apply stage_recount; auto. apply elem_of_app. by left.
  - apply stage_recount_log; auto. apply elem_of_app. by left.
  - apply stage_recounted; auto. apply elem_of_app. by left.
  - apply stage_create.
  - apply stage_create_log. by apply has_row_app.
  - apply stage_created.
Qed.

(** So does a ledger row about the row of another code. *)
Lemma stage_row_added tbl rows o c u t m cX :
  NoDup (map Product.id tbl) ->
  has_row tbl (StockMovement.product_id m) cX ->
  cX <> Product.code o.1.1 ->
  stage tbl rows o c ->
  stage tbl (rows ++ [StockMovement.stored u t m]) o c.
Proof.
  intros Hnd HX Hne Hc.
  destruct Hc as [item x Hx Hcode Hab|item x Hx Hcode Hab|item x Hx Hcode Hab
                 |item|item m' Hm|item]; simpl in Hne.
  - apply stage_recount; auto. rewrite about_app, Hab, about_other; [done|].
    apply (codes_apart tbl _ _ cX (Product.code x) Hnd HX (row_of _ _ Hx)).
    congruence.
  - apply stage_recount_log; auto.
    rewrite about_app, Hab, about_other; [done|].
    apply (codes_apart tbl _ _ cX (Product.code x) Hnd HX (row_of _ _ Hx)).
    congruence.
  - apply stage_recounted; auto.
    rewrite about_app, Hab, about_other; [done|].
    apply (codes_apart tbl _ _ cX (Product.code x) Hnd HX (row_of _ _ Hx)).
    congruence.
  - apply stage_create.
  - by apply stage_create_log.
  - apply stage_created.
Qed.

(** The chain the loop pushes after a lookup, and the pair it is for. *)
Lemma stage_pushed tbl rows p z :
  (forall m, m ∈ rows ->
     forall x, x ∈ tbl -> Product.code x = Product.code p ->
     StockMovement.product_id m <> Product.id x) ->
  exists own : list Owner,
    Forall2 (stage tbl rows) own
      (bulk_pushed ref depotName adminUser (p, z)
         (single (filter (at_depot (Product.code p) depotName) tbl)))
    /\ map fst own `sublist_of` [(p, z)]
    /\ (forall x, filter (at_depot (Product.code p) depotName) tbl = [x] ->
                  Product.stock x <> z -> ((p, z), Some x) ∈ own).
Proof.
  intros Hrows. unfold bulk_pushed. rewrite single_not_skipped.
  destruct (filter (at_depot (Product.code p) depotName) tbl)
    as [|x [|y l]] eqn:Hf; simpl.
  - destruct (0 <? z).
    + exists [((p, z), None)]. split; [|split; [done|done]].
      constructor; [|constructor]. apply (stage_create tbl rows (p, z)).
    + exists []. split; [constructor|]. split; [apply sublist_nil_l|done].
  - destruct (Z.eqb_spec (Product.stock x) z).
    + exists []. split; [constructor|]. split; [apply sublist_nil_l|].
      intros x' Hx' Hne. by simplify_eq.
    + exists [((p, z), Some x)]. split; [|split; [done|]].
      * constructor; [|constructor].
        assert (Hx : x ∈ filter (at_depot (Product.code p) depotName) tbl)
          by (rewrite Hf; left).
        apply at_depot_elem in Hx as (Hx & Hc & _).
        apply (stage_recount tbl rows (p, z) x); [done|done|].
        apply about_none. intros m Hm. by apply Hrows.
      * intros x' Hx' _. simplify_eq. left.
  - destruct (0 <? z).
    + exists [((p, z), None)]. split; [|split; [done|done]].
      constructor; [|constructor]. apply (stage_create tbl rows (p, z)).
    + exists []. split; [constructor|]. split; [apply sublist_nil_l|done].
Qed.

Lemma recount_main_step done rest owners rows st q k :
  recount_inv done rest owners rows st -> main st = Await q k ->
  recount_ok (let '(r, w) := serve MainThread q (world st) in
              settle (k r) (promises st) w).
Proof.
  intros [Hnet Hids Hled Hrows Hsplit Hmain Hown Hfound Hch Hun] Hm.
  destruct rest as [|[p z] rest]; simpl in Hmain.
  { destruct Hmain as [H|H]; rewrite H in Hm; discriminate. }
  destruct (bulk_rest_cons ref depotName adminUser p z rest)
    as (k0 & Hk0 & Hsettle).
  rewrite Hmain, Hk0 in Hm. injection Hm as <- <-.
  rewrite serve_lookup by (by apply served_next).
  rewrite Hsettle, single_not_skipped.
  destruct (stage_pushed (products (world st)) rows p z)
    as (own & Hnew & Hsub & Hin).
  { intros m Hm x Hx Hcode. destruct (Hrows m Hm) as (o & Ho & Hrow).
    apply (codes_apart (products (world st)) _ _ (Product.code o.1.1)
             (Product.code x) Hids Hrow (row_of _ _ Hx)).
    rewrite Hcode.
    apply not_eq_sym.
    apply (rest_codes_differ inventory codes_distinct done ((p, z) :: rest)
             o.1 (p, z) Hsplit); [by eapply owners_done|left]. }
  set (w' := log _ (tick (world st))).
  destruct (stage_settle_rest rest (products (world st)) rows (owners ++ own)
              (promises st ++ bulk_pushed ref depotName adminUser (p, z)
                 (single (filter (at_depot (Product.code p) depotName)
                            (products (world st))))) w')
    as (m' & Hs & Hm'); [by apply Forall2_app|].
  rewrite Hs. exists (done ++ [(p, z)]), rest, (owners ++ own), rows.
  split; simpl; auto.
  - by apply Forall_tail.
  - intros m Hm. destruct (Hrows m Hm) as (o & Ho & Hrow). exists o.
    split; [|done]. apply elem_of_app. by left.
  - by rewrite Hsplit, <- app_assoc.
  - rewrite map_app. by apply sublist_app.
  - intros item x Hitem Hf Hne. apply elem_of_app.
    apply elem_of_app in Hitem as [Hitem|Hitem]; [left; eauto|right].
    apply list_elem_of_singleton in Hitem as ->. apply Hin; [|done].
    rewrite <- Hf. apply (Hun (p, z)). left.
  - by apply Forall2_app.
  - intros item Hitem. apply Hun. by right.
Qed.

Lemma recount_chain_step done rest owners rows st i q k :
  recount_inv done rest owners rows st ->
  promises st !! i = Some (Then q k) ->
  recount_ok (let '(r, w) := serve (PromiseAt i) q (world st) in
              settle (main st) (<[i := k r]> (promises st)) w).
Proof.
  intros [Hnet Hids Hled Hrows Hsplit Hmain Hown Hfound Hch Hun] Hi.
  destruct (Forall2_lookup_r _ _ _ _ _ Hch Hi) as (o & Ho & Hc).
  assert (Hdone : o.1 ∈ done)
    by (eapply owners_done; [exact Hown|by eapply list_elem_of_lookup_2]).
  assert (Hin : o ∈ owners) by (by eapply list_elem_of_lookup_2).
  pose proof (served_next _ Hnet) as Hserved.
  pose proof (Forall_tail _ _ Hnet) as Htail.
  assert (Hothers : forall j a, j <> i -> owners !! j = Some a ->
            Product.code o.1.1 <> Product.code a.1.1)
    by (intros j a Hne Ha; by eapply owners_apart).
  assert (Hrest : forall item, item ∈ rest ->
            Product.code o.1.1 <> Product.code item.1).
  { intros item Hitem. apply not_eq_sym.
    by apply (rest_codes_differ inventory codes_distinct done rest o.1 item). }
  set (tbl := products (world st)) in *.
  inversion Hc as [item x Hx Hcode Hab|item x Hx Hcode Hab|
                  |item|item m Hrow|]; subst q k o; simpl in *.
  - (* the stock write of a recount *)
    rewrite serve_update_stock by done. fold tbl.
    set (tbl' := stock_set (Product.id x) item.2 tbl).
    set (w' := log _ _). set (cs := <[i:=_]> (promises st)).
    assert (HX : has_row tbl (Product.id x) (Product.code item.1))
      by (by exists x).
    assert (Hch' : Forall2 (stage tbl' rows) owners cs).
    { eapply Forall2_update; [exact Hch|exact Ho| |].
      - intros j a b Hne Ha Hb. eapply stage_stock_set; eauto.
      - apply (stage_recount_log tbl' rows item x); auto.
        by apply elem_stock_set_same. }
    destruct (stage_settle_main rest (main st) tbl' rows owners cs w'
                Hmain Hch') as (m' & Hs & Hm').
    rewrite Hs. exists done, rest, owners, rows. split; simpl; auto.
    + unfold tbl'. by rewrite stock_set_ids.
    + intros m Hm. destruct (Hrows m Hm) as (o & Hoin & Hrow). exists o.
      split; [done|]. by apply has_row_stock_set.
    + intros it Hit. unfold tbl'. rewrite filter_at_depot_stock_set.
      rewrite stock_set_untouched; [by apply Hun|].
      intros y Hy. apply at_depot_elem in Hy as (Hy & Hyc & _).
      apply (codes_apart tbl _ _ (Product.code y) (Product.code item.1)
               Hids (row_of _ _ Hy) HX).
      rewrite Hyc. apply not_eq_sym. by apply (Hrest it).
  - (* the ledger row of a recount *)
    rewrite serve_insert_movement by done.
    set (row := StockMovement.stored _ _ _).
    set (w' := log _ _). set (cs := <[i:=_]> (promises st)).
    assert (HX : has_row tbl (Product.id x) (Product.code item.1))
      by (by exists (Product.with_stock item.2 x)).
    assert (Hch' : Forall2 (stage tbl (rows ++ [row])) owners cs).
    { eapply Forall2_update; [exact Hch|exact Ho| |].
      - intros j a b Hne Ha Hb.
        eapply (stage_row_added tbl rows a b _ _ _ (Product.code item.1));
          eauto.
      - apply (stage_recounted tbl (rows ++ [row]) item x); auto.
        rewrite about_app, Hab. simpl.
        apply (about_same _ _ (recount_row ref adminUser x item.2)). }
    destruct (stage_settle_main rest (main st) tbl (rows ++ [row]) owners cs
                w' Hmain Hch') as (m' & Hs & Hm').
    rewrite Hs. exists done, rest, owners, (rows ++ [row]).
    split; simpl; auto.
    + by rewrite Hled, app_assoc.
    + intros m Hm. apply elem_of_app in Hm as [Hm|Hm]; [by apply Hrows|].
      apply list_elem_of_singleton in Hm as ->.
      exists (item, Some x). split; [done|]. exact HX.
  - (* the insert of a creation *)
    rewrite serve_insert_product by done. fold tbl.
    set (r := Product.stored _ _ _).
    set (tbl' := tbl ++ [r]).
    set (w' := log _ _). set (cs := <[i:=_]> (promises st)).
    assert (Hnew : Product.id r ∉ map Product.id tbl)
      by (apply infinite_is_fresh).
    assert (Hch' : Forall2 (stage tbl' rows) owners cs).
    { eapply Forall2_update; [exact Hch|exact Ho| |].
      - intros j a b Hne Ha Hb. by apply stage_app.
      - apply (stage_create_log tbl' rows item
                 (movement (Product.id r) (Product.name r) (User.id adminUser)
                    (full_name adminUser) initial item.2 0 item.2 ref)).
        exists r. split; [|done]. apply elem_of_app. right. left. }
    destruct (stage_settle_main rest (main st) tbl' rows owners cs w'
                Hmain Hch') as (m' & Hs & Hm').
    rewrite Hs. exists done, rest, owners, rows. split; simpl; auto.
    + unfold tbl'. rewrite map_app. simpl. apply NoDup_app.
      split; [done|]. split; [|apply NoDup_singleton].
      intros y Hy Hy'. apply list_elem_of_singleton in Hy'. by subst.
    + intros m Hm. destruct (Hrows m Hm) as (o & Hoin & Hrow). exists o.
      split; [done|]. by apply has_row_app.
    + intros it Hit. unfold tbl'. rewrite filter_app, (Hun it Hit). simpl.
      rewrite filter_cons_False; [by rewrite app_nil_r|].
      intros Hr. apply Is_true_true, andb_true_iff in Hr as [Hr _].
      apply String.eqb_eq in Hr. by apply (Hrest it Hit).
  - (* the ledger row of a creation *)
    rewrite serve_insert_movement by done.
    set (row := StockMovement.stored _ _ _).
    set (w' := log _ _). set (cs := <[i:=_]> (promises st)).
    assert (Hch' : Forall2 (stage tbl (rows ++ [row])) owners cs).
    { eapply Forall2_update; [exact Hch|exact Ho| |].
      - intros j a b Hne Ha Hb.
        eapply (stage_row_added tbl rows a b _ _ _ (Product.code item.1));
          eauto.
      - apply stage_created. }
    destruct (stage_settle_main rest (main st) tbl (rows ++ [row]) owners cs
                w' Hmain Hch') as (m' & Hs & Hm').
    rewrite Hs. exists done, rest, owners, (rows ++ [row]).
    split; simpl; auto.
    + by rewrite Hled, app_assoc.
    + intros m0 Hm. apply elem_of_app in Hm as [Hm|Hm]; [by apply Hrows|].
      apply list_elem_of_singleton in Hm as ->.
      exists (item, None). split; [done|]. exact Hrow.
Qed.

Lemma recount_step st : recount_ok st -> recount_ok (step st).
Proof.
  intros (done & rest & owners & rows & Hinv).
  destruct (step_is_step_of st) as [H|q k H|i q k Hi].
  - by exists done, rest, owners, rows.
  - by eapply recount_main_step.
  - by eapply recount_chain_step.
Qed.

Lemma recount_run n st : recount_ok st -> recount_ok (run n st).
Proof. apply run_invariant. apply recount_step. Qed.

Lemma recount_start :
  Forall served (network w0) -> NoDup (map Product.id (products w0)) ->
  recount_ok (start (setDepotInventory depotName inventory adminUser) w0).
Proof.
  intros Hnet Hids.
  destruct (stage_settle_rest inventory (products w0) [] [] [] w0)
    as (m' & Hs & Hm'); [constructor|].
  exists [], inventory, [], []. unfold start.
  rewrite setDepotInventory_unfold. simpl settle.
  rewrite bulk_set_with_rest, Hs. split; simpl; auto.
  - by rewrite app_nil_r.
  - intros m Hm. by apply elem_of_nil in Hm.
  - intros item x Hitem. by apply elem_of_nil in Hitem.
Qed.

(** When the call has returned, every product that was found at the depot
    with another stock holds the count, and has its one ledger row. *)
Lemma recount_end st :
  recount_ok st -> in_flight st = [] ->
  (exists r, main st = Return r) \/ (exists e, main st = Throw e) ->
  outcome st = Returned None
  /\ NoDup (map Product.id (products (world st)))
  /\ exists rows,
       stock_movements (world st) = stock_movements w0 ++ rows
       /\ forall product newStock existing,
            (product, newStock) ∈ inventory ->
            filter (at_depot (Product.code product) depotName) (products w0)
            = [existing] ->
            Product.stock existing <> newStock ->
            Product.with_stock newStock existing ∈ products (world st)
            /\ about (Product.id existing) rows
               = [recount_row ref adminUser existing newStock].
Proof.
  intros (done & rest & owners & rows & Hinv) Hfl Hret.
  destruct Hinv as [Hnet Hids Hled Hrows Hsplit Hmain Hown Hfound Hch Hun].
  assert (Hm : rest = [] /\ main st = Return None).
  { destruct rest as [|[p z] rest]; simpl in Hmain.
    - split; [done|]. destruct Hmain as [H|H]; [|done].
      rewrite H in Hret. destruct Hret as [[r Hr]|[e He]]; discriminate.
    - destruct (bulk_rest_cons ref depotName adminUser p z rest)
        as (k0 & Hk0 & _).
      rewrite Hmain, Hk0 in Hret.
      destruct Hret as [[r Hr]|[e He]]; discriminate. }
  destruct Hm as [-> Hm]. rewrite app_nil_r in Hsplit. subst done.
  split; [unfold outcome; by rewrite Hm|]. split; [done|].
  exists rows. split; [done|]. intros product newStock existing Hin Hf Hne.
  specialize (Hfound _ _ Hin Hf Hne).
  apply list_elem_of_lookup_1 in Hfound as [i Hi].
  destruct (Forall2_lookup_l _ _ _ _ _ Hch Hi) as (c & Hc & Hof).
  unfold in_flight in Hfl. apply app_eq_nil in Hfl as [Hcs _].
  apply waiting_chains_nil in Hcs. rewrite Forall_forall in Hcs.
  assert (Hw : chain_waits c = false)
    by (apply Hcs; by eapply list_elem_of_lookup_2).
  inversion Hof as [item x Hx Hcode Hab|item x Hx Hcode Hab
                   |item x Hx Hcode Hab| | |]; subst; try discriminate.
  done.
Qed.

End BulkRecount.

(** In a bulk set whose pairs have distinct product codes, on a table whose
    ids are distinct, served by the store in whatever order: for every pair
    whose code exactly one product at the depot had, with a stock other than
    the count, that product ends with the count as stock, every other field
    as it was, and exactly one of the ledger rows the call appended is about
    it: an [inventory_count] row from the stock found to the count, under
    the one reference of the call. *)
Theorem bulk_set_recounts_found_products depotName inventory adminUser w :
  Forall served (network w) ->
  NoDup (map (fun item : Product.t * Z => Product.code item.1) inventory) ->
  NoDup (map Product.id (products w)) ->
  let st := run (fuel_of (BulkInventorySet depotName inventory adminUser))
              (start (setDepotInventory depotName inventory adminUser) w) in
  let transaction_ref := transaction_ref_at "INV" (clock w) in
  outcome st = Returned None
  /\ exists rows,
       stock_movements (world st) = stock_movements w ++ rows
       /\ forall product newStock existing,
            (product, newStock) ∈ inventory ->
            filter (at_depot (Product.code product) depotName) (products w)
            = [existing] ->
            Product.stock existing <> newStock ->
            filter (id_is (Product.id existing)) (products (world st))
            = [Product.with_stock newStock existing]
            /\ about (Product.id existing) rows
               = [movement (Product.id existing) (Product.name existing)
                    (User.id adminUser) (full_name adminUser)
                    inventory_count
                    (Double.sub newStock (Product.stock existing))
                    (Product.stock existing) newStock transaction_ref].
Proof.
  intros Hnet Hcodes Hids st transaction_ref.
  destruct (start_finishes
              (fuel_of (BulkInventorySet depotName inventory adminUser))
              (setDepotInventory depotName inventory adminUser) w
              (invoke_within (BulkInventorySet depotName inventory adminUser)))
    as [Hfl Hret].
  destruct (recount_end depotName adminUser inventory w st)
    as (Hout & Hnd & rows & Hled & Hrec);
    [apply (recount_run depotName adminUser inventory w Hcodes);
     by apply recount_start|done|done|].
  split; [done|]. exists rows. split; [done|].
  intros product newStock existing Hin Hf Hne.
  destruct (Hrec product newStock existing Hin Hf Hne) as [Hrow Habout].
  split; [|exact Habout].
  apply (unique_row_by_id _ _ Hnd Hrow).
Qed.

(** ** Symbolic execution along a known script *)

Lemma run_step {R} n (s s' : State R) :
  step s = s' -> run (S n) s = run n s'.
Proof. by intros <-. Qed.

(** The start state of a program, computed. *)
Ltac known_start :=
  match goal with
  | |- context [start ?m ?w] =>
      let Hstart := fresh "Hstart" in
      eassert (Hstart : start m w = _);
      [ unfold start, setDepotInventory, generateTransactionRef, await,
          Date_now; simpl; reflexivity
      | rewrite !Hstart; clear Hstart ]
  end.

(** One step of a state whose threads and next answer are known; [tac]
    rewrites with what is known of the tables. *)
Ltac known_step tac :=
  match goal with
  | |- context [run (S ?n) ?s] =>
      let Hstep := fresh "Hstep" in
      eassert (Hstep : step s = _);
      [ unfold step, choose, in_flight, next_net; simpl;
        repeat match goal with Hk : Net.pick _ = _ |- _ => rewrite !Hk end;
        simpl;
        unfold serve, next_net, tick; simpl;
        unfold next_net; simpl;
        repeat match goal with Hf : Net.fault _ = None |- _ => rewrite !Hf end;
        simpl; tac;
        lazymatch goal with
        | |- Build_State _ _ _ = _ => reflexivity
        end
      | rewrite !(run_step n s _ Hstep); clear Hstep ]
  end.

(** ** Two lines for one product in an approval *)

(** An approval of a submission with two lines for the same product, which
    the store serves without fault in this order: the status update, the two
    stock reads, the two stock writes, the two ledger inserts.  The approval
    returns no error and the product ends with the quantity of the second
    line.  Both ledger rows record the stock found before the approval as
    old level: the row of the second line does not start from the level the
    row of the first line ends at. *)
Theorem approval_of_duplicate_lines_loses_an_update
    s adminUser w p item1 item2 k1 :
  InventorySubmission.items s = [item1; item2] ->
  InventoryItem.productId item1 = Product.id p ->
  InventoryItem.productId item2 = Product.id p ->
  filter (id_is (Product.id p)) (products w) = [p] ->
  Forall served (take 7 (network w)) ->
  map Net.pick (take 6 (network w)) = [k1; 0; 1; 0; 1; 0]%nat ->
  let st := run 7 (start (approveSubmission s adminUser) w) in
  outcome st = Returned None
  /\ holds (Product.id p) (InventoryItem.quantity item2) (products (world st))
  /\ exists row1 row2,
       stock_movements (world st) = stock_movements w ++ [row1; row2]
       /\ StockMovement.old_stock_level row1 = Product.stock p
       /\ StockMovement.new_stock_level row1 = InventoryItem.quantity item1
       /\ StockMovement.old_stock_level row2 = Product.stock p
       /\ StockMovement.new_stock_level row2 = InventoryItem.quantity item2.
Proof.
  intros Hitems Hid1 Hid2 Hp Hserved Hpicks st. subst st.
  assert (Hok : Net.fault (next_net w) = None).
  { unfold next_net. destruct (network w); [done|]. simpl in Hserved.
    by inversion Hserved. }
  rewrite approval_run_after_status by done.
  unfold approval_running. rewrite Hitems. cbn [map].
  rewrite settle_approval_join.
  destruct w as [ps ms ss cs t net j].
  cbn [products network] in Hp, Hserved, Hpicks.
  clear Hok.
  destruct net as [|n1 [|n2 [|n3 [|n4 [|n5 [|n6 rest]]]]]];
    simpl in Hpicks; try discriminate.
  injection Hpicks as _ Hk2 Hk3 Hk4 Hk5 Hk6.
  assert (Hn7 : Net.fault (next_net
            {| products := ps; stock_movements := ms;
               inventory_submissions := ss; chat_messages := cs;
               clock := t; network := rest; journal := j |}) = None).
  { unfold next_net. simpl. destruct rest; [done|]. simpl in Hserved.
    do 6 (apply Forall_cons in Hserved as [_ Hserved]).
    by apply Forall_cons in Hserved as [? _]. }
  unfold next_net in Hn7. simpl in Hn7.
  served_entries Hserved.
  unfold approve_item, Promise_all, serve, next_net, tick. cbn -[run].
  repeat match goal with Hf : Net.fault _ = None |- _ => rewrite !Hf end.
  cbn -[run].
  known_step ltac:(rewrite ?Hid1, ?Hp; simpl).
  known_step ltac:(rewrite ?Hid2, ?Hp; simpl).
  do 4 known_step idtac.
  simpl. split; [done|]. split.
  - rewrite Hid2. apply holds_stock_set_same.
  - do 2 eexists. split; [by rewrite <- app_assoc|]. done.
Qed.

(** ** Bulk inventory set: a code the depot holds more than once *)

(** A bulk set of one pair, with a positive count, whose code two or more
    products of the depot carry, served without fault.  The lookup's
    [.single()] answers [PGRST116], as it does for no row, and the function
    takes the product as missing: it returns no error, leaves every row of
    the table as it was and inserts one more product with that code at the
    depot, with the count as stock, logged by one [initial] row from 0 to
    the count. *)
Theorem bulk_set_adds_to_duplicates
    depotName product newStock adminUser w r1 r2 more :
  Forall served (take 3 (network w)) ->
  filter (at_depot (Product.code product) depotName) (products w)
  = r1 :: r2 :: more ->
  0 < newStock ->
  let st := run 3 (start (setDepotInventory depotName [(product, newStock)]
                            adminUser) w) in
  outcome st = Returned None
  /\ exists r row,
       products (world st) = products w ++ [r]
       /\ (Product.id r ∉ map Product.id (products w))
       /\ filter (at_depot (Product.code product) depotName)
            (products (world st)) = r1 :: r2 :: more ++ [r]
       /\ Product.stock r = newStock
       /\ stock_movements (world st) = stock_movements w ++ [row]
       /\ StockMovement.product_id row = Product.id r
       /\ StockMovement.change_type row = initial
       /\ StockMovement.old_stock_level row = 0
       /\ StockMovement.new_stock_level row = newStock.
Proof.
  intros Hserved Hfound Hpos st. subst st.
  destruct w as [ps ms ss cs t net j].
  cbn [products network stock_movements] in *.
  assert (Hsingle : single (r1 :: r2 :: more) = Response.failed PGRST116)
    by done.
  assert (Hlt : (0 <? newStock) = true) by (apply Z.ltb_lt; lia).
  destruct net as [|n1 [|n2 [|n3 rest]]]; served_entries Hserved.
  all: known_start.
  all: known_step ltac:(rewrite ?Hfound, ?Hsingle; simpl; rewrite ?Hlt; simpl).
  all: do 2 known_step idtac.
  all: simpl; split; [done|]; do 2 eexists.
  all: split; [reflexivity|]; split; [apply infinite_is_fresh|].
  all: split; [|done].
  all: rewrite filter_app, Hfound, filter_cons_True, filter_nil;
    [by rewrite <- !app_comm_cons|].
  all: unfold at_depot; simpl; by rewrite !String.eqb_refl.
Qed.

(** ** The further properties at the sample data *)

Lemma addProduct_creates_and_logs_witness :
  Forall served (take 2 (network (sample_store [answered; answered])))
  /\ exists u t row,
       products (world (run 2 (start (addProduct P1 admin_user)
                                 (sample_store [answered; answered]))))
       = [P1; P2; Product.stored u t P1]
       /\ stock_movements
            (world (run 2 (start (addProduct P1 admin_user)
                             (sample_store [answered; answered]))))
          = [row].
Proof.
  assert (H : Forall served
                (take 2 (network (sample_store [answered; answered]))))
    by (repeat constructor).
  split; [exact H|].
  destruct (addProduct_creates_and_logs P1 admin_user
              (sample_store [answered; answered]) H)
    as (u & t & row & _ & Hps & _ & Hms & _).
  exists u, t, row. split; [exact Hps|exact Hms].
Defined.

Lemma addProduct_insert_failure_witness :
  Net.fault (next_net (sample_store [dropped])) = Some connection_lost
  /\ outcome (run 2 (start (addProduct P1 admin_user) (sample_store [dropped])))
     = Returned (Response.failed connection_lost).
Proof.
  split; [reflexivity|].
  exact (proj1 (addProduct_insert_failure P1 admin_user
                  (sample_store [dropped]) connection_lost eq_refl)).
Defined.

Lemma product_ledger_failure_goes_unreported_witness :
  (exists u t,
     outcome (run 2 (start (addProduct P1 admin_user)
                       (sample_store [answered; dropped])))
     = Returned (Response.row (Product.stored u t P1)))
  /\ (Product.stock (Product.with_stock 9 P1) <> Product.stock P1
      /\ stock_movements
           (world (run 3 (start (updateProduct (Product.with_stock 9 P1)
                                   admin_user)
                            (sample_store [answered; answered; dropped]))))
         = []).
Proof.
  assert (H : Product.stock (Product.with_stock 9 P1) <> Product.stock P1)
    by (simpl; lia).
  split.
  - destruct (proj1 product_ledger_failure_goes_unreported P1 admin_user
                (sample_store [answered; dropped]) answered dropped []
                connection_lost eq_refl eq_refl eq_refl)
      as (u & t & Hout & _).
    exists u, t. exact Hout.
  - split; [exact H|].
    destruct (proj2 product_ledger_failure_goes_unreported
                (Product.with_stock 9 P1) admin_user
                (sample_store [answered; answered; dropped])
                answered answered dropped [] P1 connection_lost
                eq_refl eq_refl eq_refl eq_refl eq_refl H)
      as (r & _ & _ & _ & Hms).
    exact Hms.
Defined.

Lemma updateProduct_read_failure_witness :
  (Net.fault (next_net (sample_store [answered])) = None
   /\ forall p0,
        filter (id_is (Product.id (Product.stored "P9" 0 P1)))
          (products (sample_store [answered])) <> [p0])
  /\ outcome (run 3 (start (updateProduct (Product.stored "P9" 0 P1)
                              admin_user)
                       (sample_store [answered])))
     = Returned (Response.failed PGRST116).
Proof.
  assert (H : forall p0,
             filter (id_is (Product.id (Product.stored "P9" 0 P1)))
               (products (sample_store [answered])) <> [p0])
    by (intros p0; vm_compute; discriminate).
  split; [split; [reflexivity|exact H]|].
  exact (proj1 (updateProduct_read_failure (Product.stored "P9" 0 P1)
                  admin_user (sample_store [answered]) PGRST116
                  (or_intror (conj eq_refl (conj eq_refl H))))).
Defined.

Lemma depotRecordConsumption_trusts_callers_stock_witness :
  Forall served (take 2 (network (sample_store [answered; answered])))
  /\ 0 <= Product.stock (Product.with_stock 20 P1) - 2
  /\ holds "P1" 18
       (products (world (run 2 (start (depotRecordConsumption
                                         (Product.with_stock 20 P1) 2
                                         depot_user)
                                  (sample_store [answered; answered]))))).
Proof.
  assert (H1 : Forall served
                 (take 2 (network (sample_store [answered; answered]))))
    by (repeat constructor).
  assert (H2 : 0 <= Product.stock (Product.with_stock 20 P1) - 2)
    by (simpl; lia).
  split; [exact H1|]. split; [exact H2|].
  exact (proj1 (proj2 (proj2 (depotRecordConsumption_trusts_callers_stock
                                (Product.with_stock 20 P1) 2 depot_user
                                (sample_store [answered; answered]) H1 H2)))).
Defined.

Lemma depotRecordConsumption_write_failure_witness :
  Net.fault (next_net (sample_store [dropped])) = Some connection_lost
  /\ 0 <= Product.stock P1 - 2
  /\ outcome (run 2 (start (depotRecordConsumption P1 2 depot_user)
                       (sample_store [dropped])))
     = Returned (Some connection_lost).
Proof.
  assert (H : 0 <= Product.stock P1 - 2) by (simpl; lia).
  split; [reflexivity|]. split; [exact H|].
  exact (proj1 (depotRecordConsumption_write_failure P1 2 depot_user
                  (sample_store [dropped]) connection_lost eq_refl H)).
Defined.

Lemma adminCreateMovement_unknown_product_witness :
  (Net.fault (next_net (sample_store [answered])) = None
   /\ forall p, filter (id_is "P9") (products (sample_store [answered]))
                <> [p])
  /\ outcome (run 3 (start (adminCreateMovement "P9" 2 movement_admin_entry
                              admin_user)
                       (sample_store [answered])))
     = Returned (Some (JsError.new "Produit introuvable.")).
Proof.
  assert (H : forall p, filter (id_is "P9")
                          (products (sample_store [answered])) <> [p])
    by (intros p; vm_compute; discriminate).
  split; [split; [reflexivity|exact H]|].
  exact (proj1 (adminCreateMovement_unknown_product "P9" 2
                  movement_admin_entry admin_user (sample_store [answered])
                  (or_intror (conj eq_refl H)))).
Defined.

Lemma admin_entry_then_exit_witness :
  Forall served (take 6 (network (sample_store (replicate 6 answered))))
  /\ filter (id_is "P1") (products (sample_store (replicate 6 answered)))
     = [P1]
  /\ 0 <= Product.stock P1 /\ 0 <= Product.stock P1 + 3
  /\ Double.moderate (Product.stock P1) /\ Double.moderate 3
  /\ products
       (world (run 3 (start (adminCreateMovement "P1" 3 movement_admin_exit
                               admin_user)
                        (world (run 3 (start (adminCreateMovement "P1" 3
                                                movement_admin_entry
                                                admin_user)
                                         (sample_store
                                            (replicate 6 answered))))))))
     = [P1; P2].
Proof.
  assert (H1 : Forall served
                 (take 6 (network (sample_store (replicate 6 answered)))))
    by (repeat constructor).
  assert (H2 : 0 <= Product.stock P1) by (simpl; lia).
  assert (H3 : 0 <= Product.stock P1 + 3) by (simpl; lia).
  assert (H4 : Double.moderate (Product.stock P1))
    by (unfold Double.moderate; simpl; lia).
  assert (H5 : Double.moderate 3) by (unfold Double.moderate; simpl; lia).
  split; [exact H1|]. split; [reflexivity|]. split; [exact H2|].
  split; [exact H3|]. split; [exact H4|]. split; [exact H5|].
  exact (proj1 (proj2 (proj2 (admin_entry_then_exit "P1" 3 admin_user
                                (sample_store (replicate 6 answered)) P1
                                H1 eq_refl H2 H3 H4 H5)))).
Defined.

Lemma setDepotInventory_unchanged_counts_witness :
  Forall served
    (take (length [(P1, 7); (P2, 4)])
       (network (sample_store [answered; answered])))
  /\ Forall (count_unchanged "Labo A"
               (products (sample_store [answered; answered])))
       [(P1, 7); (P2, 4)]
  /\ outcome (run (length [(P1, 7); (P2, 4)])
                (start (setDepotInventory "Labo A" [(P1, 7); (P2, 4)]
                          admin_user)
                   (sample_store [answered; answered])))
     = Returned None.
Proof.
  assert (H1 : Forall served
                 (take (length [(P1, 7); (P2, 4)])
                    (network (sample_store [answered; answered]))))
    by (repeat constructor).
  assert (H2 : Forall (count_unchanged "Labo A"
                         (products (sample_store [answered; answered])))
                 [(P1, 7); (P2, 4)])
    by (repeat constructor).
  split; [exact H1|]. split; [exact H2|].
  exact (proj1 (setDepotInventory_unchanged_counts "Labo A"
                  [(P1, 7); (P2, 4)] admin_user
                  (sample_store [answered; answered]) H1 H2)).
Defined.

Lemma setDepotInventory_skips_failed_lookups_witness :
  (length [(P1, 9)] <= length (network (sample_store [dropped])))%nat
  /\ Forall fails_otherwise
       (take (length [(P1, 9)]) (network (sample_store [dropped])))
  /\ outcome (run (length [(P1, 9)])
                (start (setDepotInventory "Labo A" [(P1, 9)] admin_user)
                   (sample_store [dropped])))
     = Returned None.
Proof.
  assert (H1 : (length [(P1, 9)]
                <= length (network (sample_store [dropped])))%nat)
    by (simpl; lia).
  assert (H2 : Forall fails_otherwise
                 (take (length [(P1, 9)]) (network (sample_store [dropped])))).
  { repeat constructor. exists connection_lost. split; reflexivity. }
  split; [exact H1|]. split; [exact H2|].
  exact (proj1 (setDepotInventory_skips_failed_lookups "Labo A" [(P1, 9)]
                  admin_user (sample_store [dropped]) H1 H2)).
Defined.

Lemma typed_quantity_is_staged_witness :
  (Product.id P1
     ∉ map InventoryItem.productId
         (InventoryTab.stagedItems InventoryTab.initial))
  /\ InventoryTab.stagedItems
       (InventoryTab.handleStageItem P1
          (InventoryTab.handleQuantityChange (fun _ => Some 15)
             (Product.id P1) "15" InventoryTab.initial))
     = [item_of P1 15].
Proof.
  assert (H : Product.id P1
              ∉ map InventoryItem.productId
                  (InventoryTab.stagedItems InventoryTab.initial))
    by (simpl; apply not_elem_of_nil).
  split; [exact H|].
  exact (proj1 (typed_quantity_is_staged (fun _ => Some 15) P1 "15"
                  InventoryTab.initial H)).
Defined.

Lemma stage_then_unstage_witness :
  let typed :=
    InventoryTab.handleQuantityChange (fun _ => Some 15) (Product.id P1) "15"
      {| InventoryTab.quantities := ∅;
         InventoryTab.stagedItems := [item_of P2 4] |} in
  (Product.id P1
     ∉ map InventoryItem.productId (InventoryTab.stagedItems typed))
  /\ InventoryTab.stagedItems (InventoryTab.handleStageItem P1 typed)
     = [item_of P2 4; item_of P1 15]
  /\ InventoryTab.stagedItems
       (InventoryTab.handleUnstageItem (Product.id P1)
          (InventoryTab.handleStageItem P1 typed))
     = [item_of P2 4].
Proof.
  intros typed.
  assert (H : Product.id P1
              ∉ map InventoryItem.productId (InventoryTab.stagedItems typed))
    by (vm_compute; intros H; inversion H as [|? ? ? H']; inversion H').
  split; [exact H|]. split; [reflexivity|].
  exact (stage_then_unstage P1 typed H).
Defined.

Lemma handleConsumption_refuses_witness :
  (let quantity := default 0 (({[ "P1" := 9 ]} : gmap string Z)
                                !! Product.id P1) in
   quantity <= 0 \/ Product.stock P1 < quantity \/ true = false)
  /\ outcome (run 2 (start (StockExitTab.handleConsumption true depot_user
                              {[ "P1" := 9 ]} P1)
                       (sample_store [answered; answered])))
     = Returned {[ "P1" := 9 ]}.
Proof.
  assert (H : let quantity := default 0 (({[ "P1" := 9 ]} : gmap string Z)
                                           !! Product.id P1) in
              quantity <= 0 \/ Product.stock P1 < quantity \/ true = false)
    by (right; left; vm_compute; reflexivity).
  split; [exact H|].
  exact (proj1 (handleConsumption_refuses true depot_user {[ "P1" := 9 ]} P1
                  (sample_store [answered; answered]) 2 H)).
Defined.

Lemma handleConsumption_records_witness :
  ({[ "P1" := 2 ]} : gmap string Z) !! Product.id P1 = Some 2
  /\ 0 < 2 /\ 2 <= Product.stock P1
  /\ products (world (run 2 (start (StockExitTab.handleConsumption true
                                      depot_user {[ "P1" := 2 ]} P1)
                               (sample_store [answered; answered]))))
     = stock_set "P1" 5 [P1; P2].
Proof.
  assert (H1 : ({[ "P1" := 2 ]} : gmap string Z) !! Product.id P1 = Some 2)
    by (vm_compute; reflexivity).
  assert (H2 : 2 <= Product.stock P1) by (simpl; lia).
  split; [exact H1|]. split; [lia|]. split; [exact H2|].
  exact (proj1 (proj2 (handleConsumption_records depot_user {[ "P1" := 2 ]}
                         P1 2 (sample_store [answered; answered])
                         H1 ltac:(lia) H2))).
Defined.

Lemma depot_page_sends_distinct_codes_witness :
  (forall l : list Product.t, (fun l => l) l ≡ₚ l)
  /\ NoDup (map (fun item : Product.t * Z => Product.code item.1)
              (DepotStockManager.itemsToUpdate (fun _ => Some 3)
                 (foldl DepotStockManager.handleStockChange
                    (DepotStockManager.rows_of (fun l => l)
                       {| Depot.id := "d1"; Depot.name := "Labo A";
                          Depot.color := "blue"; Depot.active := true |}
                       [P1; P2])
                    [("ETH-01", "3")]))).
Proof.
  assert (H : forall l : list Product.t, (fun l => l) l ≡ₚ l)
    by (intros l; reflexivity).
  split; [exact H|].
  exact (proj1 (depot_page_sends_distinct_codes (fun l => l) (fun _ => Some 3)
                  {| Depot.id := "d1"; Depot.name := "Labo A";
                     Depot.color := "blue"; Depot.active := true |}
                  [P1; P2] [("ETH-01", "3")] H)).
Defined.

Lemma operation_touches_only_named_products_witness :
  (forall depotName inventory adminUser,
     DepotConsumption P1 2 depot_user
     <> BulkInventorySet depotName inventory adminUser)
  /\ (forall product user,
        DepotConsumption P1 2 depot_user <> ProductCreate product user)
  /\ other_products ["P1"]
       (products (world (run 2 (start (depotRecordConsumption P1 2 depot_user)
                                  (sample_store [answered; answered])))))
     = [P2].
Proof.
  assert (H1 : forall depotName inventory adminUser,
             DepotConsumption P1 2 depot_user
             <> BulkInventorySet depotName inventory adminUser)
    by discriminate.
  assert (H2 : forall product user,
             DepotConsumption P1 2 depot_user <> ProductCreate product user)
    by discriminate.
  split; [exact H1|]. split; [exact H2|].
  exact (proj1 (operation_touches_only_named_products
                  (DepotConsumption P1 2 depot_user)
                  (sample_store [answered; answered]) 2 H1 H2)).
Defined.

Lemma approval_of_held_counts_changes_no_product_witness :
  (forall item,
     item ∈ InventorySubmission.items (sample_submission [item_of P1 7]) ->
     holds (InventoryItem.productId item) (InventoryItem.quantity item)
       (products (sample_store [answered; dropped])))
  /\ products
       (world (run 5 (start (approveSubmission
                               (sample_submission [item_of P1 7]) admin_user)
                        (sample_store [answered; dropped]))))
     = [P1; P2].
Proof.
  assert (H : forall item,
             item ∈ InventorySubmission.items
                      (sample_submission [item_of P1 7]) ->
             holds (InventoryItem.productId item)
               (InventoryItem.quantity item)
               (products (sample_store [answered; dropped]))).
  { intros item Hitem. apply list_elem_of_singleton in Hitem as ->.
    intros p Hp Hid. simpl in Hp.
    apply elem_of_cons in Hp as [->|Hp]; [reflexivity|].
    apply list_elem_of_singleton in Hp as ->. discriminate. }
  split; [exact H|].
  exact (approval_of_held_counts_changes_no_product
           (sample_submission [item_of P1 7]) admin_user
           (sample_store [answered; dropped]) 5 H).
Defined.

Lemma bulk_set_recounts_found_products_witness :
  Forall served (network (sample_store (replicate 3 answered)))
  /\ NoDup (map (fun item : Product.t * Z => Product.code item.1) [(P1, 9)])
  /\ NoDup (map Product.id (products (sample_store (replicate 3 answered))))
  /\ outcome (run (fuel_of (BulkInventorySet "Labo A" [(P1, 9)] admin_user))
                (start (setDepotInventory "Labo A" [(P1, 9)] admin_user)
                   (sample_store (replicate 3 answered))))
     = Returned None.
Proof.
  assert (H1 : Forall served
                 (network (sample_store (replicate 3 answered))))
    by (repeat constructor).
  assert (H2 : NoDup (map (fun item : Product.t * Z => Product.code item.1)
                        [(P1, 9)]))
    by apply NoDup_singleton.
  assert (H3 : NoDup (map Product.id
                        (products (sample_store (replicate 3 answered))))).
  { compute_done. }
  split; [exact H1|]. split; [exact H2|]. split; [exact H3|].
  exact (proj1 (bulk_set_recounts_found_products "Labo A" [(P1, 9)]
                  admin_user (sample_store (replicate 3 answered))
                  H1 H2 H3)).
Defined.

Lemma approval_of_duplicate_lines_loses_an_update_witness :
  InventorySubmission.items
    (sample_submission [item_of P1 15; item_of P1 20])
  = [item_of P1 15; item_of P1 20]
  /\ InventoryItem.productId (item_of P1 15) = Product.id P1
  /\ InventoryItem.productId (item_of P1 20) = Product.id P1
  /\ filter (id_is (Product.id P1))
       (products (sample_store reads_then_writes)) = [P1]
  /\ Forall served (take 7 (network (sample_store reads_then_writes)))
  /\ map Net.pick (take 6 (network (sample_store reads_then_writes)))
     = [0; 0; 1; 0; 1; 0]%nat
  /\ outcome (run 7 (start (approveSubmission
                              (sample_submission
                                 [item_of P1 15; item_of P1 20])
                              admin_user)
                       (sample_store reads_then_writes)))
     = Returned None.
Proof.
  assert (H1 : filter (id_is (Product.id P1))
                 (products (sample_store reads_then_writes)) = [P1])
    by reflexivity.
  assert (H2 : Forall served
                 (take 7 (network (sample_store reads_then_writes))))
    by (repeat constructor).
  split; [reflexivity|]. split; [reflexivity|]. split; [reflexivity|].
  split; [exact H1|]. split; [exact H2|]. split; [reflexivity|].
  exact (proj1 (approval_of_duplicate_lines_loses_an_update
                  (sample_submission [item_of P1 15; item_of P1 20])
                  admin_user (sample_store reads_then_writes) P1
                  (item_of P1 15) (item_of P1 20) 0%nat
                  eq_refl eq_refl eq_refl H1 H2 eq_refl)).
Defined.

Lemma bulk_set_adds_to_duplicates_witness :
  Forall served
    (take 3 (network (set_products [P1; P2; P1_again]
                        (sample_store (replicate 3 answered)))))
  /\ filter (at_depot (Product.code P1) "Labo A")
       (products (set_products [P1; P2; P1_again]
                    (sample_store (replicate 3 answered))))
     = P1 :: P1_again :: []
  /\ 0 < 9
  /\ outcome (run 3 (start (setDepotInventory "Labo A" [(P1, 9)] admin_user)
                       (set_products [P1; P2; P1_again]
                          (sample_store (replicate 3 answered)))))
     = Returned None.
Proof.
  assert (H1 : Forall served
                 (take 3 (network (set_products [P1; P2; P1_again]
                                     (sample_store (replicate 3 answered))))))
    by (repeat constructor).
  assert (H2 : filter (at_depot (Product.code P1) "Labo A")
                 (products (set_products [P1; P2; P1_again]
                              (sample_store (replicate 3 answered))))
               = P1 :: P1_again :: [])
    by reflexivity.
  assert (H3 : 0 < 9) by lia.
  split; [exact H1|]. split; [exact H2|]. split; [exact H3|].
  exact (proj1 (bulk_set_adds_to_duplicates "Labo A" P1 9 admin_user
                  (set_products [P1; P2; P1_again]
                     (sample_store (replicate 3 answered)))
                  P1 P1_again [] H1 H2 H3)).
Defined.
